(** * TETRA carrier detector: scan / lock state machine

    Shallow embedding of [python_detector/tetra_detector_app.c] (the variant
    with the explicit radio session) and the properties of its detection and
    lock state machine.

    The program talks to its environment through the tick counter, the radio
    (tune, RSSI), the notification service, the view port and the input
    callback.  The embedding makes every such interaction explicit: the values
    the environment returns are arguments of the embedded functions, and every
    call is recorded in an event log.  Array reads are checked, an index that
    is out of range stops the run with [OutOfBounds].

    The input callback runs on the GUI thread and writes the fields the scan
    thread reads.  The embedding lets it run while the scan thread sleeps in
    [furi_delay_ms]: during the tuning delay of [read_rssi], between the read
    of [free_scan] that picks the frequency and the one that picks the
    baseline, and during the frame delay that ends a dwell step. *)

From Stdlib Require Import ZArith List Bool Lia.
From Stdlib Require Strings.String.
Import ListNotations.
Import Strings.String.StringSyntax.
Delimit Scope string_scope with string.
Open Scope Z_scope.

Set Implicit Arguments.

(** ** Machine integers *)

Module U32.
Definition modulus : Z := 2 ^ 32.
Definition wrap (z : Z) : Z := z mod modulus.
Definition add (a b : Z) : Z := wrap (a + b).
Definition sub (a b : Z) : Z := wrap (a - b).
Definition mul (a b : Z) : Z := wrap (a * b).
Definition div (a b : Z) : Z := a / b.
End U32.

(** ** Signal strength values

    RSSI values, baselines and thresholds are C [float]s.  The machine only
    adds and subtracts them, converts small integers to them and compares them
    with [<]; these operations are kept abstract, so that every theorem below
    holds for any implementation of them. *)

Class DbOps (F : Type) : Type := {
  fadd : F -> F -> F;
  fsub : F -> F -> F;
  of_int : Z -> F;
  flt : F -> F -> bool
}.

(** Integer decibel values, used to run the model on concrete inputs. *)
Definition ZdB : DbOps Z :=
  {| fadd := Z.add; fsub := Z.sub; of_int := fun z => z; flt := Z.ltb |}.

(** ** Constants *)

Definition CAL_DELAY_MS : Z := 5.
Definition THRESH_DB : Z := 8.
Definition SLOT_MS : Z := 14.
Definition FRAME_MS : Z := 57.

Definition UP_START_FREQ : Z := 380000000.
Definition UP_END_FREQ : Z := 385000000.
Definition FREQ_STEP : Z := 25000.
Definition UP_NUM_CH : Z := (UP_END_FREQ - UP_START_FREQ) / FREQ_STEP + 1.

Definition STATIC_FREQS : list Z :=
  [ 389540000; 388790000; 389170000;
    380450000; 380425000; 380400000;
    379650000; 380500000; 379625000;
    380375000; 379375000; 380325000;
    380300000; 379300000; 380025000;
    384437500; 384712500 ].
Definition STATIC_CH : Z := Z.of_nat (length STATIC_FREQS).

Definition POPUP_MS : Z := 2000.
Definition LOCK_HOLD_MS : Z := 20000.

Inductive AlertMode := OFF | ONCE | REP8 | REP12 | REP3 | REP6.

Definition mode_to_Z (m : AlertMode) : Z :=
  match m with
  | OFF => 0 | ONCE => 1 | REP8 => 2 | REP12 => 3 | REP3 => 4 | REP6 => 5
  end.

Definition mode_of_Z (z : Z) : AlertMode :=
  match z with
  | 0 => OFF | 1 => ONCE | 2 => REP8 | 3 => REP12 | 4 => REP3 | _ => REP6
  end.

(** Modelled from the spec: the input event types of the firmware's
    [input/input.h], which is not part of the repository.  The callback only
    distinguishes [InputTypePress] and the six keys. *)
Inductive InputType :=
  InputTypePress | InputTypeRelease | InputTypeShort | InputTypeLong
| InputTypeRepeat.

Inductive InputKey :=
  InputKeyUp | InputKeyDown | InputKeyRight | InputKeyLeft | InputKeyOk
| InputKeyBack.

Record InputEvent := { ev_type : InputType; ev_key : InputKey }.

(** Modelled from the spec: the two notification sequences of the firmware's
    [notification_messages.h] that the program plays. *)
Inductive NotificationSequence :=
  sequence_semi_success | sequence_audiovisual_alert.

Inductive RecordName := RecGui | RecNotification.

Inductive ArrayName := ArrStaticFreqs | ArrBaseline.

(** Why a run stops before the code returns: an array index out of range
    (undefined behaviour in C), or the end of what was recorded of the
    environment (samples, polls, dwell steps, turns of the main loop). *)
Inductive halt :=
| OutOfBounds (a : ArrayName) (idx : Z)
| NeedSample
| NeedPoll
| NeedDwell
| NeedIter.

Inductive res (A : Type) :=
| Ret (a : A)
| Halt (h : halt).
Arguments Halt {A} h.

Section Detector.

Context {F : Type} {D : DbOps F}.

(** [furi_ms_to_ticks] belongs to the firmware. *)
Variable furi_ms_to_ticks : Z -> Z.

Definition ticks (ms : Z) : Z := U32.wrap (furi_ms_to_ticks ms).

Definition MIN_RSSI_DBM : F := of_int (-80).
Definition LOCK_RSSI_DROP : F := of_int 5.

(** Calls into the environment, in program order. *)
Inductive Event :=
| EvRecordOpen (r : RecordName)
| EvRecordClose (r : RecordName)
| EvRegistryInit
| EvRegistryGet (idx : Z)
| EvRegistryDeinit
| EvBegin
| EvEnd
| EvSetFrequency (freq : Z)
| EvGetRssi (r : F)
| EvGetTick (t : Z)
| EvDelay (ms : Z)
| EvNotify (s : NotificationSequence)
| EvViewPortAdd
| EvViewPortRemove
| EvViewUpdate.

(** The fields of [AppCtx] that the scan loop and the input callback use.
    The popup text, its deadline and the device handles only serve the
    renderer and the radio plumbing. *)
Record AppCtx := {
  exit : bool;
  baseline : list F;
  locked : bool;
  lock_start : Z;
  mode : AlertMode;
  free_scan : bool;
  debug : bool;
  tdma : bool;
  sens : Z;
  last_freq : Z;
  last_rssi : F;
  last_pk : bool
}.

Definition set_exit (v : bool) (c : AppCtx) : AppCtx :=
  {| exit := v; baseline := baseline c; locked := locked c;
     lock_start := lock_start c; mode := mode c; free_scan := free_scan c;
     debug := debug c; tdma := tdma c; sens := sens c;
     last_freq := last_freq c; last_rssi := last_rssi c;
     last_pk := last_pk c |}.

Definition set_baseline (v : list F) (c : AppCtx) : AppCtx :=
  {| exit := exit c; baseline := v; locked := locked c;
     lock_start := lock_start c; mode := mode c; free_scan := free_scan c;
     debug := debug c; tdma := tdma c; sens := sens c;
     last_freq := last_freq c; last_rssi := last_rssi c;
     last_pk := last_pk c |}.

Definition set_locked (v : bool) (c : AppCtx) : AppCtx :=
  {| exit := exit c; baseline := baseline c; locked := v;
     lock_start := lock_start c; mode := mode c; free_scan := free_scan c;
     debug := debug c; tdma := tdma c; sens := sens c;
     last_freq := last_freq c; last_rssi := last_rssi c;
     last_pk := last_pk c |}.

Definition set_lock_start (v : Z) (c : AppCtx) : AppCtx :=
  {| exit := exit c; baseline := baseline c; locked := locked c;
     lock_start := v; mode := mode c; free_scan := free_scan c;
     debug := debug c; tdma := tdma c; sens := sens c;
     last_freq := last_freq c; last_rssi := last_rssi c;
     last_pk := last_pk c |}.

Definition set_mode (v : AlertMode) (c : AppCtx) : AppCtx :=
  {| exit := exit c; baseline := baseline c; locked := locked c;
     lock_start := lock_start c; mode := v; free_scan := free_scan c;
     debug := debug c; tdma := tdma c; sens := sens c;
     last_freq := last_freq c; last_rssi := last_rssi c;
     last_pk := last_pk c |}.

Definition set_free_scan (v : bool) (c : AppCtx) : AppCtx :=
  {| exit := exit c; baseline := baseline c; locked := locked c;
     lock_start := lock_start c; mode := mode c; free_scan := v;
     debug := debug c; tdma := tdma c; sens := sens c;
     last_freq := last_freq c; last_rssi := last_rssi c;
     last_pk := last_pk c |}.

Definition set_debug (v : bool) (c : AppCtx) : AppCtx :=
  {| exit := exit c; baseline := baseline c; locked := locked c;
     lock_start := lock_start c; mode := mode c; free_scan := free_scan c;
     debug := v; tdma := tdma c; sens := sens c;
     last_freq := last_freq c; last_rssi := last_rssi c;
     last_pk := last_pk c |}.

Definition set_tdma (v : bool) (c : AppCtx) : AppCtx :=
  {| exit := exit c; baseline := baseline c; locked := locked c;
     lock_start := lock_start c; mode := mode c; free_scan := free_scan c;
     debug := debug c; tdma := v; sens := sens c;
     last_freq := last_freq c; last_rssi := last_rssi c;
     last_pk := last_pk c |}.

Definition set_sens (v : Z) (c : AppCtx) : AppCtx :=
  {| exit := exit c; baseline := baseline c; locked := locked c;
     lock_start := lock_start c; mode := mode c; free_scan := free_scan c;
     debug := debug c; tdma := tdma c; sens := v;
     last_freq := last_freq c; last_rssi := last_rssi c;
     last_pk := last_pk c |}.

Definition set_last_freq (v : Z) (c : AppCtx) : AppCtx :=
  {| exit := exit c; baseline := baseline c; locked := locked c;
     lock_start := lock_start c; mode := mode c; free_scan := free_scan c;
     debug := debug c; tdma := tdma c; sens := sens c;
     last_freq := v; last_rssi := last_rssi c;
     last_pk := last_pk c |}.

Definition set_last_rssi (v : F) (c : AppCtx) : AppCtx :=
  {| exit := exit c; baseline := baseline c; locked := locked c;
     lock_start := lock_start c; mode := mode c; free_scan := free_scan c;
     debug := debug c; tdma := tdma c; sens := sens c;
     last_freq := last_freq c; last_rssi := v;
     last_pk := last_pk c |}.

Definition set_last_pk (v : bool) (c : AppCtx) : AppCtx :=
  {| exit := exit c; baseline := baseline c; locked := locked c;
     lock_start := lock_start c; mode := mode c; free_scan := free_scan c;
     debug := debug c; tdma := tdma c; sens := sens c;
     last_freq := last_freq c; last_rssi := last_rssi c;
     last_pk := v |}.

(** ** The monad of the embedding

    A computation reads and writes the context, appends to the event log and
    either returns or halts.  The context and the log survive a halt: they
    describe the run up to that point. *)

Definition M (A : Type) : Type := AppCtx -> res A * AppCtx * list Event.

Definition ret {A} (a : A) : M A := fun c => (Ret a, c, []).

Definition bind {A B} (m : M A) (k : A -> M B) : M B :=
  fun c =>
    match m c with
    | (Ret a, c1, e1) =>
        match k a c1 with
        | (r, c2, e2) => (r, c2, e1 ++ e2)
        end
    | (Halt h, c1, e1) => (Halt h, c1, e1)
    end.

Definition get : M AppCtx := fun c => (Ret c, c, []).
Definition modify (f : AppCtx -> AppCtx) : M unit := fun c => (Ret tt, f c, []).
Definition emit (e : Event) : M unit := fun c => (Ret tt, c, [e]).
Definition stop {A} (h : halt) : M A := fun c => (Halt h, c, []).

Notation "x <- m ;; k" := (bind m (fun x => k))
  (at level 61, m at next level, right associativity).
Notation "m ;; k" := (bind m (fun _ => k))
  (at level 61, right associativity).

(** A checked array read; indices are unsigned in the source. *)
Definition arr_get {A} (a : ArrayName) (l : list A) (i : Z) : M A :=
  if i <? 0 then stop (OutOfBounds a i)
  else match nth_error l (Z.to_nat i) with
       | Some v => ret v
       | None => stop (OutOfBounds a i)
       end.

Fixpoint list_set {A} (l : list A) (n : nat) (v : A) : list A :=
  match l, n with
  | [], _ => []
  | _ :: t, O => v :: t
  | h :: t, S n' => h :: list_set t n' v
  end.

(** ** The input callback

    [popup], [popup_until] and the tick read that sets it are left out. *)

Definition input_cb (e : InputEvent) : M unit :=
  match ev_type e with
  | InputTypePress =>
      match ev_key e with
      | InputKeyUp =>
          modify (fun c => set_mode (mode_of_Z ((mode_to_Z (mode c) + 1) mod 6)) c)
      | InputKeyLeft =>
          modify (fun c => set_free_scan (negb (free_scan c)) c)
      | InputKeyRight =>
          modify (fun c => set_sens (if sens c <? 5 then sens c + 1 else 1) c)
      | InputKeyDown =>
          modify (fun c => set_debug (negb (debug c)) c)
      | InputKeyOk =>
          modify (fun c => set_tdma (negb (tdma c)) c)
      | InputKeyBack =>
          modify (set_exit true)
      end;;
      emit (EvNotify sequence_semi_success)
  | _ => ret tt
  end.

Fixpoint deliver (keys : list InputEvent) : M unit :=
  match keys with
  | [] => ret tt
  | e :: rest => input_cb e;; deliver rest
  end.

(** [furi_delay_ms] once the view port is registered: the input callbacks
    that the GUI thread runs meanwhile are part of the environment's answer. *)
Definition furi_delay_ms (ms : Z) (keys : list InputEvent) : M unit :=
  emit (EvDelay ms);; deliver keys.

Definition furi_get_tick (t : Z) : M Z :=
  emit (EvGetTick (U32.wrap t));; ret (U32.wrap t).

Definition read_rssi (freq : Z) (r : F) (keys : list InputEvent) : M F :=
  emit (EvSetFrequency freq);;
  furi_delay_ms CAL_DELAY_MS keys;;
  emit (EvGetRssi r);;
  ret r.

(** ** persist

    One [Poll] is the environment's answer to one turn of the loop: the tick
    the loop condition reads and the RSSI the body reads if it is entered. *)

Record Poll := { poll_tick : Z; poll_rssi : F }.

Fixpoint persist_loop (end_ : Z) (threshold : F) (polls : list Poll) : M bool :=
  match polls with
  | [] => stop NeedPoll
  | p :: rest =>
      t <- furi_get_tick (poll_tick p);;
      if t <? end_ then
        emit (EvGetRssi (poll_rssi p));;
        if flt (poll_rssi p) threshold then ret false
        else persist_loop end_ threshold rest
      else ret true
  end.

Definition persist (threshold : F) (t0 : Z) (polls : list Poll) : M bool :=
  t <- furi_get_tick t0;;
  persist_loop (U32.add t (ticks SLOT_MS)) threshold polls.

(** ** Thresholds *)

Definition scan_threshold (base : F) (s : Z) : F :=
  fsub (fadd base (of_int THRESH_DB)) (of_int s).

Definition lock_threshold (base : F) (s : Z) : F :=
  fsub (fsub (fadd base (of_int THRESH_DB)) (of_int s)) LOCK_RSSI_DROP.

(** ** Dwell steps

    What the environment supplies for one dwell step. *)

Record Dwell := {
  d_keys_tune : list InputEvent;   (* callbacks during read_rssi's delay *)
  d_rssi : F;                      (* the sample read_rssi returns *)
  d_tick0 : Z;                     (* the tick persist reads on entry *)
  d_polls : list Poll;             (* persist's loop *)
  d_keys_frame : list InputEvent   (* callbacks during the frame delay *)
}.

(** Lines 251-255: the checks of one scanning dwell step. *)
Definition scan_dwell (i : Z) (d : Dwell) : M (Z * F * bool) :=
  c <- get;;
  freq <- (if free_scan c
           then ret (U32.add UP_START_FREQ (U32.mul i FREQ_STEP))
           else arr_get ArrStaticFreqs STATIC_FREQS i);;
  r0 <- read_rssi freq (d_rssi d) (d_keys_tune d);;
  c <- get;;
  base <- (if free_scan c
           then arr_get ArrBaseline (baseline c) i
           else ret MIN_RSSI_DBM);;
  let thr := scan_threshold base (sens c) in
  pk <- (if flt thr r0 then persist thr (d_tick0 d) (d_polls d) else ret false);;
  ret (freq, r0, pk).

(** Lines 250-266: the [for] loop of a pass, from channel index [i]. *)
Fixpoint scan_loop (now cnt i : Z) (ds : list Dwell) : M unit :=
  c <- get;;
  if (i <? cnt) && negb (exit c) then
    match ds with
    | [] => stop NeedDwell
    | d :: rest =>
        x <- scan_dwell i d;;
        let '(freq, r0, pk) := x in
        if pk then
          modify (fun c => set_last_freq freq (set_lock_start now (set_locked true c)));;
          emit (EvNotify sequence_audiovisual_alert)
        else
          modify (fun c => set_last_pk pk (set_last_freq freq (set_last_rssi r0 c)));;
          emit EvViewUpdate;;
          furi_delay_ms FRAME_MS (d_keys_frame d);;
          scan_loop now cnt (i + 1) rest
    end
  else ret tt.

Definition scan_pass (now : Z) (ds : list Dwell) : M unit :=
  c <- get;;
  scan_loop now (if free_scan c then UP_NUM_CH else STATIC_CH) 0 ds.

(** Lines 232-246: one dwell step in the locked state. *)
Definition locked_step (now : Z) (d : Dwell) : M unit :=
  c <- get;;
  let freq := last_freq c in
  r0 <- read_rssi freq (d_rssi d) (d_keys_tune d);;
  c <- get;;
  base <- (if free_scan c
           then arr_get ArrBaseline (baseline c)
                  (U32.div (U32.sub freq UP_START_FREQ) FREQ_STEP)
           else ret MIN_RSSI_DBM);;
  let thr := lock_threshold base (sens c) in
  pk <- (if flt thr r0 then persist thr (d_tick0 d) (d_polls d) else ret false);;
  (if pk then modify (set_lock_start now)
   else
     c <- get;;
     if ticks LOCK_HOLD_MS <? U32.sub now (lock_start c)
     then modify (set_locked false)
     else ret tt);;
  modify (fun c => set_last_pk pk (set_last_freq freq (set_last_rssi r0 c)));;
  emit EvViewUpdate;;
  furi_delay_ms FRAME_MS (d_keys_frame d).

(** ** The main loop

    One [Iter] is one turn of [while(!app.exit)]: the tick read at its head
    and the dwell steps it makes (one when locked, a pass otherwise). *)

Record Iter := { it_now : Z; it_dwells : list Dwell }.

Definition iteration (it : Iter) : M unit :=
  now <- furi_get_tick (it_now it);;
  c <- get;;
  if locked c then
    match it_dwells it with
    | [] => stop NeedDwell
    | d :: _ => locked_step now d
    end
  else scan_pass now (it_dwells it).

Fixpoint main_loop (its : list Iter) : M unit :=
  c <- get;;
  if exit c then ret tt
  else match its with
       | [] => stop NeedIter
       | it :: rest => iteration it;; main_loop rest
       end.

(** The contexts after each completed or halted turn of the main loop. *)
Fixpoint main_states (its : list Iter) (c : AppCtx) : list AppCtx :=
  if exit c then []
  else match its with
       | [] => []
       | it :: rest =>
           match iteration it c with
           | (Ret _, c1, _) => c1 :: main_states rest c1
           | (Halt _, c1, _) => [c1]
           end
       end.

(** ** Start-up, calibration and the application entry point *)

Record Boot := {
  gui_ok : bool;         (* furi_record_open("gui") is not NULL *)
  notif_ok : bool;       (* furi_record_open("notification") is not NULL *)
  device_ok : bool;      (* subghz_device_registry_get_by_index(1) is not NULL *)
  begin_ok : bool;       (* interconnect->begin(...) *)
  cal_rssi : list F      (* the samples calibration reads *)
}.

Definition app_init : AppCtx :=
  {| exit := false;
     baseline := repeat (of_int 0) (Z.to_nat UP_NUM_CH);
     locked := false;
     lock_start := 0;
     mode := ONCE;
     free_scan := false;
     debug := false;
     tdma := false;
     sens := 3;
     last_freq := UP_START_FREQ;
     last_rssi := MIN_RSSI_DBM;
     last_pk := false |}.

Definition emit_delay (ms : Z) : M unit := emit (EvDelay ms).

Fixpoint calibrate (i : Z) (samples : list F) : M unit :=
  if i <? UP_NUM_CH then
    match samples with
    | [] => stop NeedSample
    | r :: rest =>
        v <- read_rssi (U32.add UP_START_FREQ (U32.mul i FREQ_STEP)) r [];;
        c <- get;;
        (if i <? Z.of_nat (length (baseline c))
         then modify (fun c => set_baseline (list_set (baseline c) (Z.to_nat i) v) c)
         else stop (OutOfBounds ArrBaseline i));;
        emit_delay CAL_DELAY_MS;;
        calibrate (i + 1) rest
    end
  else ret tt.

Definition python_detector_app (b : Boot) (its : list Iter) : M Z :=
  emit (EvRecordOpen RecGui);;
  emit (EvRecordOpen RecNotification);;
  if negb (gui_ok b) || negb (notif_ok b) then ret (-1)
  else
    emit EvRegistryInit;;
    emit (EvRegistryGet 1);;
    if negb (device_ok b) then emit EvRegistryDeinit;; ret (-1)
    else
      emit EvBegin;;
      if negb (begin_ok b) then emit EvRegistryDeinit;; ret (-1)
      else
        calibrate 0 (cal_rssi b);;
        emit EvViewPortAdd;;
        main_loop its;;
        emit EvViewPortRemove;;
        emit EvEnd;;
        emit EvRegistryDeinit;;
        emit (EvRecordClose RecGui);;
        emit (EvRecordClose RecNotification);;
        ret 0.

End Detector.

Notation "x <- m ;; k" := (bind m (fun x => k))
  (at level 61, m at next level, right associativity).
Notation "m ;; k" := (bind m (fun _ => k))
  (at level 61, right associativity).

(** ** Observations on runs *)

Section Observations.

Context {F : Type} {D : DbOps F}.

Definition out_of {A} (x : res A * @AppCtx F * list (@Event F)) : res A :=
  fst (fst x).
Definition ctx_of {A} (x : res A * @AppCtx F * list (@Event F)) : @AppCtx F :=
  snd (fst x).
Definition log_of {A} (x : res A * @AppCtx F * list (@Event F)) : list (@Event F) :=
  snd x.

Definition is_alert (e : @Event F) : bool :=
  match e with
  | EvNotify sequence_audiovisual_alert => true
  | _ => false
  end.

(** Number of alert notifications in a log. *)
Definition alerts (evs : list (@Event F)) : nat := length (filter is_alert evs).

(** The frequencies the radio was tuned to, in order. *)
Fixpoint tuned (evs : list (@Event F)) : list Z :=
  match evs with
  | [] => []
  | EvSetFrequency f :: rest => f :: tuned rest
  | _ :: rest => tuned rest
  end.

(** The RSSI samples read, in order. *)
Fixpoint sampled (evs : list (@Event F)) : list F :=
  match evs with
  | [] => []
  | EvGetRssi r :: rest => r :: sampled rest
  | _ :: rest => sampled rest
  end.

(** The tick values read, in order. *)
Fixpoint tick_reads (evs : list (@Event F)) : list Z :=
  match evs with
  | [] => []
  | EvGetTick t :: rest => t :: tick_reads rest
  | _ :: rest => tick_reads rest
  end.

(** Events that neither tune the radio, nor alert, nor belong to start-up
    and shutdown. *)
Definition passive (e : @Event F) : bool :=
  match e with
  | EvGetRssi _ | EvGetTick _ | EvDelay _ | EvViewUpdate
  | EvNotify sequence_semi_success => true
  | _ => false
  end.

(** The calls start-up makes before calibration. *)
Definition startup_event (e : @Event F) : bool :=
  match e with
  | EvRecordOpen _ | EvRegistryInit | EvRegistryGet _ | EvRegistryDeinit
  | EvBegin => true
  | _ => false
  end.

(** A sample is at or above a threshold when it is not below it. *)
Definition at_or_above (threshold s : F) : Prop := flt s threshold = false.

(** The slot of [persist], read off the record of polls: the polls whose tick
    is read before the end of the slot, that is all polls before the first
    one whose tick is not below [end_]. *)
Fixpoint slot_polls (end_ : Z) (polls : list (@Poll F)) : list (@Poll F) :=
  match polls with
  | [] => []
  | p :: rest =>
      if U32.wrap (poll_tick p) <? end_ then p :: slot_polls end_ rest else []
  end.

(** The samples the radio gives during the slot. *)
Definition slot_samples (end_ : Z) (polls : list (@Poll F)) : list F :=
  map poll_rssi (slot_polls end_ polls).

(** Whether the record reaches the end of the slot. *)
Definition slot_ends (end_ : Z) (polls : list (@Poll F)) : bool :=
  existsb (fun p => negb (U32.wrap (poll_tick p) <? end_)) polls.

(** The samples of a list up to and including the first one below the
    threshold. *)
Fixpoint through_first_below (threshold : F) (l : list F) : list F :=
  match l with
  | [] => []
  | s :: rest =>
      if flt s threshold then [s] else s :: through_first_below threshold rest
  end.

(** Scanning-to-Locked transitions in a sequence of [locked] flags. *)
Fixpoint rises (l : list bool) : nat :=
  match l with
  | a :: (b :: _) as t => (if negb a && b then 1 else 0) + rises t
  | _ => 0
  end%nat.

(** A property of every pair of neighbours of a list. *)
Fixpoint chain {A} (R : A -> A -> Prop) (l : list A) : Prop :=
  match l with
  | a :: (b :: _) as t => R a b /\ chain R t
  | _ => True
  end.

(** [m] keeps the property [P] of the context, whether it returns or halts. *)
Definition keeps (P : @AppCtx F -> Prop) {A} (m : @M F A) : Prop :=
  forall c, P c -> P (ctx_of (m c)).

(** [m] logs passive events only. *)
Definition silent {A} (m : @M F A) : Prop :=
  forall c, Forall (fun e => passive e = true) (log_of (m c)).

(** Properties that do not depend on the fields the scan loop writes. *)
Definition lock_stable (P : @AppCtx F -> Prop) : Prop :=
  forall c, P c ->
    (forall v, P (set_locked v c)) /\ (forall v, P (set_lock_start v c))
    /\ (forall v, P (set_last_freq v c)) /\ (forall v, P (set_last_rssi v c))
    /\ (forall v, P (set_last_pk v c)).

(** The fields the input callback leaves alone. *)
Definition lock_view (c : @AppCtx F) : bool * Z * Z * F * bool * list F :=
  (locked c, lock_start c, last_freq c, last_rssi c, last_pk c, baseline c).

Definition sens_ok (c : @AppCtx F) : Prop := 1 <= sens c <= 5.

(** [wp m Post c]: the run of [m] from [c] satisfies [Post], a predicate on
    its outcome, its final context and its log. *)
Definition wp {A} (m : @M F A)
    (Post : res A -> @AppCtx F -> list (@Event F) -> Prop) (c : @AppCtx F) : Prop :=
  let '(r, c', evs) := m c in Post r c' evs.

Variable tk : Z -> Z.

(** What a run of the main loop shows of each turn: the tick read at its head
    and the [last_pk] flag after it. *)
Definition run_obs (its : list (@Iter F)) (c : @AppCtx F) : list (Z * bool) :=
  combine (map (fun it => U32.wrap (it_now it)) its)
          (map last_pk (main_states tk its c)).

Definition confirm_times (obs : list (Z * bool)) : list Z :=
  map fst (filter snd obs).

Definition ends_confirmed (obs : list (Z * bool)) : Prop :=
  obs = [] \/ exists pre t, obs = pre ++ [(t, true)].

(** Confirmations that keep coming less than [hold] ticks apart, starting
    from the stamp [t0], on a clock that does not run backwards. *)
Definition confirmed_within (hold t0 : Z) (obs : list (Z * bool)) : Prop :=
  chain Z.le (t0 :: map fst obs)
  /\ chain (fun a b => b - a < hold) (t0 :: confirm_times obs)
  /\ ends_confirmed obs.

(** The readings of three statements of the specification, each on one run.

    A fresh lock is stamped with the current time: its stamp is the latest
    tick the program has read. *)
Definition stamps_current_time (it : @Iter F) (c : @AppCtx F) : Prop :=
  let '(_, c', evs) := iteration tk it c in
  locked c = false -> locked c' = true ->
  lock_start c' = last (tick_reads evs) 0.

(** A locked dwell step without confirmation, [LOCK_HOLD_MS] or more after
    the last confirmation, unlocks. *)
Definition unlocks_at_hold (now : Z) (d : @Dwell F) (c : @AppCtx F) : Prop :=
  let '(_, c', _) := locked_step tk now d c in
  locked c = true -> last_pk c' = false ->
  ticks tk LOCK_HOLD_MS <= U32.sub now (lock_start c) ->
  locked c' = false.

(** The locked frequency of the specification's lock state.  The context
    has no field of its own for it: [last_freq] is the frequency of the last
    reading, written by every dwell step, and the main loop reads it (line
    232) only under [if(app.locked)].  So the locked frequency is
    [last_freq] while [locked] is set, and there is none otherwise. *)
Definition locked_frequency (c : @AppCtx F) : option Z :=
  if locked c then Some (last_freq c) else None.

(** Two contexts with the same lock state: every field but [last_freq] is
    the same, and so is the locked frequency. *)
Definition lock_equiv (c c' : @AppCtx F) : Prop :=
  set_last_freq 0 c = set_last_freq 0 c'
  /\ locked_frequency c = locked_frequency c'.

(** Two runs with the same outcome and the same log, that end in the same
    lock state. *)
Definition lock_agree {A} (x y : res A * @AppCtx F * list (@Event F)) : Prop :=
  out_of x = out_of y /\ log_of x = log_of y
  /\ lock_equiv (ctx_of x) (ctx_of y).

End Observations.

(** ** Observations on the rest of the program *)

Section Coverage.

Context {F : Type} {D : DbOps F}.

(** The channels of a pass by scan mode: the count of line 249 and the
    frequencies of line 251. *)
Definition sweep_channels : list Z :=
  map (fun k => U32.add UP_START_FREQ (U32.mul (Z.of_nat k) FREQ_STEP))
      (seq 0 (Z.to_nat UP_NUM_CH)).

Definition channel_list (fs : bool) : list Z :=
  if fs then sweep_channels else STATIC_FREQS.

(** A fresh lock is on channel [k] of the list the pass started with, [k]
    being the number of channels the pass tuned before the one it locks
    on. *)
Definition locks_on_pass_channel (tk : Z -> Z) (it : @Iter F) (c : @AppCtx F)
  : Prop :=
  let '(_, c', evs) := iteration tk it c in
  locked c = false -> locked c' = true ->
  nth_error (channel_list (free_scan c)) (length (tuned evs) - 1)
  = Some (last_freq c').

(** The index of line 235. *)
Definition lock_index (freq : Z) : Z :=
  U32.div (U32.sub freq UP_START_FREQ) FREQ_STEP.

(** The frequency of line 251, the baseline of line 253 and the baseline
    of lines 234-236; [None] where the array index is out of range. *)
Definition pass_freq (fs : bool) (i : Z) : option Z :=
  if fs then Some (U32.add UP_START_FREQ (U32.mul i FREQ_STEP))
  else if i <? 0 then None else nth_error STATIC_FREQS (Z.to_nat i).

Definition table_read (l : list F) (i : Z) : option F :=
  if i <? 0 then None else nth_error l (Z.to_nat i).

Definition pass_base (c : @AppCtx F) (i : Z) : option F :=
  if free_scan c then table_read (baseline c) i else Some MIN_RSSI_DBM.

Definition lock_base (c : @AppCtx F) (freq : Z) : option F :=
  if free_scan c then table_read (baseline c) (lock_index freq)
  else Some MIN_RSSI_DBM.

Definition is_press (e : InputEvent) : bool :=
  match ev_type e with InputTypePress => true | _ => false end.

Definition is_left (e : InputEvent) : bool :=
  match ev_type e, ev_key e with
  | InputTypePress, InputKeyLeft => true
  | _, _ => false
  end.

Definition is_back (e : InputEvent) : bool :=
  match ev_type e, ev_key e with
  | InputTypePress, InputKeyBack => true
  | _, _ => false
  end.

Definition dwell_keys (d : @Dwell F) : list InputEvent :=
  d_keys_tune d ++ d_keys_frame d.

(** No press of Left among the callbacks of these dwell steps. *)
Definition no_toggle (ds : list (@Dwell F)) : Prop :=
  Forall (fun d => Forall (fun e => is_left e = false) (dwell_keys d)) ds.

Definition no_toggle_run (its : list (@Iter F)) : Prop :=
  Forall (fun it => no_toggle (it_dwells it)) its.

(** The baseline has its 201 entries and, in sweep mode, a lock sits on a
    frequency whose baseline index is in range. *)
Definition safe (c : @AppCtx F) : Prop :=
  length (baseline c) = Z.to_nat UP_NUM_CH
  /\ (free_scan c = true -> locked c = true ->
      lock_index (last_freq c) < UP_NUM_CH).

Definition is_oob (h : halt) : bool :=
  match h with OutOfBounds _ _ => true | _ => false end.

Definition faulted {A} (r : res A) : bool :=
  match r with Halt h => is_oob h | Ret _ => false end.

(** Line 160 of [render]: the status the main view shows. *)
Definition render_status (c : @AppCtx F) : String.string :=
  if last_pk c then "Locked"%string else "Scanning"%string.

(** Line 153 of [render]: the lock flag of the debug view. *)
Definition render_lock_flag (c : @AppCtx F) : String.string :=
  if locked c then "L:Y"%string else "L:N"%string.

(** The status shown agrees with the lock: never "Locked" while scanning. *)
Definition status_sound (c : @AppCtx F) : Prop :=
  render_status c = "Locked"%string -> render_lock_flag c = "L:Y"%string.

(** What shutdown logs, lines 269-274. *)
Definition teardown : list (@Event F) :=
  [EvViewPortRemove; EvEnd; EvRegistryDeinit; EvRecordClose RecGui;
   EvRecordClose RecNotification].

(** What a successful start-up logs before calibration, lines 197-212. *)
Definition bring_up : list (@Event F) :=
  [EvRecordOpen RecGui; EvRecordOpen RecNotification; EvRegistryInit;
   EvRegistryGet 1; EvBegin].

Definition boots (b : @Boot F) : bool :=
  gui_ok b && notif_ok b && device_ok b && begin_ok b.

(** The notifications a log holds, in order. *)
Fixpoint notified (evs : list (@Event F)) : list NotificationSequence :=
  match evs with
  | [] => []
  | EvNotify n :: rest => n :: notified rest
  | _ :: rest => notified rest
  end.

(** The five settings the keys Up, Left, Right, Down and Ok change. *)
Definition settings (c : @AppCtx F) : AlertMode * bool * Z * bool * bool :=
  (mode c, free_scan c, sens c, debug c, tdma c).

(** The fields the main loop reads: all but the alert mode, the debug flag
    and the TDMA flag, which only the input callback and the renderer
    use. *)
Definition detector_view (c : @AppCtx F)
  : bool * list F * bool * Z * bool * Z * Z * F * bool :=
  (exit c, baseline c, locked c, lock_start c, free_scan c, sens c,
   last_freq c, last_rssi c, last_pk c).

(** Two runs agree: same outcome, same log, contexts with the same view. *)
Definition agree {A} (x y : res A * @AppCtx F * list (@Event F)) : Prop :=
  out_of x = out_of y /\ log_of x = log_of y
  /\ detector_view (ctx_of x) = detector_view (ctx_of y).

(** Line 147: the two numbers of the debug view's frequency line,
    [f/1000000] and [(f%1000000)/1000], printed as [%lu.%03lu MHz]. *)
Definition render_freq (f : Z) : Z * Z :=
  (U32.div f 1000000, U32.div (f mod 1000000) 1000).


End Coverage.

(** ** Concrete inputs, in integer decibels and with one tick per millisecond *)

Module Ex.

Definition tk (ms : Z) : Z := ms.

Definition press (k : InputKey) : InputEvent :=
  {| ev_type := InputTypePress; ev_key := k |}.

Definition c0 : @AppCtx Z := @app_init Z ZdB.

Definition poll (t r : Z) : @Poll Z := {| poll_tick := t; poll_rssi := r |}.

(** A dwell step on a silent channel. *)
Definition quiet : @Dwell Z :=
  {| d_keys_tune := []; d_rssi := -95; d_tick0 := 0; d_polls := [];
     d_keys_frame := [] |}.

(** A silent dwell step during whose frame delay the Left key is pressed. *)
Definition quiet_left : @Dwell Z :=
  {| d_keys_tune := []; d_rssi := -95; d_tick0 := 0; d_polls := [];
     d_keys_frame := [press InputKeyLeft] |}.

(** A dwell step during whose tuning delay the Left key is pressed. *)
Definition left_quiet : @Dwell Z :=
  {| d_keys_tune := [press InputKeyLeft]; d_rssi := -95; d_tick0 := 0;
     d_polls := []; d_keys_frame := [] |}.

(** A carrier at -70 dBm that holds for the slot entered at tick [t]. *)
Definition carrier (t : Z) : @Dwell Z :=
  {| d_keys_tune := []; d_rssi := -70; d_tick0 := t;
     d_polls := [poll (t + 1) (-70); poll (t + 8) (-71); poll (t + 14) (-99)];
     d_keys_frame := [] |}.

(** A spike: above the threshold at first, gone at the second poll. *)
Definition spike (t : Z) : @Dwell Z :=
  {| d_keys_tune := []; d_rssi := -70; d_tick0 := t;
     d_polls := [poll (t + 1) (-70); poll (t + 2) (-99); poll (t + 3) (-70);
                 poll (t + 14) (-70)];
     d_keys_frame := [] |}.

Definition iter (t : Z) (ds : list (@Dwell Z)) : @Iter Z :=
  {| it_now := t; it_dwells := ds |}.

(** Locked on the first fixed channel since tick 0, fixed mode. *)
Definition c_locked : @AppCtx Z :=
  set_last_freq 389540000 (set_locked true c0).

Definition boot_ok : @Boot Z :=
  {| gui_ok := true; notif_ok := true; device_ok := true; begin_ok := true;
     cal_rssi := repeat (-90) 201 |}.

Definition boot_no_radio : @Boot Z :=
  {| gui_ok := true; notif_ok := true; device_ok := false; begin_ok := true;
     cal_rssi := repeat (-90) 201 |}.

(** A silent dwell step during whose tuning delay the Back key is pressed. *)
Definition back_quiet : @Dwell Z :=
  {| d_keys_tune := [press InputKeyBack]; d_rssi := -95; d_tick0 := 0;
     d_polls := []; d_keys_frame := [] |}.

(** Locked, with the last confirmation 296 ticks before the tick counter
    wraps. *)
Definition c_wrap : @AppCtx Z := set_lock_start 4294967000 c_locked.

(** A carrier at +20 dBm that holds for the slot entered at tick [t]: above
    the threshold also over the uncalibrated baseline of 0. *)
Definition loud (t : Z) : @Dwell Z :=
  {| d_keys_tune := []; d_rssi := 20; d_tick0 := t;
     d_polls := [poll (t + 1) 20; poll (t + 14) 20];
     d_keys_frame := [] |}.

(** One pass in fixed mode that takes a lock on the second channel. *)
Definition lock_run : list (@Iter Z) :=
  [iter 1000 [quiet; carrier 1130; quiet]].


End Ex.

(** * Properties *)

Section Properties.

Context {F : Type} {D : DbOps F}.
Variable tk : Z -> Z.

Local Abbreviation Ctx := (@AppCtx F).
Local Abbreviation Ev := (@Event F).
Local Abbreviation Mon := (@M F).

(** ** Logs *)

Lemma alerts_app (a b : list Ev) : alerts (a ++ b) = (alerts a + alerts b)%nat.
Proof. unfold alerts. now rewrite filter_app, length_app. Qed.

Lemma tuned_app (a b : list Ev) : tuned (a ++ b) = tuned a ++ tuned b.
Proof.
  induction a as [|e a IH]; [reflexivity|].
  destruct e; simpl; now rewrite ?IH.
Qed.

Lemma sampled_app (a b : list Ev) : sampled (a ++ b) = sampled a ++ sampled b.
Proof.
  induction a as [|e a IH]; [reflexivity|].
  destruct e; simpl; now rewrite ?IH.
Qed.

Lemma passive_alerts (evs : list Ev) :
  Forall (fun e => passive e = true) evs -> alerts evs = 0%nat.
Proof.
  induction 1 as [|e evs He _ IH]; [reflexivity|].
  unfold alerts in *. simpl.
  destruct e; try discriminate; simpl; try exact IH.
  destruct s; [exact IH | discriminate].
Qed.

Lemma passive_tuned (evs : list Ev) :
  Forall (fun e => passive e = true) evs -> tuned evs = [].
Proof.
  induction 1 as [|e evs He _ IH]; [reflexivity|].
  destruct e; try discriminate; simpl; exact IH.
Qed.

(** ** The two frame disciplines of the monad *)

Lemma keeps_ret P A (a : A) : keeps P (ret (F:=F) a).
Proof. intros c H. exact H. Qed.

Lemma keeps_get P : keeps P (get (F:=F)).
Proof. intros c H. exact H. Qed.

Lemma keeps_emit P (e : Ev) : keeps P (emit e).
Proof. intros c H. exact H. Qed.

Lemma keeps_stop P A h : keeps P (stop (F:=F) (A:=A) h).
Proof. intros c H. exact H. Qed.

Lemma keeps_modify (P : Ctx -> Prop) f :
  (forall c, P c -> P (f c)) -> keeps P (modify f).
Proof. intros Hf c H. apply Hf, H. Qed.

Lemma keeps_bind P A B (m : Mon A) (k : A -> Mon B) :
  keeps P m -> (forall a, keeps P (k a)) -> keeps P (bind m k).
Proof.
  intros Hm Hk c H. unfold bind, ctx_of.
  specialize (Hm c H). unfold ctx_of in Hm.
  destruct (m c) as [[[a|h] c1] e1]; simpl in *; [|exact Hm].
  specialize (Hk a c1 Hm). unfold ctx_of in Hk.
  destruct (k a c1) as [[r2 c2] e2]; exact Hk.
Qed.

Lemma silent_ret A (a : A) : silent (ret (F:=F) a).
Proof. intros c. constructor. Qed.

Lemma silent_get : silent (get (F:=F)).
Proof. intros c. constructor. Qed.

Lemma silent_stop A h : silent (stop (F:=F) (A:=A) h).
Proof. intros c. constructor. Qed.

Lemma silent_modify f : silent (modify (F:=F) f).
Proof. intros c. constructor. Qed.

Lemma silent_emit (e : Ev) : passive e = true -> silent (emit e).
Proof. intros H c. repeat constructor. exact H. Qed.

Lemma silent_bind A B (m : Mon A) (k : A -> Mon B) :
  silent m -> (forall a, silent (k a)) -> silent (bind m k).
Proof.
  intros Hm Hk c. unfold bind, log_of.
  specialize (Hm c). unfold log_of in Hm.
  destruct (m c) as [[[a|h] c1] e1]; simpl in *; [|exact Hm].
  specialize (Hk a c1). unfold log_of in Hk.
  destruct (k a c1) as [[r2 c2] e2]; simpl in *.
  apply Forall_app; split; assumption.
Qed.

Ltac frame :=
  repeat first
    [ apply keeps_ret | apply keeps_get | apply keeps_emit | apply keeps_stop
    | apply silent_ret | apply silent_get | apply silent_stop | apply silent_modify
    | (apply silent_emit; reflexivity)
    | (apply keeps_bind; [|intros])
    | (apply silent_bind; [|intros]) ].

(** ** The input callback *)

Lemma silent_input_cb e : silent (input_cb (F:=F) e).
Proof. destruct e as [[] []]; cbn [input_cb ev_type ev_key]; frame. Qed.

Lemma silent_deliver keys : silent (deliver (F:=F) keys).
Proof.
  induction keys as [|e keys IH]; cbn [deliver]; frame; auto using silent_input_cb.
Qed.

Lemma keeps_deliver P keys :
  (forall e, keeps P (input_cb (F:=F) e)) -> keeps P (deliver keys).
Proof.
  intros H. induction keys as [|e keys IH]; cbn [deliver]; frame; auto.
Qed.

Lemma keeps_view_input_cb v e : keeps (fun c => lock_view c = v) (input_cb (F:=F) e).
Proof.
  destruct e as [[] []]; cbn [input_cb ev_type ev_key]; frame;
    apply keeps_modify; intros c H; exact H.
Qed.

Lemma keeps_sens_input_cb e : keeps sens_ok (input_cb (F:=F) e).
Proof.
  destruct e as [[] []]; cbn [input_cb ev_type ev_key]; frame;
    apply keeps_modify; intros c H; unfold sens_ok in *; cbn; try exact H.
  destruct (sens c <? 5) eqn:E; [apply Z.ltb_lt in E|]; lia.
Qed.

(** ** Tuning and the persistence slot *)

Lemma furi_delay_ms_run ms keys (c : Ctx) :
  exists c' evs,
    furi_delay_ms ms keys c = (Ret tt, c', evs)
    /\ c' = ctx_of (deliver keys c)
    /\ Forall (fun e => passive e = true) evs.
Proof.
  unfold furi_delay_ms, bind, emit.
  assert (Hr : forall ks (c1 : Ctx), out_of (deliver ks c1) = Ret tt).
  { induction ks as [|e ks IH]; intros c1; [reflexivity|].
    cbn [deliver]. unfold bind, out_of.
    assert (He : out_of (input_cb e c1) = Ret tt)
      by (destruct e as [[] []]; reflexivity).
    unfold out_of in He.
    destruct (input_cb e c1) as [[r1 c2] e1]; simpl in He; subst r1.
    specialize (IH c2). unfold out_of in IH.
    destruct (deliver ks c2) as [[r2 c3] e2]; simpl in *; now subst. }
  pose proof (Hr keys c) as H1. pose proof (silent_deliver keys c) as H2.
  unfold out_of, log_of, ctx_of in *.
  destruct (deliver keys c) as [[r c'] evs]; simpl in *; subst r.
  exists c', (EvDelay ms :: evs). repeat split.
  constructor; [reflexivity | exact H2].
Qed.

Lemma read_rssi_run freq r keys (c : Ctx) :
  exists c' evs,
    read_rssi freq r keys c = (Ret r, c', EvSetFrequency freq :: evs)
    /\ c' = ctx_of (deliver keys c)
    /\ Forall (fun e => passive e = true) evs.
Proof.
  destruct (furi_delay_ms_run CAL_DELAY_MS keys c) as (c' & evs & E & Hc & Hq).
  exists c', (evs ++ [EvGetRssi r]).
  unfold read_rssi, bind, emit, ret. rewrite E. simpl.
  repeat split; [exact Hc|].
  apply Forall_app; split; [exact Hq | repeat constructor].
Qed.

Lemma persist_loop_run end_ thr polls (c : Ctx) :
  exists r evs,
    persist_loop end_ thr polls c = (r, c, evs)
    /\ Forall (fun e => passive e = true) evs
    /\ match r with
       | Ret true => Forall (at_or_above thr) (sampled evs)
       | Ret false =>
           exists pre s, evs = pre ++ [EvGetRssi s] /\ flt s thr = true
                         /\ Forall (at_or_above thr) (sampled pre)
       | Halt h =>
           h = NeedPoll
           /\ Forall (fun p => U32.wrap (poll_tick p) < end_
                               /\ at_or_above thr (poll_rssi p)) polls
       end.
Proof.
  induction polls as [|p polls IH].
  - exists (Halt NeedPoll), []. repeat split; constructor.
  - cbn [persist_loop]. unfold furi_get_tick, bind, emit, ret. simpl.
    destruct (U32.wrap (poll_tick p) <? end_) eqn:Et.
    + simpl. destruct (flt (poll_rssi p) thr) eqn:Es.
      * exists (Ret false), [EvGetTick (U32.wrap (poll_tick p)); EvGetRssi (poll_rssi p)].
        repeat split; [repeat constructor|].
        exists [EvGetTick (U32.wrap (poll_tick p))], (poll_rssi p).
        repeat split; [exact Es | constructor].
      * destruct IH as (r & evs & E & Hq & Hr). rewrite E.
        exists r, (EvGetTick (U32.wrap (poll_tick p)) :: EvGetRssi (poll_rssi p) :: evs).
        repeat split; [repeat constructor; exact Hq|].
        destruct r as [[|]|h].
        -- simpl. constructor; [exact Es | exact Hr].
        -- destruct Hr as (pre & s & -> & Hs & Hpre).
           exists (EvGetTick (U32.wrap (poll_tick p)) :: EvGetRssi (poll_rssi p) :: pre), s.
           repeat split; [exact Hs|]. simpl. constructor; [exact Es | exact Hpre].
        -- destruct Hr as [-> Hall]. split; [reflexivity|].
           constructor; [|exact Hall]. split; [now apply Z.ltb_lt | exact Es].
    + exists (Ret true), [EvGetTick (U32.wrap (poll_tick p))].
      repeat split; [repeat constructor | constructor].
Qed.

(** ** C4 *)

Lemma persist_loop_slot end_ thr polls (c : Ctx) :
  sampled (log_of (persist_loop end_ thr polls c))
  = through_first_below thr (slot_samples end_ polls)
  /\ out_of (persist_loop end_ thr polls c)
     = if forallb (fun s => negb (flt s thr)) (slot_samples end_ polls)
       then if slot_ends end_ polls then Ret true else Halt NeedPoll
       else Ret false.
Proof.
  unfold slot_samples, slot_ends.
  induction polls as [|p polls IH]; [split; reflexivity|].
  cbn [persist_loop slot_polls existsb]. unfold furi_get_tick, bind, emit, ret.
  cbn [app].
  destruct (U32.wrap (poll_tick p) <? end_); [|split; reflexivity].
  cbn [map forallb through_first_below negb orb].
  destruct (flt (poll_rssi p) thr); [split; reflexivity|].
  cbn [negb andb]. unfold out_of, log_of in *.
  destruct (persist_loop end_ thr polls c) as [[r c'] e]. cbn [fst snd app] in *.
  destruct IH as [IH1 IH2]. cbn [sampled]. split; [now rewrite IH1 | exact IH2].
Qed.

Lemma above_all (thr : F) l :
  forallb (fun s => negb (flt s thr)) l = true <-> Forall (at_or_above thr) l.
Proof.
  rewrite forallb_forall, Forall_forall. unfold at_or_above.
  split; intros H s Hs; specialize (H s Hs); destruct (flt s thr);
    try reflexivity; discriminate H.
Qed.

Lemma below_some (thr : F) l :
  forallb (fun s => negb (flt s thr)) l = false
  <-> Exists (fun s => flt s thr = true) l.
Proof.
  induction l as [|s l IH]; cbn [forallb].
  - split; [discriminate | intros H; inversion H].
  - destruct (flt s thr) eqn:Es; cbn [negb andb].
    + split; [intros _; left; exact Es | reflexivity].
    + rewrite IH. split; [intros H; right; exact H|].
      intros H. inversion H as [? ? Hs|? ? Hl]; subst; [congruence | exact Hl].
Qed.

Lemma through_all (thr : F) l :
  forallb (fun s => negb (flt s thr)) l = true -> through_first_below thr l = l.
Proof.
  induction l as [|s l IH]; [reflexivity|]. cbn [forallb through_first_below].
  destruct (flt s thr); [discriminate|]. intros H. now rewrite (IH H).
Qed.

(** C4: [persist] and the samples of its slot.  The slot ends at the tick
    read on entry plus [ticks(SLOT_MS)]; its samples are those of the polls
    read before the first tick that is not below that end.  [persist] leaves
    the context alone and reads the samples of the slot in order, up to and
    including the first one below the threshold and none after it.  It
    answers [false] exactly when a sample of the slot is below the
    threshold; on a record that reaches the end of the slot it answers
    [true] exactly when every sample of the slot is at or above the
    threshold; it halts, asking for more polls, only on a record that
    neither reaches the end of the slot nor drops below the threshold.
    In terms of the log alone: it answers [true] exactly when every sample
    it read is at or above the threshold, and when it answers [false] the
    sample below the threshold is the last thing it did. *)
Theorem persist_every_sample (thr : F) (t0 : Z) (polls : list Poll) (c : Ctx) :
  let end_ := U32.add (U32.wrap t0) (ticks tk SLOT_MS) in
  let slot := slot_samples end_ polls in
  let '(r, c', evs) := persist tk thr t0 polls c in
  c' = c
  /\ sampled evs = through_first_below thr slot
  /\ (r = Ret false <-> Exists (fun s => flt s thr = true) slot)
  /\ (slot_ends end_ polls = true ->
      (r = Ret true <-> Forall (at_or_above thr) slot))
  /\ (r = Ret true -> slot_ends end_ polls = true /\ sampled evs = slot)
  /\ match r with
     | Ret b =>
         (b = true <-> Forall (at_or_above thr) (sampled evs))
         /\ (b = false ->
             exists pre s, evs = pre ++ [EvGetRssi s] /\ flt s thr = true
                           /\ Forall (at_or_above thr) (sampled pre))
     | Halt h =>
         h = NeedPoll
         /\ Forall (fun p => U32.wrap (poll_tick p)
                               < U32.add (U32.wrap t0) (ticks tk SLOT_MS)
                             /\ at_or_above thr (poll_rssi p)) polls
     end.
Proof.
  intros end_ slot.
  pose proof (above_all thr slot) as Hall.
  pose proof (below_some thr slot) as Hex.
  pose proof (through_all thr slot) as Hthrough.
  destruct (persist_loop_slot end_ thr polls c) as [Hs Ho]. fold slot in Hs, Ho.
  unfold persist, furi_get_tick, bind, emit, ret. simpl.
  destruct (persist_loop_run (U32.add (U32.wrap t0) (ticks tk SLOT_MS)) thr polls c)
    as (r & evs & E & _ & Hr).
  fold end_ in E, Hr |- *. rewrite E in Hs, Ho |- *.
  cbn [out_of log_of fst snd] in Hs, Ho.
  split; [reflexivity|]. split; [exact Hs|].
  split.
  { rewrite <- Hex. rewrite Ho.
    destruct (forallb (fun s => negb (flt s thr)) slot);
      [destruct (slot_ends end_ polls)|]; split; intros H;
      try reflexivity; discriminate H. }
  split.
  { intros He. rewrite <- Hall. rewrite Ho, He.
    destruct (forallb (fun s => negb (flt s thr)) slot); split; intros H;
      try reflexivity; discriminate H. }
  split.
  { rewrite Ho. intros H.
    destruct (forallb (fun s => negb (flt s thr)) slot) eqn:Ef;
      [|discriminate H].
    destruct (slot_ends end_ polls); [|discriminate H].
    split; [reflexivity|]. change (sampled evs = slot).
    rewrite Hs. apply Hthrough. reflexivity. }
  destruct r as [[|]|h]; simpl.
  - split; [tauto | discriminate].
  - destruct Hr as (pre & s & -> & Hs' & Hpre). split.
    + split; [discriminate|]. intros Hall'.
      rewrite sampled_app in Hall'. apply Forall_app in Hall' as [_ Hl].
      inversion Hl as [|? ? Hs'' _]; subst. unfold at_or_above in Hs''. congruence.
    + intros _. exists (EvGetTick (U32.wrap t0) :: pre), s. repeat split; assumption.
  - exact Hr.
Qed.

Lemma persist_run thr t0 polls (c : Ctx) :
  exists r evs,
    persist tk thr t0 polls c = (r, c, evs)
    /\ Forall (fun e => passive e = true) evs
    /\ r <> Halt NeedDwell.
Proof.
  unfold persist, furi_get_tick, bind, emit, ret. simpl.
  destruct (persist_loop_run (U32.add (U32.wrap t0) (ticks tk SLOT_MS)) thr polls c)
    as (r & evs & E & Hq & Hr).
  rewrite E. do 2 eexists. split; [reflexivity|]. split.
  - constructor; [reflexivity | exact Hq].
  - destruct r as [b|h]; [discriminate|]. destruct Hr as [-> _]. discriminate.
Qed.

(** ** Weakest preconditions *)

Lemma wp_ret A (a : A) Post (c : Ctx) : Post (Ret a) c [] -> wp (ret a) Post c.
Proof. exact (fun H => H). Qed.

Lemma wp_get Post (c : Ctx) : Post (Ret c) c [] -> wp get Post c.
Proof. exact (fun H => H). Qed.

Lemma wp_modify f Post (c : Ctx) : Post (Ret tt) (f c) [] -> wp (modify f) Post c.
Proof. exact (fun H => H). Qed.

Lemma wp_emit (e : Ev) Post (c : Ctx) : Post (Ret tt) c [e] -> wp (emit e) Post c.
Proof. exact (fun H => H). Qed.

Lemma wp_stop A h Post (c : Ctx) :
  Post (Halt h) c [] -> wp (stop (A:=A) h) Post c.
Proof. exact (fun H => H). Qed.

Lemma wp_bind A B (m : Mon A) (k : A -> Mon B) Post (c : Ctx) :
  wp m (fun r c1 e1 =>
          match r with
          | Ret a => wp (k a) (fun r2 c2 e2 => Post r2 c2 (e1 ++ e2)) c1
          | Halt h => Post (Halt h) c1 e1
          end) c ->
  wp (bind m k) Post c.
Proof.
  unfold wp, bind. destruct (m c) as [[[a|h] c1] e1]; [|exact (fun H => H)].
  destruct (k a c1) as [[r2 c2] e2]. exact (fun H => H).
Qed.

Lemma wp_mono A (m : Mon A) (Q Post : res A -> Ctx -> list Ev -> Prop) (c : Ctx) :
  wp m Q c -> (forall r c' e, Q r c' e -> Post r c' e) -> wp m Post c.
Proof.
  unfold wp. destruct (m c) as [[r c'] e]. intros H HQ. apply HQ, H.
Qed.

Lemma wp_run A (m : Mon A) Post (c : Ctx) :
  wp m Post c <-> Post (out_of (m c)) (ctx_of (m c)) (log_of (m c)).
Proof. unfold wp, out_of, ctx_of, log_of. destruct (m c) as [[r c'] e]. tauto. Qed.

Ltac wp_step :=
  lazymatch goal with
  | |- wp (ret _) _ _ => apply wp_ret
  | |- wp get _ _ => apply wp_get
  | |- wp (modify _) _ _ => apply wp_modify
  | |- wp (emit _) _ _ => apply wp_emit
  | |- wp (stop _) _ _ => apply wp_stop
  | |- wp (bind _ _) _ _ => apply wp_bind
  end.

Ltac wp_go := cbv beta iota; repeat (wp_step; cbv beta iota).

Lemma wp_furi_delay_ms ms keys (c : Ctx) :
  wp (furi_delay_ms ms keys)
     (fun r c' evs =>
        r = Ret tt /\ c' = ctx_of (deliver keys c)
        /\ Forall (fun e => passive e = true) evs) c.
Proof.
  destruct (furi_delay_ms_run ms keys c) as (c' & evs & E & Hc & Hq).
  unfold wp. rewrite E. auto.
Qed.

Lemma wp_read_rssi freq r0 keys (c : Ctx) :
  wp (read_rssi freq r0 keys)
     (fun r c' evs =>
        r = Ret r0 /\ c' = ctx_of (deliver keys c)
        /\ exists post, evs = EvSetFrequency freq :: post
                        /\ Forall (fun e => passive e = true) post) c.
Proof.
  destruct (read_rssi_run freq r0 keys c) as (c' & evs & E & Hc & Hq).
  unfold wp. rewrite E. eauto 10.
Qed.

Lemma wp_persist thr t0 polls (c : Ctx) :
  wp (persist tk thr t0 polls)
     (fun r c' evs => c' = c /\ Forall (fun e => passive e = true) evs
                      /\ r <> Halt NeedDwell) c.
Proof.
  destruct (persist_run thr t0 polls c) as (r & evs & E & Hq & Hr).
  unfold wp. rewrite E. auto.
Qed.

Lemma wp_arr_get A a (l : list A) i Post (c : Ctx) :
  (forall v, 0 <= i < Z.of_nat (length l) ->
             nth_error l (Z.to_nat i) = Some v -> Post (Ret v) c []) ->
  (~ 0 <= i < Z.of_nat (length l) -> Post (Halt (OutOfBounds a i)) c []) ->
  wp (arr_get a l i) Post c.
Proof.
  intros Hin Hout. unfold arr_get.
  destruct (i <? 0) eqn:E.
  - apply wp_stop, Hout. apply Z.ltb_lt in E. lia.
  - apply Z.ltb_ge in E.
    destruct (nth_error l (Z.to_nat i)) as [v|] eqn:En.
    + apply wp_ret, Hin; [|reflexivity].
      assert (Z.to_nat i < length l)%nat by (apply nth_error_Some; congruence). lia.
    + apply wp_stop, Hout. apply nth_error_None in En. lia.
Qed.

(** ** Dwell steps *)

Lemma deliver_fields keys (c : Ctx) :
  let c' := ctx_of (deliver keys c) in
  locked c' = locked c /\ lock_start c' = lock_start c
  /\ last_freq c' = last_freq c /\ last_rssi c' = last_rssi c
  /\ last_pk c' = last_pk c /\ baseline c' = baseline c.
Proof.
  assert (H : lock_view (ctx_of (deliver keys c)) = lock_view c).
  { apply (keeps_deliver (P := fun x => lock_view x = lock_view c)).
    - intros e. apply keeps_view_input_cb.
    - reflexivity. }
  unfold lock_view in H. injection H as H1 H2 H3 H4 H5 H6. cbv zeta. auto 10.
Qed.


Lemma wp_scan_dwell i d (c : Ctx) :
  wp (scan_dwell tk i d)
     (fun r c' evs =>
        r <> Halt NeedDwell
        /\ ((evs = [] /\ c' = c /\ exists h, r = Halt h)
            \/ exists f post,
                 evs = EvSetFrequency f :: post
                 /\ Forall (fun e => passive e = true) post
                 /\ c' = ctx_of (deliver (d_keys_tune d) c)
                 /\ match r with
                    | Ret (f', r0, _) => f' = f /\ r0 = d_rssi d
                    | Halt _ => True
                    end)) c.
Proof.
  assert (Hgo : forall freq,
    wp (r0 <- read_rssi freq (d_rssi d) (d_keys_tune d);;
        c <- get;;
        base <- (if free_scan c
                 then arr_get ArrBaseline (baseline c) i
                 else ret MIN_RSSI_DBM);;
        let thr := scan_threshold base (sens c) in
        pk <- (if flt thr r0 then persist tk thr (d_tick0 d) (d_polls d)
               else ret false);;
        ret (freq, r0, pk))
      (fun r c' evs =>
         r <> Halt NeedDwell
         /\ exists post,
           evs = EvSetFrequency freq :: post
           /\ Forall (fun e => passive e = true) post
           /\ c' = ctx_of (deliver (d_keys_tune d) c)
           /\ match r with
              | Ret (f', r0, _) => f' = freq /\ r0 = d_rssi d
              | Halt _ => True
              end) c).
  { intros freq. apply wp_bind.
    eapply wp_mono; [apply wp_read_rssi|]. cbv beta.
    intros r c1 e1 (-> & Hc1 & post & -> & Hq).
    assert (Hbase : forall base,
      wp (let thr := scan_threshold base (sens c1) in
          pk <- (if flt thr (d_rssi d)
                 then persist tk thr (d_tick0 d) (d_polls d) else ret false);;
          ret (freq, d_rssi d, pk))
        (fun r c' evs =>
           c' = c1 /\ Forall (fun e => passive e = true) evs
           /\ r <> Halt NeedDwell
           /\ match r with
              | Ret (f', r0, _) => f' = freq /\ r0 = d_rssi d
              | Halt _ => True
              end) c1).
    { intros base. cbv zeta. apply wp_bind.
      destruct (flt (scan_threshold base (sens c1)) (d_rssi d)).
      - eapply wp_mono; [apply wp_persist|]. cbv beta.
        intros r c2 e2 (-> & Hq2 & Hne). destruct r as [b|h].
        + apply wp_ret. rewrite app_nil_r.
          split; [reflexivity|]. split; [exact Hq2|]. split; [discriminate|].
          split; reflexivity.
        + split; [reflexivity|]. split; [exact Hq2|]. split; [|exact I].
          intros E. apply Hne. injection E as ->. reflexivity.
      - wp_go. split; [reflexivity|]. split; [constructor|].
        split; [discriminate|]. split; reflexivity. }
    wp_go. destruct (free_scan c1).
    - apply wp_arr_get.
      + intros base _ _. eapply wp_mono; [apply Hbase|]. cbv beta.
        intros r c2 e2 (-> & Hq2 & Hne & Hr). rewrite app_nil_l.
        split; [exact Hne|].
        exists (post ++ e2). repeat split; try assumption.
        apply Forall_app; split; assumption.
      + intros _. split; [discriminate|].
        exists post. rewrite app_nil_r. auto.
    - wp_go. eapply wp_mono; [apply Hbase|]. cbv beta.
      intros r c2 e2 (-> & Hq2 & Hne & Hr). rewrite app_nil_l.
      split; [exact Hne|].
      exists (post ++ e2). repeat split; try assumption.
      apply Forall_app; split; assumption. }
  unfold scan_dwell. wp_go. destruct (free_scan c).
  - apply wp_ret. eapply wp_mono; [apply Hgo|]. cbv beta.
    intros r c' evs (Hne & post & -> & H). split; [exact Hne|].
    right. do 2 eexists. split; [reflexivity | exact H].
  - apply wp_arr_get.
    + intros freq _ _. eapply wp_mono; [apply Hgo|]. cbv beta.
      intros r c' evs (Hne & post & -> & H). split; [exact Hne|].
      right. do 2 eexists. split; [reflexivity | exact H].
    + intros _. split; [discriminate|]. left. eauto.
Qed.

Lemma alerts_tune_passive f (post : list Ev) :
  Forall (fun e => passive e = true) post ->
  alerts (EvSetFrequency f :: post) = 0%nat
  /\ tuned (EvSetFrequency f :: post) = [f].
Proof.
  intros H. split.
  - apply (passive_alerts H).
  - simpl. now rewrite (passive_tuned H).
Qed.

(** A pass either ends without touching the lock, or its last act is the
    alert of a fresh lock on the frequency tuned last. *)
Lemma wp_scan_loop ds : forall now cnt i (c : Ctx),
  wp (scan_loop tk now cnt i ds)
     (fun r c' evs =>
        exists body,
          alerts body = 0%nat
          /\ ((evs = body /\ locked c' = locked c
               /\ lock_start c' = lock_start c)
              \/ (evs = body ++ [EvNotify sequence_audiovisual_alert]
                  /\ r = Ret tt /\ locked c' = true /\ lock_start c' = now
                  /\ exists pre, tuned body = pre ++ [last_freq c']))) c.
Proof.
  induction ds as [|d ds IH]; intros now cnt i c; cbn [scan_loop]; wp_go.
  - destruct ((i <? cnt) && negb (exit c)); wp_go; exists []; auto.
  - destruct ((i <? cnt) && negb (exit c)); [|wp_go; exists []; auto].
    apply wp_bind. eapply wp_mono; [apply wp_scan_dwell|]. cbv beta.
    intros r c1 e1 [_ [(-> & -> & h & ->) | (f & post & -> & Hq & Hc1 & Hr)]].
    { exists []. auto. }
    destruct (alerts_tune_passive f Hq) as [Ha Ht].
    destruct (deliver_fields (d_keys_tune d) c) as (L1 & L2 & _).
    rewrite <- Hc1 in L1, L2.
    destruct r as [[[f' r0] pk]|h]; [|exists (EvSetFrequency f :: post); auto].
    destruct Hr as [-> ->]. cbv iota beta. destruct pk.
    + wp_go. exists (EvSetFrequency f :: post).
      split; [exact Ha|]. right. rewrite !app_nil_l.
      repeat split. exists []. now rewrite Ht.
    + wp_go. eapply wp_mono; [apply wp_furi_delay_ms|]. cbv beta.
      intros r c3 e3 (-> & Hc3 & Hq3).
      destruct (deliver_fields (d_keys_frame d)
                  (set_last_pk false (set_last_freq f (set_last_rssi (d_rssi d) c1))))
        as (M1 & M2 & _).
      rewrite <- Hc3 in M1, M2. cbn in M1, M2.
      eapply wp_mono; [apply IH|]. cbv beta.
      intros r c4 e4 (body & Hb & Hcase). rewrite !app_nil_l.
      exists ((EvSetFrequency f :: post) ++ [EvViewUpdate] ++ e3 ++ body).
      split.
      { rewrite !alerts_app, Ha, Hb, (passive_alerts Hq3). reflexivity. }
      destruct Hcase as [(-> & N1 & N2) | (-> & -> & N1 & N2 & pre & N3)].
      * left. repeat split; congruence.
      * right. rewrite <- !app_assoc. repeat split; try assumption.
        exists (f :: pre).
        rewrite !tuned_app, Ht, N3, (passive_tuned Hq3). reflexivity.
Qed.

Lemma wp_locked_step now d (c : Ctx) :
  wp (locked_step tk now d)
     (fun r c' evs =>
        (exists post, evs = EvSetFrequency (last_freq c) :: post
                      /\ Forall (fun e => passive e = true) post)
        /\ last_freq c' = last_freq c
        /\ match r with
           | Halt _ => locked c' = locked c /\ lock_start c' = lock_start c
           | Ret _ =>
               if last_pk c'
               then locked c' = locked c /\ lock_start c' = now
               else lock_start c' = lock_start c
                    /\ locked c' =
                       (if ticks tk LOCK_HOLD_MS <? U32.sub now (lock_start c)
                        then false else locked c)
           end) c.
Proof.
  unfold locked_step. wp_go.
  eapply wp_mono; [apply wp_read_rssi|]. cbv beta.
  intros r c1 e1 (-> & Hc1 & post & -> & Hq).
  destruct (deliver_fields (d_keys_tune d) c) as (L1 & L2 & L3 & _).
  rewrite <- Hc1 in L1, L2, L3.
  assert (Htail : forall (pk : bool) (pre : list Ev),
    Forall (fun e => passive e = true) pre ->
    wp ((if pk then modify (set_lock_start now)
         else
           c <- get;;
           if ticks tk LOCK_HOLD_MS <? U32.sub now (lock_start c)
           then modify (set_locked false)
           else ret tt);;
        modify (fun c0 => set_last_pk pk
                  (set_last_freq (last_freq c) (set_last_rssi (d_rssi d) c0)));;
        emit EvViewUpdate;;
        furi_delay_ms FRAME_MS (d_keys_frame d))
      (fun r c' e =>
         exists r0, r = Ret r0
         /\ Forall (fun e => passive e = true) (pre ++ e)
         /\ last_freq c' = last_freq c
         /\ if last_pk c'
            then locked c' = locked c /\ lock_start c' = now
            else lock_start c' = lock_start c
                 /\ locked c' =
                    (if ticks tk LOCK_HOLD_MS <? U32.sub now (lock_start c)
                     then false else locked c)) c1).
  { intros pk pre Hpre.
    assert (Hfin : forall c2 : Ctx,
      last_freq c2 = last_freq c ->
      (if pk then locked c2 = locked c /\ lock_start c2 = now
       else lock_start c2 = lock_start c
            /\ locked c2 =
               (if ticks tk LOCK_HOLD_MS <? U32.sub now (lock_start c)
                then false else locked c)) ->
      wp (furi_delay_ms FRAME_MS (d_keys_frame d))
        (fun r c' e =>
           exists r0, r = Ret r0
           /\ Forall (fun e => passive e = true) (pre ++ EvViewUpdate :: e)
           /\ last_freq c' = last_freq c
           /\ if last_pk c'
              then locked c' = locked c /\ lock_start c' = now
              else lock_start c' = lock_start c
                   /\ locked c' =
                      (if ticks tk LOCK_HOLD_MS <? U32.sub now (lock_start c)
                       then false else locked c))
        (set_last_pk pk (set_last_freq (last_freq c) (set_last_rssi (d_rssi d) c2)))).
    { intros c2 Hf Hl.
      eapply wp_mono; [apply wp_furi_delay_ms|]. cbv beta.
      intros r c3 e3 (-> & Hc3 & Hq3).
      destruct (deliver_fields (d_keys_frame d)
                  (set_last_pk pk (set_last_freq (last_freq c)
                                     (set_last_rssi (d_rssi d) c2))))
        as (M1 & M2 & M3 & _ & M5 & _).
      rewrite <- Hc3 in M1, M2, M3, M5. cbn in M1, M2, M3, M5.
      exists tt. split; [reflexivity|]. split.
      { apply Forall_app; split; [exact Hpre|]. constructor; [reflexivity|exact Hq3]. }
      split; [exact M3|]. rewrite M5, M1, M2. exact Hl. }
    destruct pk; wp_go.
    - cbn [app]. apply Hfin; cbn; auto.
    - destruct (ticks tk LOCK_HOLD_MS <? U32.sub now (lock_start c1)) eqn:E;
        wp_go; cbn [app]; apply Hfin; cbn; rewrite <- ?L2, ?E; auto. }
  assert (Hpeak : forall base,
    wp (pk <- (if flt (lock_threshold base (sens c1)) (d_rssi d)
               then persist tk (lock_threshold base (sens c1)) (d_tick0 d) (d_polls d)
               else ret false);;
        (if pk then modify (set_lock_start now)
         else
           c <- get;;
           if ticks tk LOCK_HOLD_MS <? U32.sub now (lock_start c)
           then modify (set_locked false)
           else ret tt);;
        modify (fun c0 => set_last_pk pk
                  (set_last_freq (last_freq c) (set_last_rssi (d_rssi d) c0)));;
        emit EvViewUpdate;;
        furi_delay_ms FRAME_MS (d_keys_frame d))
      (fun r c' e =>
         Forall (fun e => passive e = true) e
         /\ last_freq c' = last_freq c
         /\ match r with
            | Ret _ =>
                if last_pk c'
                then locked c' = locked c /\ lock_start c' = now
                else lock_start c' = lock_start c
                     /\ locked c' =
                        (if ticks tk LOCK_HOLD_MS <? U32.sub now (lock_start c)
                         then false else locked c)
            | Halt _ => locked c' = locked c /\ lock_start c' = lock_start c
            end) c1).
  { intros base. apply wp_bind.
    destruct (flt (lock_threshold base (sens c1)) (d_rssi d)).
    - eapply wp_mono; [apply wp_persist|]. cbv beta.
      intros r c2 e2 (-> & Hq2 & _). destruct r as [pk|h]; [|auto].
      eapply wp_mono; [apply (Htail pk e2 Hq2)|]. cbv beta.
      intros r c' e (r0 & -> & H1 & H2 & H3). auto.
    - apply wp_ret. eapply wp_mono; [apply (Htail false [])|];
        [constructor|]. cbv beta.
      intros r c' e (r0 & -> & H1 & H2 & H3). auto. }
  wp_go. destruct (free_scan c1).
  - apply wp_arr_get.
    + intros base _ _. eapply wp_mono; [apply Hpeak|]. cbv beta.
      intros r c' e (H1 & H2 & H3). cbn [app]. split; [|auto].
      eexists. split; [reflexivity|]. apply Forall_app; auto.
    + intros _. cbn [app]. rewrite app_nil_r. split; eauto.
  - apply wp_ret. eapply wp_mono; [apply Hpeak|]. cbv beta.
    intros r c' e (H1 & H2 & H3). cbn [app]. split; [|auto].
    eexists. split; [reflexivity|]. apply Forall_app; auto.
Qed.

(** ** Turns of the main loop *)

Lemma wp_iteration it (c : Ctx) :
  wp (iteration tk it)
     (fun r c' evs =>
        alerts evs = (if negb (locked c) && locked c' then 1 else 0)%nat
        /\ (locked c = true -> last_freq c' = last_freq c)
        /\ (locked c = false -> locked c' = true ->
            r = Ret tt /\ lock_start c' = U32.wrap (it_now it))) c.
Proof.
  unfold iteration, furi_get_tick. wp_go.
  destruct (locked c) eqn:L.
  - destruct (it_dwells it) as [|d ds].
    + wp_go. rewrite L. repeat split; discriminate.
    + eapply wp_mono; [apply wp_locked_step|]. cbv beta.
      intros r c' evs ((post & -> & Hq) & Hf & _). cbn [app].
      split; [|split; [auto | discriminate]].
      cbn [negb andb]. exact (proj1 (alerts_tune_passive (last_freq c) Hq)).
  - unfold scan_pass. wp_go.
    eapply wp_mono; [apply wp_scan_loop|]. cbv beta.
    intros r c' evs (body & Hb & [(-> & L1 & L2) | (-> & -> & L1 & L2 & _)]);
      cbn [app negb andb].
    + rewrite L1, L. split; [exact Hb|]. split; discriminate.
    + rewrite L1. split; [|split; [discriminate | auto]].
      change (alerts (body ++ [EvNotify sequence_audiovisual_alert]) = 1%nat).
      rewrite alerts_app, Hb. reflexivity.
Qed.

(** [main_states] lists the contexts of the run of [main_loop]: the last of
    them is the context the loop ends in. *)
Lemma main_states_last its : forall c : Ctx,
  ctx_of (main_loop tk its c) = last (main_states tk its c) c.
Proof.
  assert (Hlast : forall (l : list Ctx) a d, last (a :: l) d = last l a).
  { induction l as [|b l IH]; intros a d; [reflexivity|].
    change (last (a :: b :: l) d) with (last (b :: l) d).
    now rewrite !IH. }
  induction its as [|it its IH]; intros c; cbn [main_loop main_states];
    unfold bind at 1, get at 1.
  - destruct (exit c); reflexivity.
  - destruct (exit c); [reflexivity|]. unfold bind.
    destruct (iteration tk it c) as [[[[]|h] c1] e1].
    + specialize (IH c1). unfold ctx_of in *.
      destruct (main_loop tk its c1) as [[r2 c2] e2]. cbn [fst snd] in *.
      now rewrite Hlast.
    + reflexivity.
Qed.


(** ** C7 *)

(** C7: in every run of the main loop the number of alerts equals the number
    of Scanning-to-Locked transitions, and a dwell step in the locked state,
    whether it confirms, fails to confirm or unlocks, emits no alert. *)
Theorem alert_once_per_acquisition :
  (forall its (c : Ctx),
      alerts (log_of (main_loop tk its c))
      = rises (map locked (c :: main_states tk its c)))
  /\ (forall now d (c : Ctx), alerts (log_of (locked_step tk now d c)) = 0%nat).
Proof.
  split.
  - induction its as [|it its IH]; intros c; cbn [main_loop main_states].
    + unfold bind, get. destruct (exit c); reflexivity.
    + unfold bind at 1, get at 1. destruct (exit c); [reflexivity|].
      unfold bind. pose proof (wp_iteration it c) as H. unfold wp in H.
      destruct (iteration tk it c) as [[[[]|h] c1] e1]; destruct H as (H & _).
      * specialize (IH c1). unfold log_of in *.
        destruct (main_loop tk its c1) as [[r2 c2] e2]. cbn [snd] in *.
        cbn [app]. rewrite alerts_app, H, IH. reflexivity.
      * unfold log_of. cbn [snd map rises app]. rewrite H. now rewrite Nat.add_0_r.
  - intros now d c. pose proof (wp_locked_step now d c) as H.
    apply wp_run in H. destruct H as ((post & -> & Hq) & _).
    apply (passive_alerts Hq).
Qed.

(** ** What a reported peak means *)

Lemma persist_ctx thr t0 polls (c : Ctx) :
  ctx_of (persist tk thr t0 polls c) = c.
Proof.
  destruct (persist_run thr t0 polls c) as (r & evs & E & _). now rewrite E.
Qed.

(** A scanning dwell step reports a peak exactly when the sample it read
    exceeds the scanning threshold over the baseline of its channel and
    [persist] at that threshold answers [true]. *)
Lemma scan_dwell_checks i d (c c' : Ctx) f r0 pk evs :
  scan_dwell tk i d c = (Ret (f, r0, pk), c', evs) ->
  exists base,
    (if free_scan c' then nth_error (baseline c') (Z.to_nat i) = Some base
     else base = MIN_RSSI_DBM)
    /\ (pk = true <->
        flt (scan_threshold base (sens c')) r0 = true
        /\ out_of (persist tk (scan_threshold base (sens c')) (d_tick0 d)
                     (d_polls d) c') = Ret true).
Proof.
  set (Post := fun (r : res (Z * F * bool)) (c' : Ctx) (_ : list Ev) =>
    forall f r0 pk, r = Ret (f, r0, pk) ->
    exists base,
      (if free_scan c' then nth_error (baseline c') (Z.to_nat i) = Some base
       else base = MIN_RSSI_DBM)
      /\ (pk = true <->
          flt (scan_threshold base (sens c')) r0 = true
          /\ out_of (persist tk (scan_threshold base (sens c')) (d_tick0 d)
                       (d_polls d) c') = Ret true)).
  assert (H : wp (scan_dwell tk i d) Post c).
  { assert (Hgo : forall freq,
      wp (r0 <- read_rssi freq (d_rssi d) (d_keys_tune d);;
          c <- get;;
          base <- (if free_scan c
                   then arr_get ArrBaseline (baseline c) i
                   else ret MIN_RSSI_DBM);;
          let thr := scan_threshold base (sens c) in
          pk <- (if flt thr r0 then persist tk thr (d_tick0 d) (d_polls d)
                 else ret false);;
          ret (freq, r0, pk)) Post c).
    { intros freq. apply wp_bind.
      eapply wp_mono; [apply wp_read_rssi|]. cbv beta.
      intros r c1 e1 (-> & _ & _). wp_go.
      assert (Hbase : forall base,
        (if free_scan c1 then nth_error (baseline c1) (Z.to_nat i) = Some base
         else base = MIN_RSSI_DBM) ->
        wp (let thr := scan_threshold base (sens c1) in
            pk <- (if flt thr (d_rssi d)
                   then persist tk thr (d_tick0 d) (d_polls d) else ret false);;
            ret (freq, d_rssi d, pk)) Post c1).
      { intros base Hb. cbv zeta. apply wp_bind.
        destruct (flt (scan_threshold base (sens c1)) (d_rssi d)) eqn:Ef.
        - pose proof (persist_ctx (scan_threshold base (sens c1)) (d_tick0 d)
                        (d_polls d) c1) as Hc.
          unfold wp, ctx_of in *.
          destruct (persist tk (scan_threshold base (sens c1)) (d_tick0 d)
                      (d_polls d) c1) as [[rp cp] ep] eqn:Ep.
          cbn [fst snd] in Hc. subst cp.
          destruct rp as [b|h]; [|discriminate].
          unfold ret. cbv beta iota. intros f' r0' pk' E. injection E as <- <- <-.
          exists base. split; [exact Hb|]. rewrite Ef, Ep. cbn [out_of fst].
          split; [intros ->; auto | intros [_ E]; now injection E].
        - wp_go. intros f' r0' pk' E. injection E as <- <- <-.
          exists base. split; [exact Hb|]. rewrite Ef.
          split; [discriminate | intros [E _]; discriminate]. }
      destruct (free_scan c1) eqn:Efs.
      - apply wp_arr_get.
        + intros base _ Hn. eapply wp_mono; [apply (Hbase base Hn)|].
          cbv beta. auto.
        + intros _. discriminate.
      - apply wp_ret. eapply wp_mono; [apply (Hbase MIN_RSSI_DBM eq_refl)|].
        cbv beta. auto. }
    unfold scan_dwell. wp_go. destruct (free_scan c).
    - apply wp_ret. eapply wp_mono; [apply Hgo|]. cbv beta. auto.
    - apply wp_arr_get.
      + intros freq _ _. eapply wp_mono; [apply Hgo|]. cbv beta. auto.
      + intros _. discriminate. }
  intros E. unfold wp in H. rewrite E in H. exact (H f r0 pk eq_refl).
Qed.

(** A dwell step in the locked state confirms exactly when the sample it
    read exceeds the locked threshold over the baseline of the locked
    frequency and [persist] at that threshold answers [true]. *)
Lemma locked_step_checks now d (c c' : Ctx) r evs :
  locked_step tk now d c = (Ret r, c', evs) ->
  let c1 := ctx_of (deliver (d_keys_tune d) c) in
  exists base,
    (if free_scan c1
     then nth_error (baseline c1)
            (Z.to_nat (U32.div (U32.sub (last_freq c) UP_START_FREQ) FREQ_STEP))
          = Some base
     else base = MIN_RSSI_DBM)
    /\ (last_pk c' = true <->
        flt (lock_threshold base (sens c1)) (d_rssi d) = true
        /\ out_of (persist tk (lock_threshold base (sens c1)) (d_tick0 d)
                     (d_polls d) c1) = Ret true).
Proof.
  intros E c1.
  set (Post := fun (r : res unit) (c' : Ctx) (_ : list Ev) =>
    forall r', r = Ret r' ->
    exists base,
      (if free_scan c1
       then nth_error (baseline c1)
              (Z.to_nat (U32.div (U32.sub (last_freq c) UP_START_FREQ) FREQ_STEP))
            = Some base
       else base = MIN_RSSI_DBM)
      /\ (last_pk c' = true <->
          flt (lock_threshold base (sens c1)) (d_rssi d) = true
          /\ out_of (persist tk (lock_threshold base (sens c1)) (d_tick0 d)
                       (d_polls d) c1) = Ret true)).
  assert (H : wp (locked_step tk now d) Post c).
  { unfold locked_step. wp_go.
    eapply wp_mono; [apply wp_read_rssi|]. cbv beta.
    intros r1 c1' e1 (-> & Hc1 & _). fold c1 in Hc1. subst c1'. wp_go.
    assert (Htail : forall (pk : bool) (c2 : Ctx),
      wp ((if pk then modify (set_lock_start now)
           else
             c <- get;;
             if ticks tk LOCK_HOLD_MS <? U32.sub now (lock_start c)
             then modify (set_locked false)
             else ret tt);;
          modify (fun c0 => set_last_pk pk
                    (set_last_freq (last_freq c) (set_last_rssi (d_rssi d) c0)));;
          emit EvViewUpdate;;
          furi_delay_ms FRAME_MS (d_keys_frame d))
        (fun _ c' _ => last_pk c' = pk) c2).
    { intros pk c2.
      assert (Hfin : forall c3 : Ctx,
        wp (furi_delay_ms FRAME_MS (d_keys_frame d))
          (fun _ c' _ => last_pk c' = pk)
          (set_last_pk pk (set_last_freq (last_freq c) (set_last_rssi (d_rssi d) c3)))).
      { intros c3. eapply wp_mono; [apply wp_furi_delay_ms|]. cbv beta.
        intros r3 c4 e3 (_ & -> & _).
        exact (proj1 (proj2 (proj2 (proj2 (proj2 (deliver_fields _ _)))))). }
      destruct pk; wp_go; [apply Hfin|].
      destruct (ticks tk LOCK_HOLD_MS <? U32.sub now (lock_start c2));
        wp_go; apply Hfin. }
    assert (Hbase : forall base,
      (if free_scan c1
       then nth_error (baseline c1)
              (Z.to_nat (U32.div (U32.sub (last_freq c) UP_START_FREQ) FREQ_STEP))
            = Some base
       else base = MIN_RSSI_DBM) ->
      wp (pk <- (if flt (lock_threshold base (sens c1)) (d_rssi d)
                 then persist tk (lock_threshold base (sens c1)) (d_tick0 d) (d_polls d)
                 else ret false);;
          (if pk then modify (set_lock_start now)
           else
             c <- get;;
             if ticks tk LOCK_HOLD_MS <? U32.sub now (lock_start c)
             then modify (set_locked false)
             else ret tt);;
          modify (fun c0 => set_last_pk pk
                    (set_last_freq (last_freq c) (set_last_rssi (d_rssi d) c0)));;
          emit EvViewUpdate;;
          furi_delay_ms FRAME_MS (d_keys_frame d)) Post c1).
    { intros base Hb. apply wp_bind.
      destruct (flt (lock_threshold base (sens c1)) (d_rssi d)) eqn:Ef.
      - pose proof (persist_ctx (lock_threshold base (sens c1)) (d_tick0 d)
                      (d_polls d) c1) as Hc.
        unfold wp at 1. unfold ctx_of in Hc.
        destruct (persist tk (lock_threshold base (sens c1)) (d_tick0 d)
                    (d_polls d) c1) as [[rp cp] ep] eqn:Ep.
        cbn [fst snd] in Hc. subst cp.
        destruct rp as [b|h]; [|discriminate].
        eapply wp_mono; [apply (Htail b c1)|]. cbv beta.
        intros r2 c2 e2 Hpk r' _. exists base. split; [exact Hb|].
        rewrite Hpk, Ef, Ep. cbn [out_of fst].
        split; [intros ->; auto | intros [_ E']; now injection E'].
      - apply wp_ret. eapply wp_mono; [apply (Htail false c1)|]. cbv beta.
        intros r2 c2 e2 Hpk r' _. exists base. split; [exact Hb|].
        rewrite Hpk, Ef. split; [discriminate | intros [E' _]; discriminate]. }
    destruct (free_scan c1) eqn:Efs.
    - apply wp_arr_get.
      + intros base _ Hn. eapply wp_mono; [apply (Hbase base Hn)|]. cbv beta. auto.
      + intros _. discriminate.
    - apply wp_ret. eapply wp_mono; [apply (Hbase MIN_RSSI_DBM eq_refl)|].
      cbv beta. auto. }
  unfold wp in H. rewrite E in H. exact (H r eq_refl).
Qed.


(** ** C3 *)

(** C3: the scanning threshold is [base + 8 - sens]; the locked threshold is
    the scanning threshold for the same baseline and sensitivity minus the
    lock drop of 5 dB; a scanning dwell step decides with the first and a
    dwell step in the locked state with the second. *)
Theorem threshold_formula :
  (forall (b : F) (s : Z),
      scan_threshold b s = fsub (fadd b (of_int 8)) (of_int s)
      /\ lock_threshold b s = fsub (scan_threshold b s) (of_int 5))
  /\ (forall i d (c c' : Ctx) f r0 pk evs,
      scan_dwell tk i d c = (Ret (f, r0, pk), c', evs) ->
      exists base,
        (if free_scan c' then nth_error (baseline c') (Z.to_nat i) = Some base
         else base = MIN_RSSI_DBM)
        /\ (pk = true <->
            flt (scan_threshold base (sens c')) r0 = true
            /\ out_of (persist tk (scan_threshold base (sens c')) (d_tick0 d)
                         (d_polls d) c') = Ret true))
  /\ (forall now d (c c' : Ctx) r evs,
      locked_step tk now d c = (Ret r, c', evs) ->
      let c1 := ctx_of (deliver (d_keys_tune d) c) in
      exists base,
        (if free_scan c1
         then nth_error (baseline c1)
                (Z.to_nat (U32.div (U32.sub (last_freq c) UP_START_FREQ) FREQ_STEP))
              = Some base
         else base = MIN_RSSI_DBM)
        /\ (last_pk c' = true <->
            flt (lock_threshold base (sens c1)) (d_rssi d) = true
            /\ out_of (persist tk (lock_threshold base (sens c1)) (d_tick0 d)
                         (d_polls d) c1) = Ret true)).
Proof.
  split; [|split].
  - intros b s. split; reflexivity.
  - exact scan_dwell_checks.
  - exact locked_step_checks.
Qed.

(** ** Unfolding a pass *)

Lemma deliver_ret keys (c : Ctx) : out_of (deliver keys c) = Ret tt.
Proof.
  revert c. induction keys as [|e ks IH]; intros c; [reflexivity|].
  cbn [deliver]. unfold bind, out_of.
  assert (He : out_of (input_cb e c) = Ret tt)
    by (destruct e as [[] []]; reflexivity).
  unfold out_of in He.
  destruct (input_cb e c) as [[r1 c2] e1]; simpl in He; subst r1.
  specialize (IH c2). unfold out_of in IH.
  destruct (deliver ks c2) as [[r2 c3] e2]; simpl in *; now subst.
Qed.

Lemma scan_loop_nil now cnt i (c : Ctx) :
  scan_loop tk now cnt i [] c
  = if (i <? cnt) && negb (exit c) then (Halt NeedDwell, c, [])
    else (Ret tt, c, []).
Proof.
  cbn [scan_loop]. unfold bind, get.
  destruct ((i <? cnt) && negb (exit c)); reflexivity.
Qed.

Lemma scan_loop_cons now cnt i d ds (c : Ctx) :
  scan_loop tk now cnt i (d :: ds) c
  = if (i <? cnt) && negb (exit c) then
      match scan_dwell tk i d c with
      | (Ret (f, r0, true), c1, e1) =>
          (Ret tt, set_last_freq f (set_lock_start now (set_locked true c1)),
           e1 ++ [EvNotify sequence_audiovisual_alert])
      | (Ret (f, r0, false), c1, e1) =>
          let c2 := set_last_pk false (set_last_freq f (set_last_rssi r0 c1)) in
          let '(r, c4, e4) :=
            scan_loop tk now cnt (i + 1) ds (ctx_of (deliver (d_keys_frame d) c2)) in
          (r, c4,
           e1 ++ EvViewUpdate :: EvDelay FRAME_MS
              :: log_of (deliver (d_keys_frame d) c2) ++ e4)
      | (Halt h, c1, e1) => (Halt h, c1, e1)
      end
    else (Ret tt, c, []).
Proof.
  cbn [scan_loop]. unfold bind at 1, get at 1.
  destruct ((i <? cnt) && negb (exit c)); [|reflexivity].
  unfold bind at 1.
  destruct (scan_dwell tk i d c) as [[[[[f r0] pk]|h] c1] e1]; [|reflexivity].
  destruct pk.
  - reflexivity.
  - unfold furi_delay_ms, bind, modify, emit. cbv zeta.
    pose proof (deliver_ret (d_keys_frame d)
                  (set_last_pk false (set_last_freq f (set_last_rssi r0 c1)))) as Hr.
    unfold out_of, ctx_of, log_of in *.
    destruct (deliver (d_keys_frame d)
                (set_last_pk false (set_last_freq f (set_last_rssi r0 c1))))
      as [[r3 c3] e3].
    cbn [fst snd] in *. subst r3.
    destruct (scan_loop tk now cnt (i + 1) ds c3) as [[r4 c4] e4].
    cbn [app]. reflexivity.
Qed.

Lemma scan_dwell_not_starved i d (c : Ctx) :
  out_of (scan_dwell tk i d c) <> Halt NeedDwell.
Proof.
  pose proof (wp_scan_dwell i d c) as H. apply wp_run in H. exact (proj1 H).
Qed.

(** A pass that stopped for want of a further dwell record resumes, when the
    record is extended, exactly where it stopped. *)
Lemma scan_loop_resume pre : forall now cnt i (c ck : Ctx) e,
  scan_loop tk now cnt i pre c = (Halt NeedDwell, ck, e) ->
  (i + Z.of_nat (length pre) <? cnt) && negb (exit ck) = true
  /\ alerts e = 0%nat
  /\ forall more,
       scan_loop tk now cnt i (pre ++ more) c
       = let '(r, c', e') :=
           scan_loop tk now cnt (i + Z.of_nat (length pre)) more ck in
         (r, c', e ++ e').
Proof.
  induction pre as [|d pre IH]; intros now cnt i c ck e H.
  - rewrite scan_loop_nil in H.
    destruct ((i <? cnt) && negb (exit c)) eqn:E; [|discriminate].
    injection H as <- <-. cbn [length Z.of_nat app]. rewrite Z.add_0_r.
    split; [exact E|]. split; [reflexivity|]. intros more.
    destruct (scan_loop tk now cnt i more c) as [[r c'] e']. reflexivity.
  - rewrite scan_loop_cons in H.
    destruct ((i <? cnt) && negb (exit c)) eqn:E; [|discriminate].
    pose proof (scan_dwell_not_starved i d c) as Hne.
    pose proof (wp_scan_dwell i d c) as Hd. apply wp_run in Hd.
    unfold out_of, ctx_of, log_of in Hne, Hd.
    destruct (scan_dwell tk i d c) as [[[[[f r0] pk]|h] c1] e1] eqn:Ed;
      cbn [fst snd] in Hne, Hd.
    2:{ injection H as -> _ _. congruence. }
    destruct pk; [discriminate|]. cbv zeta in H.
    destruct (scan_loop tk now cnt (i + 1) pre
                (ctx_of (deliver (d_keys_frame d)
                   (set_last_pk false (set_last_freq f (set_last_rssi r0 c1))))))
      as [[r4 c4] e4] eqn:E4.
    injection H as -> -> <-.
    destruct (IH _ _ _ _ _ _ E4) as (Hc & Ha & Hm).
    replace (i + Z.of_nat (length (d :: pre))) with (i + 1 + Z.of_nat (length pre))
      by (cbn [length]; lia).
    split; [exact Hc|]. split.
    + destruct Hd as [_ [(-> & _) | (f' & post & -> & Hq & _)]].
      * cbn [app]. change (alerts (log_of (deliver (d_keys_frame d)
            (set_last_pk false (set_last_freq f (set_last_rssi r0 c1)))) ++ e4) = 0%nat).
        rewrite alerts_app, Ha, (passive_alerts (silent_deliver _ _)). reflexivity.
      * rewrite alerts_app. rewrite (proj1 (alerts_tune_passive f' Hq)).
        change (alerts (log_of (deliver (d_keys_frame d)
            (set_last_pk false (set_last_freq f (set_last_rssi r0 c1)))) ++ e4) = 0%nat).
        rewrite alerts_app, Ha, (passive_alerts (silent_deliver _ _)). reflexivity.
    + intros more. cbn [app]. rewrite scan_loop_cons, E, Ed. cbv zeta.
      rewrite Hm.
      destruct (scan_loop tk now cnt (i + 1 + Z.of_nat (length pre)) more ck)
        as [[r c'] e'].
      rewrite <- !app_assoc. cbn [app]. rewrite <- !app_assoc. reflexivity.
Qed.

(** ** Invariants of the configuration *)

Section Keeps.

Variable P : Ctx -> Prop.
Hypothesis P_input : forall e, keeps P (input_cb (F:=F) e).
Hypothesis P_stable : lock_stable P.

Lemma stable_locked v c : P c -> P (set_locked v c).
Proof. intros H. apply (P_stable H). Qed.

Lemma stable_lock_start v c : P c -> P (set_lock_start v c).
Proof. intros H. apply (P_stable H). Qed.

Lemma stable_last_freq v c : P c -> P (set_last_freq v c).
Proof. intros H. apply (P_stable H). Qed.

Lemma stable_last_rssi v c : P c -> P (set_last_rssi v c).
Proof. intros H. apply (P_stable H). Qed.

Lemma stable_last_pk v c : P c -> P (set_last_pk v c).
Proof. intros H. apply (P_stable H). Qed.

Ltac keep_step :=
  lazymatch goal with
  | |- keeps _ (ret _) => apply keeps_ret
  | |- keeps _ get => apply keeps_get
  | |- keeps _ (emit _) => apply keeps_emit
  | |- keeps _ (stop _) => apply keeps_stop
  | |- keeps _ (deliver _) => apply keeps_deliver, P_input
  | |- keeps _ (bind _ _) => apply keeps_bind; [|intros]
  | |- keeps _ (modify _) =>
      apply keeps_modify; intros;
      auto using stable_locked, stable_lock_start, stable_last_freq,
        stable_last_rssi, stable_last_pk
  | |- keeps _ (if ?b then _ else _) => destruct b
  | |- keeps _ (let _ := _ in _) => cbv zeta
  | |- keeps _ (let '(_, _) := ?x in _) => destruct x
  end.

Ltac keep := repeat keep_step.

Lemma keeps_arr_get A a (l : list A) i : keeps P (arr_get a l i).
Proof. unfold arr_get. keep. destruct (nth_error l (Z.to_nat i)); keep. Qed.

Lemma keeps_read_rssi freq r keys : keeps P (read_rssi freq r keys).
Proof. unfold read_rssi, furi_delay_ms. keep. Qed.

Lemma keeps_persist thr t0 polls : keeps P (persist tk thr t0 polls).
Proof.
  unfold persist, furi_get_tick. keep.
  generalize (U32.add a (ticks tk SLOT_MS)). intros end_.
  induction polls as [|p polls IH]; cbn [persist_loop]; unfold furi_get_tick; keep.
  exact IH.
Qed.

Lemma keeps_scan_dwell i d : keeps P (scan_dwell tk i d).
Proof.
  unfold scan_dwell. keep;
    auto using keeps_arr_get, keeps_read_rssi, keeps_persist.
Qed.

Lemma keeps_scan_loop ds : forall now cnt i, keeps P (scan_loop tk now cnt i ds).
Proof.
  induction ds as [|d ds IH]; intros now cnt i; cbn [scan_loop];
    unfold furi_delay_ms; keep; auto using keeps_scan_dwell.
Qed.

Lemma keeps_locked_step now d : keeps P (locked_step tk now d).
Proof.
  unfold locked_step, furi_delay_ms. keep;
    auto using keeps_arr_get, keeps_read_rssi, keeps_persist.
Qed.

Lemma keeps_iteration it : keeps P (iteration tk it).
Proof.
  unfold iteration, furi_get_tick, scan_pass. keep;
    auto using keeps_scan_loop.
  destruct (it_dwells it); keep. apply keeps_locked_step.
Qed.

Lemma keeps_main_loop its : keeps P (main_loop tk its).
Proof.
  induction its as [|it its IH]; cbn [main_loop]; keep;
    auto using keeps_iteration.
Qed.

End Keeps.

(** ** Scanning turns *)

Lemma iteration_scanning it (c : Ctx) :
  locked c = false ->
  iteration tk it c
  = let '(r, c', e) :=
      scan_loop tk (U32.wrap (it_now it))
        (if free_scan c then UP_NUM_CH else STATIC_CH) 0 (it_dwells it) c in
    (r, c', EvGetTick (U32.wrap (it_now it)) :: e).
Proof.
  intros L. unfold iteration, furi_get_tick, scan_pass, bind, get, emit, ret.
  rewrite L.
  destruct (scan_loop tk (U32.wrap (it_now it))
              (if free_scan c then UP_NUM_CH else STATIC_CH) 0 (it_dwells it) c)
    as [[[[]|h] c'] e]; reflexivity.
Qed.

(** ** C2 *)

Lemma chain_le_skip a b l :
  a <= b -> chain Z.le (b :: l) -> chain Z.le (a :: l).
Proof. destruct l as [|x l]; cbn; [tauto|]. intros H [H1 H2]. split; [lia|exact H2]. Qed.

Lemma chain_le_head l : forall a x, chain Z.le (a :: l) -> In x l -> a <= x.
Proof.
  induction l as [|b l IH]; intros a x H Hin; [destruct Hin|].
  destruct H as [H1 H2]. destruct Hin as [<-|Hin]; [exact H1|].
  specialize (IH b x H2 Hin). lia.
Qed.

Lemma confirm_times_in obs x : In x (confirm_times obs) -> In x (map fst obs).
Proof.
  unfold confirm_times. intros H. apply in_map_iff in H as ((t & b) & <- & H).
  apply filter_In in H as [H _]. apply in_map_iff. exists (t, b). auto.
Qed.

Lemma ends_confirmed_tail o obs : ends_confirmed (o :: obs) -> ends_confirmed obs.
Proof.
  intros [H | (pre & t & H)]; [discriminate|].
  destruct pre as [|p pre]; cbn in H; injection H as -> ->.
  - left. reflexivity.
  - right. eauto.
Qed.

Lemma chain_cons A (R : A -> A -> Prop) a b l :
  chain R (a :: b :: l) <-> R a b /\ chain R (b :: l).
Proof. reflexivity. Qed.

Lemma confirmed_within_true hold l t obs :
  confirmed_within hold l ((t, true) :: obs) -> confirmed_within hold t obs.
Proof.
  intros (H1 & H2 & H3).
  change (chain Z.le (l :: t :: map fst obs)) in H1.
  change (chain (fun a b => b - a < hold) (l :: t :: confirm_times obs)) in H2.
  apply chain_cons in H1 as [_ H1]. apply chain_cons in H2 as [_ H2].
  split; [exact H1|]. split; [exact H2|]. exact (ends_confirmed_tail H3).
Qed.

Lemma confirmed_within_false hold l t obs :
  confirmed_within hold l ((t, false) :: obs) ->
  confirmed_within hold l obs /\ 0 <= t - l < hold.
Proof.
  intros (H1 & H2 & H3).
  change (chain Z.le (l :: t :: map fst obs)) in H1.
  change (chain (fun a b => b - a < hold) (l :: confirm_times obs)) in H2.
  apply chain_cons in H1 as [Hlt H1].
  assert (Hc : exists t1 ts, confirm_times obs = t1 :: ts).
  { destruct H3 as [H3 | (pre & t' & H3)]; [discriminate|].
    destruct pre as [|p pre]; cbn [app] in H3; [discriminate|].
    injection H3 as _ ->. unfold confirm_times. rewrite filter_app, map_app.
    cbn [filter snd map fst].
    destruct (map fst (filter snd pre)); cbn [app]; eauto. }
  destruct Hc as (t1 & ts & Hc).
  assert (Ht1 : t <= t1).
  { eapply chain_le_head; [exact H1|]. apply confirm_times_in. rewrite Hc. now left. }
  assert (Hgap : t1 - l < hold).
  { rewrite Hc in H2. apply chain_cons in H2 as [H2 _]. exact H2. }
  split; [|lia].
  split; [exact (chain_le_skip _ Hlt H1)|]. split; [exact H2|].
  exact (ends_confirmed_tail H3).
Qed.

Lemma wp_iteration_locked it (c : Ctx) :
  locked c = true ->
  wp (iteration tk it)
     (fun r c' evs =>
        match r with
        | Halt _ => locked c' = true /\ lock_start c' = lock_start c
        | Ret _ =>
            if last_pk c'
            then locked c' = true /\ lock_start c' = U32.wrap (it_now it)
            else lock_start c' = lock_start c
                 /\ locked c' = negb (ticks tk LOCK_HOLD_MS
                                      <? U32.sub (U32.wrap (it_now it)) (lock_start c))
        end) c.
Proof.
  intros L. unfold iteration, furi_get_tick. wp_go. rewrite L.
  destruct (it_dwells it) as [|d ds]; [wp_go; auto|].
  eapply wp_mono; [apply wp_locked_step|]. cbv beta.
  intros r c' evs (_ & _ & H). rewrite L in H.
  destruct r as [[]|h]; [|exact H].
  destruct (last_pk c'); [exact H|].
  destruct (ticks tk LOCK_HOLD_MS <? U32.sub (U32.wrap (it_now it)) (lock_start c));
    exact H.
Qed.

Lemma stays_locked its : forall c : Ctx,
  locked c = true ->
  confirmed_within (ticks tk LOCK_HOLD_MS) (lock_start c) (run_obs tk its c) ->
  Forall (fun s => locked s = true) (main_states tk its c).
Proof.
  induction its as [|it its IH]; intros c L Hcw; cbn [main_states].
  - destruct (exit c); constructor.
  - unfold run_obs in Hcw. cbn [main_states map] in Hcw.
    destruct (exit c); [constructor|].
    pose proof (@wp_iteration_locked it c L) as Hit. unfold wp in Hit.
    destruct (iteration tk it c) as [[[[]|h] c1] e1].
    + cbn [map combine] in Hcw. fold (run_obs tk its c1) in Hcw.
      destruct (last_pk c1).
      * destruct Hit as [L1 S1]. constructor; [exact L1|].
        apply IH; [exact L1|]. rewrite S1.
        exact (confirmed_within_true Hcw).
      * destruct Hit as [S1 L1].
        destruct (confirmed_within_false Hcw) as [Hcw' Hgap].
        assert (L1' : locked c1 = true).
        { rewrite L1. apply negb_true_iff, Z.ltb_ge.
          remember (U32.wrap (it_now it)) as n.
          assert (Hb : ticks tk LOCK_HOLD_MS < U32.modulus)
            by (apply Z.mod_pos_bound; reflexivity).
          unfold U32.sub, U32.wrap. rewrite Z.mod_small; lia. }
        constructor; [exact L1'|]. apply IH; [exact L1'|]. rewrite S1. exact Hcw'.
    + constructor; [apply Hit | constructor].
Qed.

(** C2, amended: a locked dwell step that does not confirm unlocks exactly
    when the tick read at its head is more than the hold time past the last
    confirmation stamp (at exactly the hold time the machine stays locked);
    and in a run whose confirmations keep coming less than the hold time
    apart, every state is locked. *)
Theorem lock_hold :
  (forall now d (c c' : Ctx) r evs,
      locked c = true ->
      locked_step tk now d c = (Ret r, c', evs) ->
      last_pk c' = false ->
      lock_start c' = lock_start c
      /\ (locked c' = false
          <-> ticks tk LOCK_HOLD_MS < U32.sub now (lock_start c)))
  /\ (forall its (c : Ctx),
      locked c = true ->
      confirmed_within (ticks tk LOCK_HOLD_MS) (lock_start c) (run_obs tk its c) ->
      Forall (fun s => locked s = true) (main_states tk its c)).
Proof.
  split; [|exact stays_locked].
  intros now d c c' r evs L E Pk.
  pose proof (wp_locked_step now d c) as H. unfold wp in H. rewrite E in H.
  destruct H as (_ & _ & H). rewrite Pk, L in H. destruct H as [S1 L1].
  split; [exact S1|]. rewrite L1.
  destruct (ticks tk LOCK_HOLD_MS <? U32.sub now (lock_start c)) eqn:Et.
  - apply Z.ltb_lt in Et. tauto.
  - apply Z.ltb_ge in Et. split; [discriminate | lia].
Qed.

(** ** C9 *)

(** C9: when the display record, the notification record, the radio device
    or its session is not obtained, the application returns -1 at once: the
    context is untouched, the log holds start-up calls only (no tuning, no
    sample, no tick, no view port), each at most once. *)
Theorem startup_fail_fast (b : Boot) (its : list Iter) (c : Ctx) :
  gui_ok b && notif_ok b && device_ok b && begin_ok b = false ->
  let '(r, c', evs) := python_detector_app tk b its c in
  r = Ret (-1) /\ -1 <> 0 /\ c' = c
  /\ Forall (fun e => startup_event e = true) evs
  /\ tuned evs = [] /\ sampled evs = [] /\ tick_reads evs = []
  /\ NoDup evs.
Proof.
  destruct b as [g n dv bg cal]. cbn [gui_ok notif_ok device_ok begin_ok].
  intros H. unfold python_detector_app. cbn [gui_ok notif_ok device_ok begin_ok].
  destruct g, n, dv, bg; try discriminate H; clear H;
    cbn [negb orb andb]; unfold bind, emit, ret; cbn [app];
    (split; [reflexivity|]); (split; [discriminate|]); (split; [reflexivity|]);
    (split; [repeat constructor|]); (split; [reflexivity|]);
    (split; [reflexivity|]); (split; [reflexivity|]);
    repeat constructor; cbn [In]; intuition discriminate.
Qed.

(** ** C10 *)

Lemma keeps_sens_calibrate samples : forall i,
  keeps sens_ok (calibrate (F:=F) i samples).
Proof.
  induction samples as [|r samples IH]; intros i; cbn [calibrate];
    destruct (i <? UP_NUM_CH); try apply keeps_stop; try apply keeps_ret.
  unfold read_rssi, furi_delay_ms, emit_delay. cbn [deliver].
  repeat (apply keeps_bind; [|intros]);
    try apply keeps_emit; try apply keeps_ret; try apply keeps_get; try apply IH.
  destruct (i <? Z.of_nat (length (baseline a0)));
    [apply keeps_modify; intros c H; exact H | apply keeps_stop].
Qed.

Lemma sens_ok_stable : lock_stable (sens_ok (F:=F)).
Proof. intros c H. repeat split; intros; apply H. Qed.

(** C10: on a sensitivity between 1 and 5 the Right key yields the next
    value of the cycle 1, 2, 3, 4, 5, 1; the value starts at 3 and stays
    between 1 and 5 through every run of the main loop. *)
Theorem sens_cycle :
  (forall c : Ctx,
      sens_ok c ->
      let c' := ctx_of (input_cb (Ex.press InputKeyRight) c) in
      sens c' = sens c mod 5 + 1 /\ (sens c = 5 -> sens c' = 1) /\ sens_ok c')
  /\ (forall its (c : Ctx), sens_ok c -> sens_ok (ctx_of (main_loop tk its c)))
  /\ (forall b its, sens_ok (ctx_of (python_detector_app tk b its app_init))).
Proof.
  assert (Hloop : forall its, keeps sens_ok (main_loop tk its)).
  { intros its. apply (keeps_main_loop (P := sens_ok));
      [exact keeps_sens_input_cb | exact sens_ok_stable]. }
  split; [|split].
  - intros c H c'. subst c'. unfold sens_ok in *. cbn.
    destruct (sens c <? 5) eqn:E.
    + apply Z.ltb_lt in E. rewrite Z.mod_small; lia.
    + apply Z.ltb_ge in E. assert (sens c = 5) as -> by lia. cbn. lia.
  - intros its c H. exact (Hloop its c H).
  - intros b its.
    assert (Happ : keeps sens_ok (python_detector_app tk b its)).
    { unfold python_detector_app.
      repeat first
        [ apply keeps_ret | apply keeps_emit | apply Hloop
        | apply keeps_sens_calibrate
        | (apply keeps_bind; [|intros])
        | match goal with |- keeps _ (if ?x then _ else _) => destruct x end ]. }
    apply Happ. unfold sens_ok. cbn [app_init sens]. lia.
Qed.

(** * Further properties of the program *)

(** ** The input callback *)

(** X1: the input callback never touches the lock state, the last reading
    or the baseline table, whatever the events. *)
Theorem input_leaves_lock_state keys (c : Ctx) :
  lock_view (ctx_of (deliver keys c)) = lock_view c.
Proof.
  apply (keeps_deliver (P := fun x => lock_view x = lock_view c)).
  - intros e. apply keeps_view_input_cb.
  - reflexivity.
Qed.

Lemma deliver_cons e keys (c : Ctx) :
  deliver (e :: keys) c
  = let '(r, c2, e2) := deliver keys (ctx_of (input_cb e c)) in
    (r, c2, log_of (input_cb e c) ++ e2).
Proof.
  cbn [deliver]. unfold bind.
  destruct e as [[] []]; cbn;
    destruct (deliver keys _) as [[r c2] e2]; reflexivity.
Qed.

Lemma deliver_presses keys (c : Ctx) :
  deliver keys c = deliver (filter is_press keys) c
  /\ log_of (deliver keys c)
     = repeat (EvNotify sequence_semi_success) (length (filter is_press keys)).
Proof.
  revert c. induction keys as [|e keys IH]; intros c; [split; reflexivity|].
  rewrite deliver_cons.
  destruct (is_press e) eqn:Ep; cbn [filter]; rewrite Ep.
  - rewrite deliver_cons.
    destruct (IH (ctx_of (input_cb e c))) as [IH1 IH2]. rewrite <- IH1.
    destruct (deliver keys (ctx_of (input_cb e c))) as [[r c2] e2].
    split; [reflexivity|]. cbn [log_of snd] in *. rewrite IH2.
    destruct e as [[] k]; try discriminate Ep. destruct k; reflexivity.
  - assert (Hi : input_cb e c = (Ret tt, c, []))
      by (destruct e as [[] k]; try discriminate Ep; reflexivity).
    rewrite Hi. cbn [ctx_of log_of fst snd app].
    destruct (IH c) as [IH1 IH2]. rewrite <- IH1.
    destruct (deliver keys c) as [[r c2] e2]. split; [reflexivity | exact IH2].
Qed.

Lemma notified_repeat s n :
  notified (repeat (EvNotify s : Ev) n) = repeat s n.
Proof.
  induction n as [|n IH]; [reflexivity|].
  cbn [repeat notified]. now rewrite IH.
Qed.

(** X2: events that are not presses are ignored: delivering a sequence of
    events is delivering its presses.  Every press, whatever its key, is
    acknowledged by one [sequence_semi_success]: the notifications of a
    delivery are one per press, and no other notification is made. *)
Theorem input_presses_only keys (c : Ctx) :
  deliver keys c = deliver (filter is_press keys) c
  /\ notified (log_of (deliver keys c))
     = repeat sequence_semi_success (length (filter is_press keys)).
Proof.
  destruct (deliver_presses keys c) as [H1 H2]. split; [exact H1|].
  rewrite H2. apply notified_repeat.
Qed.

Lemma deliver_cycles (c : Ctx) :
  ctx_of (deliver (repeat (Ex.press InputKeyUp) 6) c) = c
  /\ (sens_ok c -> ctx_of (deliver (repeat (Ex.press InputKeyRight) 5) c) = c)
  /\ ctx_of (deliver (repeat (Ex.press InputKeyLeft) 2) c) = c
  /\ ctx_of (deliver (repeat (Ex.press InputKeyDown) 2) c) = c
  /\ ctx_of (deliver (repeat (Ex.press InputKeyOk) 2) c) = c.
Proof.
  destruct c as [ex bl lk ls md fs db td sn lf lr lp].
  split; [destruct md; reflexivity|].
  split.
  - unfold sens_ok. cbn [sens]. intros H.
    assert (Hs : sn = 1 \/ sn = 2 \/ sn = 3 \/ sn = 4 \/ sn = 5) by lia.
    destruct Hs as [-> | [-> | [-> | [-> | ->]]]]; reflexivity.
  - split; [destruct fs; reflexivity|].
    split; [destruct db; reflexivity | destruct td; reflexivity].
Qed.

Lemma deliver_keeps_exit k n : forall c : Ctx,
  k <> InputKeyBack ->
  exit (ctx_of (deliver (repeat (Ex.press k) n) c)) = exit c.
Proof.
  induction n as [|n IH]; intros c Hk; [reflexivity|].
  cbn [repeat]. rewrite deliver_cons. specialize (IH (ctx_of (input_cb (Ex.press k) c)) Hk).
  unfold ctx_of in *.
  destruct (deliver (repeat (Ex.press k) n) (snd (fst (input_cb (Ex.press k) c))))
    as [[r c2] e2].
  cbn [fst snd] in *. rewrite IH.
  destruct k; try reflexivity. exfalso. apply Hk. reflexivity.
Qed.

(** X3: the keys cycle.  Six presses of Up, five of Right (on a sensitivity
    between 1 and 5), two of Left, of Down or of Ok bring the five settings
    (alert mode, scan mode, sensitivity, debug flag, TDMA flag) back to
    what they were; and no number of presses of a key other than Back sets
    or clears [exit]. *)
Theorem input_round_trips (c : Ctx) :
  let after k n := ctx_of (deliver (repeat (Ex.press k) n) c) in
  settings (after InputKeyUp 6%nat) = settings c
  /\ (sens_ok c -> settings (after InputKeyRight 5%nat) = settings c)
  /\ settings (after InputKeyLeft 2%nat) = settings c
  /\ settings (after InputKeyDown 2%nat) = settings c
  /\ settings (after InputKeyOk 2%nat) = settings c
  /\ forall k n, k <> InputKeyBack -> exit (after k n) = exit c.
Proof.
  cbv zeta. destruct (deliver_cycles c) as (H1 & H2 & H3 & H4 & H5).
  split; [now rewrite H1|]. split; [intros H; now rewrite (H2 H)|].
  split; [now rewrite H3|]. split; [now rewrite H4|]. split; [now rewrite H5|].
  intros k n Hk. exact (deliver_keeps_exit n c Hk).
Qed.

(** ** persist *)

(** X4: [persist] is monotonic in its threshold.  With a second threshold
    that no sample is below unless it is below the first, a run that
    confirms at the first is the same run at the second, and a run that
    fails at the second fails at the first. *)
Theorem persist_monotone (thr thr' : F) t0 polls (c : Ctx) :
  (forall s, flt s thr' = true -> flt s thr = true) ->
  (out_of (persist tk thr t0 polls c) = Ret true ->
   persist tk thr' t0 polls c = persist tk thr t0 polls c)
  /\ (out_of (persist tk thr' t0 polls c) = Ret false ->
      out_of (persist tk thr t0 polls c) = Ret false).
Proof.
  intros Hle. unfold persist, furi_get_tick, bind, emit, ret. cbn [app].
  generalize (U32.add (U32.wrap t0) (ticks tk SLOT_MS)). intros end_.
  assert (H : (out_of (persist_loop end_ thr polls c) = Ret true ->
               persist_loop end_ thr' polls c = persist_loop end_ thr polls c)
              /\ (out_of (persist_loop end_ thr' polls c) = Ret false ->
                  out_of (persist_loop end_ thr polls c) = Ret false)).
  { induction polls as [|p polls IH]; [split; [reflexivity | discriminate]|].
    cbn [persist_loop]. unfold furi_get_tick, bind, emit, ret. cbn [app].
    destruct (U32.wrap (poll_tick p) <? end_); [|split; [reflexivity | discriminate]].
    destruct (flt (poll_rssi p) thr') eqn:E'.
    - rewrite (Hle _ E'). split; [discriminate | reflexivity].
    - destruct (flt (poll_rssi p) thr) eqn:E; [split; [discriminate | reflexivity]|].
      destruct IH as [IH1 IH2]. unfold out_of in *.
      destruct (persist_loop end_ thr polls c) as [[r1 c1] e1].
      destruct (persist_loop end_ thr' polls c) as [[r2 c2] e2].
      cbn [fst snd] in *. split.
      + intros Hr. specialize (IH1 Hr). injection IH1 as -> -> ->. reflexivity.
      + exact IH2. }
  destruct H as [H1 H2]. unfold out_of in *.
  destruct (persist_loop end_ thr polls c) as [[r1 c1] e1].
  destruct (persist_loop end_ thr' polls c) as [[r2 c2] e2].
  cbn [fst snd] in *. split.
  - intros Hr. specialize (H1 Hr). injection H1 as -> -> ->. reflexivity.
  - exact H2.
Qed.

(** X5: an edge of the tick counter.  When [persist] is entered less than
    the slot length before the counter wraps, the deadline it computes has
    wrapped; while the counter has not, the loop is not entered and
    [persist] confirms any threshold without reading the radio. *)
Theorem persist_deadline_wraps (thr : F) t0 p polls (c : Ctx) :
  U32.modulus - ticks tk SLOT_MS <= U32.wrap t0 ->
  U32.wrap t0 <= U32.wrap (poll_tick p) ->
  persist tk thr t0 (p :: polls) c
  = (Ret true, c, [EvGetTick (U32.wrap t0); EvGetTick (U32.wrap (poll_tick p))]).
Proof.
  intros H0 H1. unfold persist, furi_get_tick, bind, emit, ret. cbn [persist_loop].
  unfold furi_get_tick, bind, emit, ret. cbn [app].
  assert (Hb : 0 <= ticks tk SLOT_MS < U32.modulus)
    by (apply Z.mod_pos_bound; reflexivity).
  assert (Hw : 0 <= U32.wrap t0 < U32.modulus)
    by (apply Z.mod_pos_bound; reflexivity).
  assert (He : U32.add (U32.wrap t0) (ticks tk SLOT_MS)
               = U32.wrap t0 + ticks tk SLOT_MS - U32.modulus).
  { unfold U32.add. unfold U32.wrap at 1.
    rewrite <- (Z.mod_small (U32.wrap t0 + ticks tk SLOT_MS - U32.modulus) U32.modulus)
      by lia.
    rewrite <- (Z_mod_plus_full (U32.wrap t0 + ticks tk SLOT_MS - U32.modulus) 1 U32.modulus).
    f_equal. lia. }
  rewrite He.
  destruct (U32.wrap (poll_tick p) <? U32.wrap t0 + ticks tk SLOT_MS - U32.modulus)
    eqn:E; [apply Z.ltb_lt in E; lia | reflexivity].
Qed.

(** ** Calibration *)

Lemma list_set_length A (l : list A) : forall n v, length (list_set l n v) = length l.
Proof.
  induction l as [|a l IH]; intros [|n] v; cbn [list_set length]; auto.
Qed.

Lemma list_set_firstn A (l : list A) : forall n v,
  (n < length l)%nat -> firstn (S n) (list_set l n v) = firstn n l ++ [v].
Proof.
  induction l as [|a l IH]; intros [|n] v H; cbn [length] in H; try lia.
  - reflexivity.
  - cbn [list_set]. rewrite !firstn_cons, IH by lia. reflexivity.
Qed.

Lemma calibrate_run n : forall i samples (c : Ctx),
  n = Z.to_nat (UP_NUM_CH - i) -> 0 <= i <= UP_NUM_CH ->
  length (baseline c) = Z.to_nat UP_NUM_CH ->
  (n <= length samples)%nat ->
  exists c' evs,
    calibrate i samples c = (Ret tt, c', evs)
    /\ baseline c' = firstn (Z.to_nat i) (baseline c) ++ firstn n samples
    /\ set_baseline [] c' = set_baseline [] c
    /\ tuned evs
       = map (fun k => U32.add UP_START_FREQ (U32.mul (Z.of_nat k) FREQ_STEP))
             (seq (Z.to_nat i) n)
    /\ sampled evs = firstn n samples
    /\ alerts evs = 0%nat.
Proof.
  induction n as [|n IH]; intros i samples c Hn Hi Hlen Hs.
  - assert (i = UP_NUM_CH) as -> by lia.
    exists c, []. replace (calibrate UP_NUM_CH samples c) with (@Ret unit tt, c, @nil Ev)
      by (destruct samples; reflexivity).
    split; [reflexivity|]. split.
    { cbn [firstn]. rewrite app_nil_r, <- Hlen. now rewrite firstn_all. }
    repeat split.
  - destruct samples as [|r samples]; [cbn [length] in Hs; lia|].
    assert (Hlt : i < UP_NUM_CH) by lia.
    cbn [calibrate]. apply Z.ltb_lt in Hlt. rewrite Hlt. apply Z.ltb_lt in Hlt.
    unfold read_rssi, furi_delay_ms, emit_delay. cbn [deliver].
    unfold bind, emit, ret, get, modify.
    assert (Hin : (i <? Z.of_nat (length (baseline c))) = true)
      by (apply Z.ltb_lt; rewrite Hlen; lia).
    rewrite Hin.
    destruct (IH (i + 1) samples
                (set_baseline (list_set (baseline c) (Z.to_nat i) r) c))
      as (c' & evs & E & Hb & Hrest & Ht & Hsm & Ha).
    + lia.
    + lia.
    + cbn [baseline set_baseline]. now rewrite list_set_length.
    + cbn [length] in Hs. lia.
    + rewrite E. do 2 eexists. split; [reflexivity|].
      cbn [baseline set_baseline] in Hb.
      replace (Z.to_nat (i + 1)) with (S (Z.to_nat i)) in Hb, Ht by lia.
      rewrite list_set_firstn in Hb by lia.
      split; [rewrite Hb, <- app_assoc; reflexivity|].
      split; [exact Hrest|]. cbn [app tuned sampled].
      split.
      { cbn [seq map]. rewrite Ht, Z2Nat.id by lia. reflexivity. }
      split; [cbn [firstn]; now rewrite Hsm | exact Ha].
Qed.

(** X6: calibration.  On a record of at least 201 samples it returns,
    tunes the sweep channels in ascending order, one sample each, stores the
    samples in that order as the baseline table, changes no other field and
    alerts nobody. *)
Theorem calibrate_fills_baseline samples (c : Ctx) :
  length (baseline c) = Z.to_nat UP_NUM_CH ->
  (Z.to_nat UP_NUM_CH <= length samples)%nat ->
  let '(r, c', evs) := calibrate 0 samples c in
  r = Ret tt
  /\ baseline c' = firstn (Z.to_nat UP_NUM_CH) samples
  /\ set_baseline [] c' = set_baseline [] c
  /\ tuned evs = sweep_channels
  /\ sampled evs = firstn (Z.to_nat UP_NUM_CH) samples
  /\ alerts evs = 0%nat.
Proof.
  intros Hlen Hs.
  destruct (@calibrate_run (Z.to_nat UP_NUM_CH) 0 samples c eq_refl)
    as (c' & evs & E & Hb & Hrest & Ht & Hsm & Ha);
    [unfold UP_NUM_CH; cbn; lia | exact Hlen | exact Hs |].
  rewrite E. repeat split; assumption.
Qed.

(** X7: the sweep channels are the 201 frequencies from 380 MHz to 385 MHz
    in steps of 25 kHz, the unsigned arithmetic never wraps on them, and the
    index of line 235 takes each of them back to its position. *)
Theorem sweep_channels_grid (k : nat) :
  (k < 201)%nat ->
  nth_error sweep_channels k = Some (380000000 + 25000 * Z.of_nat k)
  /\ lock_index (380000000 + 25000 * Z.of_nat k) = Z.of_nat k
  /\ length sweep_channels = 201%nat.
Proof.
  intros Hk. unfold sweep_channels.
  change (Z.to_nat UP_NUM_CH) with 201%nat.
  split; [|split].
  - rewrite nth_error_map, nth_error_seq.
    destruct (Nat.ltb_spec k 201) as [_|]; [|lia]. cbn [option_map Nat.add].
    f_equal. unfold U32.add, U32.mul, U32.wrap, U32.modulus, UP_START_FREQ, FREQ_STEP.
    rewrite (Z.mod_small (Z.of_nat k * 25000)) by lia.
    rewrite Z.mod_small by lia. lia.
  - unfold lock_index, U32.div, U32.sub, U32.wrap, U32.modulus, UP_START_FREQ, FREQ_STEP.
    replace (380000000 + 25000 * Z.of_nat k - 380000000) with (Z.of_nat k * 25000) by lia.
    rewrite Z.mod_small by lia. apply Z.div_mul. lia.
  - now rewrite length_map, length_seq.
Qed.

(** ** The main loop *)

Lemma main_states_keeps (P : Ctx -> Prop) :
  (forall it, keeps P (iteration tk it)) ->
  forall its c, P c -> Forall P (main_states tk its c).
Proof.
  intros Hk. induction its as [|it its IH]; intros c Hc; cbn [main_states].
  - destruct (exit c); constructor.
  - destruct (exit c); [constructor|].
    specialize (Hk it c Hc). unfold ctx_of in Hk.
    destruct (iteration tk it c) as [[[[]|h] c1] e1]; cbn [fst snd] in Hk.
    + constructor; [exact Hk | exact (IH c1 Hk)].
    + constructor; [exact Hk | constructor].
Qed.

(** X8: the baseline table is written by calibration only: through every
    run of the main loop, whatever the inputs, it stays as it is, after
    every turn and at the end. *)
Theorem baseline_immutable its (c : Ctx) :
  baseline (ctx_of (main_loop tk its c)) = baseline c
  /\ Forall (fun s => baseline s = baseline c) (main_states tk its c).
Proof.
  assert (Hin : forall e, keeps (fun x : Ctx => baseline x = baseline c) (input_cb e)).
  { intros e. destruct e as [[] []]; cbn [input_cb ev_type ev_key]; frame;
      apply keeps_modify; intros x H; exact H. }
  assert (Hst : lock_stable (fun x : Ctx => baseline x = baseline c)).
  { intros x H. repeat split; intros; exact H. }
  split.
  - apply (keeps_main_loop (P := fun x => baseline x = baseline c));
      [exact Hin | exact Hst | reflexivity].
  - apply main_states_keeps; [|reflexivity].
    intros it. apply keeps_iteration; [exact Hin | exact Hst].
Qed.

Lemma exit_sticky_input e : keeps (fun x : Ctx => exit x = true) (input_cb e).
Proof.
  destruct e as [[] []]; cbn [input_cb ev_type ev_key]; frame;
    apply keeps_modify; intros x H; try exact H; reflexivity.
Qed.

Lemma exit_sticky_stable : lock_stable (fun x : Ctx => exit x = true).
Proof. intros x H. repeat split; intros; exact H. Qed.

Lemma main_loop_ret_exit its : forall (c c' : Ctx) r evs,
  main_loop tk its c = (Ret r, c', evs) -> exit c' = true.
Proof.
  induction its as [|it its IH]; intros c c' r evs; cbn [main_loop];
    unfold bind at 1, get at 1.
  - destruct (exit c) eqn:E; [|discriminate]. intros H. injection H as _ <- _. exact E.
  - destruct (exit c) eqn:E.
    + intros H. injection H as _ <- _. exact E.
    + unfold bind. destruct (iteration tk it c) as [[[[]|h] c1] e1]; [|discriminate].
      destruct (main_loop tk its c1) as [[r2 c2] e2] eqn:E2.
      intros H. injection H as -> <- _. exact (IH _ _ _ _ E2).
Qed.

Lemma deliver_exit_sticky keys (c : Ctx) :
  exit c = true -> exit (ctx_of (deliver keys c)) = true.
Proof.
  intros H. apply (keeps_deliver (P := fun x => exit x = true));
    [exact exit_sticky_input | exact H].
Qed.

Lemma deliver_back_exit keys : forall c : Ctx,
  existsb is_back keys = true -> exit (ctx_of (deliver keys c)) = true.
Proof.
  induction keys as [|e keys IH]; intros c H; [discriminate|].
  rewrite deliver_cons. cbn [existsb] in H.
  destruct (is_back e) eqn:Eb.
  - assert (He : exit (ctx_of (input_cb e c)) = true).
    { destruct e as [[] []]; try discriminate Eb. reflexivity. }
    pose proof (deliver_exit_sticky keys _ He) as Hk. unfold ctx_of in *.
    destruct (deliver keys (snd (fst (input_cb e c)))) as [[r c2] e2]. exact Hk.
  - specialize (IH (ctx_of (input_cb e c)) H). unfold ctx_of in *.
    destruct (deliver keys (snd (fst (input_cb e c)))) as [[r c2] e2]. exact IH.
Qed.

(** X9: exit.  A request is never withdrawn: once [exit] is set it stays
    set through input and through the loop.  A press of Back sets it.  The
    main loop returns only on a request, and with the request already there
    it returns at once, with no tuning, no sample and no alert. *)
Theorem exit_request its (c : Ctx) :
  (forall keys, exit c = true -> exit (ctx_of (deliver keys c)) = true)
  /\ (forall keys, existsb is_back keys = true ->
                   exit (ctx_of (deliver keys c)) = true)
  /\ (exit c = true -> main_loop tk its c = (Ret tt, c, []))
  /\ (forall r, out_of (main_loop tk its c) = Ret r ->
                exit (ctx_of (main_loop tk its c)) = true).
Proof.
  split; [|split; [|split]].
  - intros keys. apply deliver_exit_sticky.
  - intros keys. apply deliver_back_exit.
  - intros H. destruct its; cbn [main_loop]; unfold bind, get; rewrite H; reflexivity.
  - intros r H. unfold out_of, ctx_of in *.
    destruct (main_loop tk its c) as [[r' c'] evs] eqn:E. cbn [fst snd] in *.
    subst r'. exact (main_loop_ret_exit _ _ E).
Qed.

(** X10: how the application returns.  It returns -1 exactly when bring-up
    failed, and 0 only on an exit request, after a log that starts with the
    five bring-up calls and ends with shutdown: view port removed, radio
    session ended, registry released, both records closed. *)
Theorem app_returns (b : Boot) its (c : Ctx) z :
  out_of (python_detector_app tk b its c) = Ret z ->
  (boots b = false /\ z = -1)
  \/ (boots b = true /\ z = 0
      /\ exit (ctx_of (python_detector_app tk b its c)) = true
      /\ exists body,
           log_of (python_detector_app tk b its c) = bring_up ++ body ++ teardown).
Proof.
  destruct b as [g n dv bg cal]. unfold boots, python_detector_app.
  cbn [gui_ok notif_ok device_ok begin_ok cal_rssi].
  destruct g, n, dv, bg; cbn [negb orb andb];
    try (unfold bind, emit, ret; cbn [out_of fst];
         intros H; injection H as <-; left; split; reflexivity).
  unfold bind, emit, ret. cbn [app].
  destruct (calibrate 0 cal c) as [[[[]|h] c1] e1]; [|discriminate].
  destruct (main_loop tk its c1) as [[[[]|h] c2] e2] eqn:E2; [|discriminate].
  cbn [out_of ctx_of log_of fst snd app]. intros H. injection H as <-.
  right. split; [reflexivity|]. split; [reflexivity|].
  split; [exact (main_loop_ret_exit _ _ E2)|].
  exists (e1 ++ EvViewPortAdd :: e2). unfold bring_up, teardown. cbn [app].
  rewrite <- !app_assoc. reflexivity.
Qed.

Lemma scan_loop_exit now cnt i ds (c : Ctx) :
  exit c = true -> scan_loop tk now cnt i ds c = (Ret tt, c, []).
Proof.
  intros H. destruct ds; cbn [scan_loop]; unfold bind, get;
    rewrite H, andb_false_r; reflexivity.
Qed.

(** X11: exit latency in a pass.  When Back is pressed during a dwell step,
    the pass makes no dwell step after it: what follows in the record is not
    used, at most one frequency is tuned, and unless the step locks or
    halts the pass returns with [exit] set. *)
Theorem back_ends_pass now cnt i d rest (c : Ctx) :
  (i <? cnt) && negb (exit c) = true ->
  existsb is_back (dwell_keys d) = true ->
  let '(r, c', evs) := scan_loop tk now cnt i (d :: rest) c in
  scan_loop tk now cnt i (d :: rest) c = scan_loop tk now cnt i [d] c
  /\ (length (tuned evs) <= 1)%nat
  /\ (forall r', r = Ret r' -> alerts evs = 0%nat -> exit c' = true).
Proof.
  intros Hc Hb. rewrite !scan_loop_cons, Hc.
  pose proof (wp_scan_dwell i d c) as Hd. apply wp_run in Hd.
  unfold out_of, ctx_of, log_of in Hd.
  destruct (scan_dwell tk i d c) as [[[[[f r0] pk]|h] c1] e1]; cbn [fst snd] in Hd.
  - destruct Hd as [_ [(_ & _ & h & Hh) | (f' & post & -> & Hq & Hc1 & _)]];
      [discriminate|].
    destruct (alerts_tune_passive f' Hq) as [Ha Ht].
    destruct pk.
    + split; [reflexivity|]. rewrite tuned_app, Ht. cbn [tuned app length].
      split; [lia|]. intros r' _ Hal.
      change (alerts ((EvSetFrequency f' :: post)
                        ++ [EvNotify sequence_audiovisual_alert]) = 0%nat) in Hal.
      rewrite alerts_app, Ha in Hal. discriminate Hal.
    + cbv zeta.
      assert (He : exit (ctx_of (deliver (d_keys_frame d)
                    (set_last_pk false (set_last_freq f (set_last_rssi r0 c1)))))
                   = true).
      { unfold dwell_keys in Hb. rewrite existsb_app in Hb.
        apply orb_true_iff in Hb as [Hb|Hb].
        - apply deliver_exit_sticky. cbn [exit set_last_pk set_last_freq set_last_rssi].
          rewrite Hc1. now apply deliver_back_exit.
        - now apply deliver_back_exit. }
      rewrite !scan_loop_exit by exact He.
      split; [reflexivity|]. rewrite !tuned_app, Ht.
      change (tuned (EvViewUpdate :: EvDelay FRAME_MS
                :: log_of (deliver (d_keys_frame d)
                     (set_last_pk false (set_last_freq f (set_last_rssi r0 c1)))) ++ []))
        with (tuned (log_of (deliver (d_keys_frame d)
                     (set_last_pk false (set_last_freq f (set_last_rssi r0 c1)))) ++ [])).
      rewrite tuned_app, (passive_tuned (silent_deliver _ _)). cbn [tuned app length].
      split; [lia|]. intros r' _ _. exact He.
  - split; [reflexivity|].
    destruct Hd as [_ [(-> & _) | (f' & post & -> & Hq & _)]].
    + cbn [tuned length]. split; [lia | discriminate].
    + rewrite (proj2 (alerts_tune_passive f' Hq)). cbn [length].
      split; [lia | discriminate].
Qed.

(** ** Dwell steps, unfolded *)

Lemma bind_run A B (m : Mon A) (k : A -> Mon B) (c : Ctx) :
  bind m k c
  = match m c with
    | (Ret a, c1, e1) => let '(r, c2, e2) := k a c1 in (r, c2, e1 ++ e2)
    | (Halt h, c1, e1) => (Halt h, c1, e1)
    end.
Proof.
  unfold bind. destruct (m c) as [[[a|h] c1] e1]; [|reflexivity].
  destruct (k a c1) as [[r c2] e2]. reflexivity.
Qed.

Lemma read_rssi_eq freq r keys (c : Ctx) :
  read_rssi freq r keys c
  = (Ret r, ctx_of (deliver keys c),
     EvSetFrequency freq :: EvDelay CAL_DELAY_MS :: log_of (deliver keys c)
       ++ [EvGetRssi r]).
Proof.
  unfold read_rssi, furi_delay_ms, bind, emit, ret.
  pose proof (deliver_ret keys c) as Hr. unfold out_of, ctx_of, log_of in *.
  destruct (deliver keys c) as [[rd c1] ed]. cbn [fst snd] in *. subst rd.
  cbn [app]. rewrite ?app_nil_r. reflexivity.
Qed.

Lemma furi_delay_ms_eq ms keys (c : Ctx) :
  furi_delay_ms ms keys c
  = (Ret tt, ctx_of (deliver keys c), EvDelay ms :: log_of (deliver keys c)).
Proof.
  unfold furi_delay_ms, bind, emit.
  pose proof (deliver_ret keys c) as Hr. unfold out_of, ctx_of, log_of in *.
  destruct (deliver keys c) as [[rd c1] ed]. cbn [fst snd] in *. subst rd.
  reflexivity.
Qed.

Ltac dwell_tail c1 :=
  rewrite bind_run;
  match goal with
  | |- context [if flt ?thr ?r0 then persist tk ?thr ?t0 ?polls else ret false] =>
      destruct (flt thr r0);
      [ let Hc := fresh "Hc" in
        pose proof (persist_ctx thr t0 polls c1) as Hc; unfold ctx_of in Hc;
        destruct (persist tk thr t0 polls c1) as [[[] ?cp] ?ep];
        cbn [fst snd] in Hc; subst
      | ]
  end;
  unfold ret; cbv beta iota; cbn [app]; rewrite ?app_nil_r; reflexivity.

Lemma scan_dwell_eq i d (c : Ctx) :
  scan_dwell tk i d c
  = match pass_freq (free_scan c) i with
    | None => (Halt (OutOfBounds ArrStaticFreqs i), c, [])
    | Some freq =>
        let c1 := ctx_of (deliver (d_keys_tune d) c) in
        let e1 := EvSetFrequency freq :: EvDelay CAL_DELAY_MS
                    :: log_of (deliver (d_keys_tune d) c) ++ [EvGetRssi (d_rssi d)] in
        match pass_base c1 i with
        | None => (Halt (OutOfBounds ArrBaseline i), c1, e1)
        | Some base =>
            let thr := scan_threshold base (sens c1) in
            if flt thr (d_rssi d) then
              match persist tk thr (d_tick0 d) (d_polls d) c1 with
              | (Ret pk, _, ep) => (Ret (freq, d_rssi d, pk), c1, e1 ++ ep)
              | (Halt h, _, ep) => (Halt h, c1, e1 ++ ep)
              end
            else (Ret (freq, d_rssi d, false), c1, e1)
        end
    end.
Proof.
  assert (Hgo : forall freq,
    (r0 <- read_rssi freq (d_rssi d) (d_keys_tune d);;
     c <- get;;
     base <- (if free_scan c
              then arr_get ArrBaseline (baseline c) i
              else ret MIN_RSSI_DBM);;
     let thr := scan_threshold base (sens c) in
     pk <- (if flt thr r0 then persist tk thr (d_tick0 d) (d_polls d)
            else ret false);;
     ret (freq, r0, pk)) c
    = let c1 := ctx_of (deliver (d_keys_tune d) c) in
      let e1 := EvSetFrequency freq :: EvDelay CAL_DELAY_MS
                  :: log_of (deliver (d_keys_tune d) c) ++ [EvGetRssi (d_rssi d)] in
      match pass_base c1 i with
      | None => (Halt (OutOfBounds ArrBaseline i), c1, e1)
      | Some base =>
          let thr := scan_threshold base (sens c1) in
          if flt thr (d_rssi d) then
            match persist tk thr (d_tick0 d) (d_polls d) c1 with
            | (Ret pk, _, ep) => (Ret (freq, d_rssi d, pk), c1, e1 ++ ep)
            | (Halt h, _, ep) => (Halt h, c1, e1 ++ ep)
            end
          else (Ret (freq, d_rssi d, false), c1, e1)
      end).
  { intros freq. rewrite bind_run, read_rssi_eq. cbv beta iota zeta.
    set (c1 := ctx_of (deliver (d_keys_tune d) c)).
    set (e1 := EvSetFrequency freq :: EvDelay CAL_DELAY_MS
                 :: log_of (deliver (d_keys_tune d) c) ++ [EvGetRssi (d_rssi d)]).
    rewrite bind_run. unfold get at 1. cbv beta iota.
    rewrite bind_run. unfold pass_base, table_read, arr_get.
    destruct (free_scan c1).
    - destruct (i <? 0).
      + unfold stop. cbv beta iota. rewrite ?app_nil_r. reflexivity.
      + destruct (nth_error (baseline c1) (Z.to_nat i)) as [base|].
        * unfold ret at 1. cbv beta iota zeta. dwell_tail c1.
        * unfold stop. cbv beta iota. rewrite ?app_nil_r. reflexivity.
    - unfold ret at 1. cbv beta iota zeta. dwell_tail c1. }
  unfold scan_dwell, pass_freq. rewrite bind_run. unfold get at 1. cbv beta iota.
  rewrite bind_run. destruct (free_scan c).
  - unfold ret at 1. cbv beta iota zeta.
    pose proof (Hgo (U32.add UP_START_FREQ (U32.mul i FREQ_STEP))) as Hg.
    cbv zeta in Hg. rewrite Hg.
    destruct (pass_base _ i); [|reflexivity].
    destruct (flt _ _); [|reflexivity].
    destruct (persist _ _ _ _ _) as [[[] ?] ?]; reflexivity.
  - unfold arr_get at 1. destruct (i <? 0); [reflexivity|].
    destruct (nth_error STATIC_FREQS (Z.to_nat i)) as [freq|]; [|reflexivity].
    unfold ret at 1. cbv beta iota zeta.
    pose proof (Hgo freq) as Hg. cbv zeta in Hg. rewrite Hg.
    destruct (pass_base _ i); [|reflexivity].
    destruct (flt _ _); [|reflexivity].
    destruct (persist _ _ _ _ _) as [[[] ?] ?]; reflexivity.
Qed.

Ltac lock_rest :=
  cbv beta iota;
  rewrite bind_run; unfold modify at 1; cbv beta iota;
  rewrite bind_run; unfold emit at 1; cbv beta iota;
  rewrite furi_delay_ms_eq; cbn [app]; rewrite ?app_nil_r; reflexivity.

Ltac lock_tail_true :=
  cbv beta iota; rewrite bind_run; unfold modify at 1; lock_rest.

Ltac lock_tail_false :=
  cbv beta iota; rewrite bind_run; rewrite bind_run; unfold get at 1;
  cbv beta iota;
  match goal with
  | |- context [if ?b then modify (set_locked false) else ret tt] => destruct b
  end;
  [unfold modify at 1 | unfold ret at 1]; lock_rest.

Ltac lock_peak c1 :=
  rewrite bind_run;
  match goal with
  | |- context [if flt ?thr ?r0 then persist tk ?thr ?t0 ?polls else ret false] =>
      destruct (flt thr r0);
      [ let Hc := fresh "Hc" in
        pose proof (persist_ctx thr t0 polls c1) as Hc; unfold ctx_of in Hc;
        destruct (persist tk thr t0 polls c1) as [[[[]|] ?cp] ?ep];
        cbn [fst snd] in Hc; subst;
        [ lock_tail_true | lock_tail_false
        | cbv beta iota; cbn [app]; rewrite ?app_nil_r; reflexivity ]
      | unfold ret at 1; lock_tail_false ]
  end.

Lemma locked_step_eq now d (c : Ctx) :
  locked_step tk now d c
  = let freq := last_freq c in
    let c1 := ctx_of (deliver (d_keys_tune d) c) in
    let e1 := EvSetFrequency freq :: EvDelay CAL_DELAY_MS
                :: log_of (deliver (d_keys_tune d) c) ++ [EvGetRssi (d_rssi d)] in
    match lock_base c1 freq with
    | None => (Halt (OutOfBounds ArrBaseline (lock_index freq)), c1, e1)
    | Some base =>
        let thr := lock_threshold base (sens c1) in
        match (if flt thr (d_rssi d)
               then persist tk thr (d_tick0 d) (d_polls d) c1
               else (Ret false, c1, [])) with
        | (Halt h, _, ep) => (Halt h, c1, e1 ++ ep)
        | (Ret pk, _, ep) =>
            let c2 := if pk then set_lock_start now c1
                      else if ticks tk LOCK_HOLD_MS <? U32.sub now (lock_start c1)
                           then set_locked false c1 else c1 in
            let c3 := set_last_pk pk
                        (set_last_freq freq (set_last_rssi (d_rssi d) c2)) in
            (Ret tt, ctx_of (deliver (d_keys_frame d) c3),
             e1 ++ ep ++ EvViewUpdate :: EvDelay FRAME_MS
                :: log_of (deliver (d_keys_frame d) c3))
        end
    end.
Proof.
  unfold locked_step. rewrite bind_run. unfold get at 1. cbv beta iota zeta.
  rewrite bind_run, read_rssi_eq. cbv beta iota.
  set (c1 := ctx_of (deliver (d_keys_tune d) c)).
  set (e1 := EvSetFrequency (last_freq c) :: EvDelay CAL_DELAY_MS
               :: log_of (deliver (d_keys_tune d) c) ++ [EvGetRssi (d_rssi d)]).
  rewrite bind_run. unfold get at 1. cbv beta iota.
  rewrite bind_run. unfold lock_base, table_read, lock_index, arr_get.
  destruct (free_scan c1).
  - destruct (U32.div (U32.sub (last_freq c) UP_START_FREQ) FREQ_STEP <? 0).
    + unfold stop. cbv beta iota. cbn [app]. rewrite ?app_nil_r. reflexivity.
    + destruct (nth_error (baseline c1) _) as [base|].
      * unfold ret at 1. cbv beta iota. lock_peak c1.
      * unfold stop. cbv beta iota. cbn [app]. rewrite ?app_nil_r. reflexivity.
  - unfold ret at 1. cbv beta iota. lock_peak c1.
Qed.


(** ** Passes without a change of scan mode *)

Lemma deliver_no_left keys : forall c : Ctx,
  Forall (fun e => is_left e = false) keys ->
  free_scan (ctx_of (deliver keys c)) = free_scan c.
Proof.
  induction keys as [|e keys IH]; intros c H; [reflexivity|].
  inversion H as [|? ? He Hk]; subst. rewrite deliver_cons.
  specialize (IH (ctx_of (input_cb e c)) Hk).
  assert (Hi : free_scan (ctx_of (input_cb e c)) = free_scan c).
  { destruct e as [[] []]; try reflexivity. discriminate He. }
  unfold ctx_of in *.
  destruct (deliver keys (snd (fst (input_cb e c)))) as [[r c2] e2].
  cbn [fst snd] in *. congruence.
Qed.

Lemma persist_halt thr t0 polls (c : Ctx) h :
  out_of (persist tk thr t0 polls c) = Halt h -> h = NeedPoll.
Proof.
  unfold persist, furi_get_tick, bind, emit, ret. cbn [app].
  destruct (persist_loop_run (U32.add (U32.wrap t0) (ticks tk SLOT_MS)) thr polls c)
    as (r & evs & E & _ & Hr).
  rewrite E. cbn [out_of fst]. intros ->. exact (proj1 Hr).
Qed.

Lemma sweep_freq_plain k :
  0 <= k < UP_NUM_CH ->
  U32.add UP_START_FREQ (U32.mul k FREQ_STEP) = 380000000 + 25000 * k.
Proof.
  intros H. change UP_NUM_CH with 201 in H.
  unfold U32.add, U32.mul, U32.wrap, U32.modulus, UP_START_FREQ, FREQ_STEP.
  rewrite (Z.mod_small (k * 25000)) by lia. rewrite Z.mod_small by lia. lia.
Qed.

Lemma lock_index_sweep k :
  0 <= k < UP_NUM_CH ->
  lock_index (U32.add UP_START_FREQ (U32.mul k FREQ_STEP)) = k.
Proof.
  intros H. rewrite sweep_freq_plain by exact H. change UP_NUM_CH with 201 in H.
  unfold lock_index, U32.div, U32.sub, U32.wrap, U32.modulus, UP_START_FREQ, FREQ_STEP.
  replace (380000000 + 25000 * k - 380000000) with (k * 25000) by lia.
  rewrite Z.mod_small by lia. apply Z.div_mul. lia.
Qed.

Lemma sweep_nth i :
  0 <= i < UP_NUM_CH ->
  nth_error sweep_channels (Z.to_nat i)
  = Some (U32.add UP_START_FREQ (U32.mul i FREQ_STEP)).
Proof.
  intros H. unfold sweep_channels. rewrite nth_error_map, nth_error_seq.
  destruct (Nat.ltb_spec (Z.to_nat i) (Z.to_nat UP_NUM_CH)) as [_|]; [|lia].
  cbn [option_map Nat.add]. now rewrite Z2Nat.id by lia.
Qed.

Lemma sweep_length : length sweep_channels = Z.to_nat UP_NUM_CH.
Proof. unfold sweep_channels. now rewrite length_map, length_seq. Qed.

Lemma cnt_length (fs : bool) :
  (if fs then UP_NUM_CH else STATIC_CH) = Z.of_nat (length (channel_list fs)).
Proof. destruct fs; cbn [channel_list]; [rewrite sweep_length|]; reflexivity. Qed.

Lemma pass_freq_nth (fs : bool) i :
  0 <= i < Z.of_nat (length (channel_list fs)) ->
  exists f, pass_freq fs i = Some f
            /\ nth_error (channel_list fs) (Z.to_nat i) = Some f.
Proof.
  intros H. unfold pass_freq. destruct fs; cbn [channel_list] in *.
  - rewrite sweep_length in H. eexists. split; [reflexivity|].
    apply sweep_nth. lia.
  - destruct (i <? 0) eqn:E; [apply Z.ltb_lt in E; lia|].
    destruct (nth_error STATIC_FREQS (Z.to_nat i)) as [f|] eqn:En; [eauto|].
    apply nth_error_None in En. lia.
Qed.

Lemma skipn_nth A (l : list A) : forall n x,
  nth_error l n = Some x -> skipn n l = x :: skipn (S n) l.
Proof.
  induction l as [|a l IH]; intros [|n] x H; try discriminate.
  - injection H as ->. reflexivity.
  - cbn [nth_error] in H. exact (IH n x H).
Qed.

(** A scanning dwell step whose two array reads are in range. *)
Lemma scan_dwell_in_range i d (c : Ctx) f base :
  pass_freq (free_scan c) i = Some f ->
  pass_base (ctx_of (deliver (d_keys_tune d) c)) i = Some base ->
  exists r ev,
    scan_dwell tk i d c = (r, ctx_of (deliver (d_keys_tune d) c), ev)
    /\ tuned ev = [f] /\ alerts ev = 0%nat /\ faulted r = false
    /\ match r with
       | Ret (f', r0, _) => f' = f /\ r0 = d_rssi d
       | Halt _ => True
       end.
Proof.
  intros Hf Hb. rewrite scan_dwell_eq, Hf. cbv zeta. rewrite Hb.
  set (c1 := ctx_of (deliver (d_keys_tune d) c)).
  assert (He1 : Forall (fun e : Ev => passive e = true)
                  (EvDelay CAL_DELAY_MS :: log_of (deliver (d_keys_tune d) c)
                     ++ [EvGetRssi (d_rssi d)])).
  { constructor; [reflexivity|]. apply Forall_app. split;
      [apply silent_deliver | repeat constructor]. }
  destruct (flt (scan_threshold base (sens c1)) (d_rssi d)).
  - destruct (persist_run (scan_threshold base (sens c1)) (d_tick0 d) (d_polls d) c1)
      as (rp & ep & Ep & Hq & _).
    pose proof (@persist_halt (scan_threshold base (sens c1)) (d_tick0 d)
                  (d_polls d) c1) as Hh.
    rewrite Ep in *. cbn [out_of fst] in Hh.
    assert (Hall : Forall (fun e : Ev => passive e = true)
                     ((EvDelay CAL_DELAY_MS :: log_of (deliver (d_keys_tune d) c)
                         ++ [EvGetRssi (d_rssi d)]) ++ ep))
      by (apply Forall_app; split; assumption).
    destruct (alerts_tune_passive f Hall) as [Ha Ht].
    destruct rp as [pk|h]; do 2 eexists; (split; [reflexivity|]);
      (split; [exact Ht|]); (split; [exact Ha|]).
    + split; [reflexivity | split; reflexivity].
    + split; [|exact I]. now rewrite (Hh h eq_refl).
  - destruct (alerts_tune_passive f He1) as [Ha Ht].
    do 2 eexists. split; [reflexivity|]. split; [exact Ht|]. split; [exact Ha|].
    split; [reflexivity | split; reflexivity].
Qed.

Lemma scan_loop_sequence ds : forall fs i (c : Ctx) now,
  free_scan c = fs -> 0 <= i -> no_toggle ds ->
  length (baseline c) = Z.to_nat UP_NUM_CH ->
  let chans := channel_list fs in
  let '(r, c', evs) := scan_loop tk now (Z.of_nat (length chans)) i ds c in
  faulted r = false /\ free_scan c' = fs /\ baseline c' = baseline c
  /\ (exists n, tuned evs = firstn n (skipn (Z.to_nat i) chans))
  /\ (r = Ret tt -> alerts evs = 0%nat -> exit c' = false ->
      tuned evs = skipn (Z.to_nat i) chans)
  /\ (alerts evs <> 0%nat -> locked c' = true /\ In (last_freq c') chans)
  /\ (alerts evs = 0%nat -> locked c' = locked c).
Proof.
  induction ds as [|d ds IH]; intros fs i c now Hfs Hi Hnt Hlen chans.
  - rewrite scan_loop_nil.
    destruct ((i <? Z.of_nat (length chans)) && negb (exit c)) eqn:Ec.
    + split; [reflexivity|]. split; [exact Hfs|]. split; [reflexivity|].
      split; [exists 0%nat; reflexivity|]. split; [discriminate|].
      split; [intros H; now contradiction H | reflexivity].
    + split; [reflexivity|]. split; [exact Hfs|]. split; [reflexivity|].
      split; [exists 0%nat; reflexivity|].
      split; [|split; [intros H; now contradiction H | reflexivity]].
      intros _ _ Hex. rewrite Hex, andb_true_r in Ec. apply Z.ltb_ge in Ec.
      cbn [tuned]. symmetry. apply skipn_all2. lia.
  - unfold no_toggle in Hnt. apply Forall_cons_iff in Hnt as [Hd Hds].
    unfold dwell_keys in Hd. apply Forall_app in Hd as [Hkt Hkf].
    rewrite scan_loop_cons.
    destruct ((i <? Z.of_nat (length chans)) && negb (exit c)) eqn:Ec.
    2:{ split; [reflexivity|]. split; [exact Hfs|]. split; [reflexivity|].
        split; [exists 0%nat; reflexivity|].
        split; [|split; [intros H; now contradiction H | reflexivity]].
        intros _ _ Hex. rewrite Hex, andb_true_r in Ec. apply Z.ltb_ge in Ec.
        cbn [tuned]. symmetry. apply skipn_all2. lia. }
    apply andb_true_iff in Ec as [Ei Eex]. apply Z.ltb_lt in Ei.
    destruct (@pass_freq_nth fs i) as (f & Hpf & Hnth); [subst chans; lia|].
    pose proof (@deliver_no_left _ c Hkt) as Hfs1.
    destruct (deliver_fields (d_keys_tune d) c) as (L1 & _ & _ & _ & _ & L6).
    cbv zeta in L1, L6.
    set (c1 := ctx_of (deliver (d_keys_tune d) c)) in *.
    assert (Hbase : exists base, pass_base c1 i = Some base).
    { unfold pass_base, table_read. rewrite Hfs1, Hfs. destruct fs; [|eauto].
      destruct (i <? 0) eqn:E; [apply Z.ltb_lt in E; lia|].
      destruct (nth_error (baseline c1) (Z.to_nat i)) as [b|] eqn:En; [eauto|].
      apply nth_error_None in En. rewrite L6, Hlen in En.
      subst chans. cbn [channel_list] in Ei. rewrite sweep_length in Ei. lia. }
    destruct Hbase as (base & Hbase).
    rewrite <- Hfs in Hpf.
    destruct (scan_dwell_in_range i d c Hpf Hbase) as (r & ev & E & Ht & Ha & Hfl & Hr).
    fold c1 in E. rewrite E.
    pose proof (skipn_nth _ _ Hnth) as Hsk. fold chans in Hsk.
    destruct r as [[[f' r0] pk]|h].
    2:{ split; [exact Hfl|]. split; [congruence|]. split; [exact L6|].
        split; [exists 1%nat; rewrite Ht, Hsk; reflexivity|].
        split; [discriminate|]. split; [intros H; now contradiction H|].
        intros _. exact L1. }
    destruct Hr as [-> ->]. destruct pk.
    + split; [reflexivity|]. split; [cbn; congruence|]. split; [exact L6|].
      rewrite tuned_app, Ht, alerts_app, Ha. cbn [tuned app].
      split; [exists 1%nat; rewrite Hsk; reflexivity|].
      split; [intros _ H; discriminate H|].
      split; [|intros H; discriminate H].
      intros _. split; [reflexivity|]. cbn [last_freq set_last_freq].
      exact (nth_error_In _ _ Hnth).
    + cbv zeta.
      set (c2 := set_last_pk false (set_last_freq f (set_last_rssi (d_rssi d) c1))).
      pose proof (@deliver_no_left _ c2 Hkf) as Hfs3.
      destruct (deliver_fields (d_keys_frame d) c2) as (M1 & _ & _ & _ & _ & M6).
      cbv zeta in M1, M6.
      set (c3 := ctx_of (deliver (d_keys_frame d) c2)) in *.
      assert (Hfs3' : free_scan c3 = fs) by (rewrite Hfs3; cbn; congruence).
      assert (Hlen3 : length (baseline c3) = Z.to_nat UP_NUM_CH)
        by (rewrite M6; change (baseline c2) with (baseline c1); rewrite L6; exact Hlen).
      specialize (IH fs (i + 1) c3 now Hfs3' ltac:(lia) Hds Hlen3).
      cbv zeta in IH. fold chans in IH.
      destruct (scan_loop tk now (Z.of_nat (length chans)) (i + 1) ds c3)
        as [[r4 c4] e4].
      destruct IH as (I1 & I2 & I3 & (n & I4) & I5 & I6 & I7).
      replace (Z.to_nat (i + 1)) with (S (Z.to_nat i)) in I4, I5 by lia.
      assert (Hmid : Forall (fun e : Ev => passive e = true)
                       (EvViewUpdate :: EvDelay FRAME_MS
                          :: log_of (deliver (d_keys_frame d) c2))).
      { constructor; [reflexivity|]. constructor; [reflexivity|].
        apply silent_deliver. }
      assert (Htall : tuned (ev ++ EvViewUpdate :: EvDelay FRAME_MS
                               :: log_of (deliver (d_keys_frame d) c2) ++ e4)
                      = f :: tuned e4).
      { change (EvViewUpdate :: EvDelay FRAME_MS
                  :: log_of (deliver (d_keys_frame d) c2) ++ e4)
          with ((EvViewUpdate :: EvDelay FRAME_MS
                   :: log_of (deliver (d_keys_frame d) c2)) ++ e4).
        rewrite !tuned_app, Ht, (passive_tuned Hmid). reflexivity. }
      assert (Haall : alerts (ev ++ EvViewUpdate :: EvDelay FRAME_MS
                                :: log_of (deliver (d_keys_frame d) c2) ++ e4)
                      = alerts e4).
      { change (EvViewUpdate :: EvDelay FRAME_MS
                  :: log_of (deliver (d_keys_frame d) c2) ++ e4)
          with ((EvViewUpdate :: EvDelay FRAME_MS
                   :: log_of (deliver (d_keys_frame d) c2)) ++ e4).
        rewrite !alerts_app, Ha, (passive_alerts Hmid). reflexivity. }
      rewrite Htall, Haall.
      split; [exact I1|]. split; [exact I2|].
      split; [rewrite I3, M6; change (baseline c2) with (baseline c1); exact L6|].
      split; [exists (S n); rewrite Hsk, I4; reflexivity|].
      split; [intros H1 H2 H3; rewrite Hsk, (I5 H1 H2 H3); reflexivity|].
      split; [exact I6|].
      intros H. rewrite (I7 H), M1. change (locked c2) with (locked c1). exact L1.
Qed.

(** X12: channel sequencing.  In a pass during which Left is not pressed no
    array index is out of range, the scan mode stays, the frequencies tuned
    are an initial part of the channel list of that mode, in its order; a
    pass that returns without detection and without an exit request has
    tuned the whole list, and a lock is taken on a frequency of the list. *)
Theorem pass_follows_channel_list now ds (c : Ctx) :
  no_toggle ds ->
  length (baseline c) = Z.to_nat UP_NUM_CH ->
  let chans := channel_list (free_scan c) in
  let '(r, c', evs) := scan_pass tk now ds c in
  faulted r = false /\ free_scan c' = free_scan c
  /\ (exists n, tuned evs = firstn n chans)
  /\ (r = Ret tt -> alerts evs = 0%nat -> exit c' = false -> tuned evs = chans)
  /\ (alerts evs <> 0%nat -> locked c' = true /\ In (last_freq c') chans).
Proof.
  intros Hnt Hlen chans. unfold scan_pass. rewrite bind_run. unfold get at 1.
  cbv beta iota. rewrite cnt_length. fold chans.
  pose proof (@scan_loop_sequence ds (free_scan c) 0 c now eq_refl (Z.le_refl 0)
                Hnt Hlen) as H.
  cbv zeta in H. fold chans in H.
  destruct (scan_loop tk now (Z.of_nat (length chans)) 0 ds c) as [[r c'] evs].
  cbn [app]. cbn [Z.to_nat skipn] in H. tauto.
Qed.

(** ** Array reads without a change of scan mode *)

Lemma lock_index_nonneg freq : 0 <= lock_index freq.
Proof.
  unfold lock_index, U32.div, U32.sub, U32.wrap, FREQ_STEP.
  apply Z.div_pos; [|lia]. apply Z.mod_pos_bound. reflexivity.
Qed.

Lemma iteration_locked it (c : Ctx) :
  locked c = true ->
  iteration tk it c
  = match it_dwells it with
    | [] => (Halt NeedDwell, c, [EvGetTick (U32.wrap (it_now it))])
    | d :: _ =>
        let '(r, c', e) := locked_step tk (U32.wrap (it_now it)) d c in
        (r, c', EvGetTick (U32.wrap (it_now it)) :: e)
    end.
Proof.
  intros L. unfold iteration, furi_get_tick. rewrite bind_run.
  rewrite bind_run. unfold emit at 1. cbv beta iota. unfold ret at 1.
  cbv beta iota. rewrite bind_run. unfold get at 1. cbv beta iota. rewrite L.
  destruct (it_dwells it) as [|d ds]; [reflexivity|].
  destruct (locked_step tk (U32.wrap (it_now it)) d c) as [[r c'] e].
  reflexivity.
Qed.

Lemma persist_or_skip (go : bool) thr t0 polls (c : Ctx) :
  exists rp cp ep,
    (if go then persist tk thr t0 polls c else (Ret false, c, [])) = (rp, cp, ep)
    /\ forall h, rp = Halt h -> h = NeedPoll.
Proof.
  destruct go.
  - pose proof (@persist_halt thr t0 polls c) as Hh.
    destruct (persist tk thr t0 polls c) as [[rp cp] ep]. cbn [out_of fst] in Hh.
    exists rp, cp, ep. split; [reflexivity | exact Hh].
  - do 3 eexists. split; [reflexivity | discriminate].
Qed.

Lemma locked_step_safe now d (c : Ctx) :
  Forall (fun e => is_left e = false) (dwell_keys d) ->
  safe c -> locked c = true ->
  let '(r, c', _) := locked_step tk now d c in
  faulted r = false /\ safe c'.
Proof.
  intros Hd [Hlen Hband] L. unfold dwell_keys in Hd.
  apply Forall_app in Hd as [Hkt Hkf].
  rewrite locked_step_eq. cbv zeta.
  pose proof (@deliver_no_left _ c Hkt) as Hfs1.
  destruct (deliver_fields (d_keys_tune d) c) as (L1 & _ & L3 & _ & _ & L6).
  cbv zeta in L1, L3, L6.
  set (c1 := ctx_of (deliver (d_keys_tune d) c)) in *.
  assert (Hs1 : safe c1).
  { split; [rewrite L6; exact Hlen|]. rewrite Hfs1, L3. intros H _. auto. }
  assert (Hbase : exists base, lock_base c1 (last_freq c) = Some base).
  { unfold lock_base, table_read. rewrite Hfs1.
    destruct (free_scan c) eqn:Efs; [|eauto].
    pose proof (lock_index_nonneg (last_freq c)) as H0.
    specialize (Hband eq_refl L).
    destruct (lock_index (last_freq c) <? 0) eqn:E; [apply Z.ltb_lt in E; lia|].
    destruct (nth_error (baseline c1) (Z.to_nat (lock_index (last_freq c))))
      as [b|] eqn:En; [eauto|].
    apply nth_error_None in En. rewrite L6, Hlen in En. lia. }
  destruct Hbase as (base & ->).
  destruct (persist_or_skip (flt (lock_threshold base (sens c1)) (d_rssi d))
              (lock_threshold base (sens c1)) (d_tick0 d) (d_polls d) c1)
    as (rp & cp & ep & -> & Hh).
  destruct rp as [pk|h].
  2:{ split; [now rewrite (Hh h eq_refl) | exact Hs1]. }
  split; [reflexivity|].
  set (c2 := if pk then set_lock_start now c1
             else if ticks tk LOCK_HOLD_MS <? U32.sub now (lock_start c1)
                  then set_locked false c1 else c1).
  set (c3 := set_last_pk pk (set_last_freq (last_freq c)
                               (set_last_rssi (d_rssi d) c2))).
  assert (H2 : baseline c2 = baseline c1 /\ free_scan c2 = free_scan c1).
  { unfold c2. destruct pk; [split; reflexivity|].
    destruct (ticks tk LOCK_HOLD_MS <? U32.sub now (lock_start c1));
      split; reflexivity. }
  pose proof (@deliver_no_left _ c3 Hkf) as Hfs3.
  destruct (deliver_fields (d_keys_frame d) c3) as (_ & _ & M3 & _ & _ & M6).
  cbv zeta in M3, M6. split.
  - rewrite M6. change (baseline c3) with (baseline c2).
    rewrite (proj1 H2), L6. exact Hlen.
  - rewrite Hfs3, M3. change (free_scan c3) with (free_scan c2).
    change (last_freq c3) with (last_freq c). rewrite (proj2 H2), Hfs1.
    intros H _. destruct Hs1 as [_ Hb1]. rewrite Hfs1, L1, L3 in Hb1. auto.
Qed.

Lemma scan_pass_safe now ds (c : Ctx) :
  no_toggle ds -> safe c -> locked c = false ->
  let '(r, c', _) := scan_loop tk now
                       (if free_scan c then UP_NUM_CH else STATIC_CH) 0 ds c in
  faulted r = false /\ safe c'.
Proof.
  intros Hnt [Hlen _] L. rewrite cnt_length.
  pose proof (@scan_loop_sequence ds (free_scan c) 0 c now eq_refl (Z.le_refl 0)
                Hnt Hlen) as H.
  cbv zeta in H.
  destruct (scan_loop tk now (Z.of_nat (length (channel_list (free_scan c)))) 0 ds c)
    as [[r c'] evs].
  destruct H as (H1 & H2 & H3 & _ & _ & H6 & H7).
  split; [exact H1|]. split; [rewrite H3; exact Hlen|].
  intros Hfs Hl. rewrite H2 in Hfs.
  destruct (Nat.eq_dec (alerts evs) 0) as [Ha|Ha].
  - rewrite (H7 Ha), L in Hl. discriminate.
  - destruct (H6 Ha) as [_ Hin]. rewrite Hfs in Hin. cbn [channel_list] in Hin.
    apply In_nth_error in Hin as [k Hk].
    assert (Hlt : (k < Z.to_nat UP_NUM_CH)%nat).
    { rewrite <- sweep_length. apply nth_error_Some. congruence. }
    pose proof (@sweep_nth (Z.of_nat k) ltac:(lia)) as Hs.
    rewrite Nat2Z.id, Hk in Hs. injection Hs as ->.
    rewrite lock_index_sweep by lia. lia.
Qed.

Lemma iteration_safe it (c : Ctx) :
  no_toggle (it_dwells it) -> safe c ->
  let '(r, c', _) := iteration tk it c in faulted r = false /\ safe c'.
Proof.
  intros Hnt Hs. destruct (locked c) eqn:L.
  - rewrite iteration_locked by exact L.
    destruct (it_dwells it) as [|d ds]; [split; [reflexivity | exact Hs]|].
    unfold no_toggle in Hnt. apply Forall_cons_iff in Hnt as [Hd _].
    pose proof (@locked_step_safe (U32.wrap (it_now it)) d c Hd Hs L) as H.
    destruct (locked_step tk (U32.wrap (it_now it)) d c) as [[r c'] e]. exact H.
  - rewrite iteration_scanning by exact L.
    pose proof (@scan_pass_safe (U32.wrap (it_now it)) (it_dwells it) c Hnt Hs L) as H.
    destruct (scan_loop tk (U32.wrap (it_now it))
                (if free_scan c then UP_NUM_CH else STATIC_CH) 0 (it_dwells it) c)
      as [[r c'] e]. exact H.
Qed.

Lemma main_loop_nil (c : Ctx) :
  main_loop tk [] c
  = if exit c then (Ret tt, c, []) else (Halt NeedIter, c, []).
Proof.
  cbn [main_loop]. unfold bind, get. destruct (exit c); reflexivity.
Qed.

Lemma main_loop_cons it its (c : Ctx) :
  main_loop tk (it :: its) c
  = if exit c then (Ret tt, c, [])
    else match iteration tk it c with
         | (Ret _, c1, e1) =>
             let '(r, c2, e2) := main_loop tk its c1 in (r, c2, e1 ++ e2)
         | (Halt h, c1, e1) => (Halt h, c1, e1)
         end.
Proof.
  cbn [main_loop]. rewrite bind_run. unfold get at 1. cbv beta iota.
  destruct (exit c); [reflexivity|]. rewrite bind_run. cbn [app].
  destruct (iteration tk it c) as [[[[]|h] c1] e1]; [|reflexivity].
  destruct (main_loop tk its c1) as [[r c2] e2]. reflexivity.
Qed.

Lemma main_loop_safe its : forall c : Ctx,
  no_toggle_run its -> safe c ->
  faulted (out_of (main_loop tk its c)) = false
  /\ safe (ctx_of (main_loop tk its c))
  /\ Forall safe (main_states tk its c).
Proof.
  induction its as [|it its IH]; intros c Hnt Hs; cbn [main_states].
  - rewrite main_loop_nil.
    destruct (exit c); (split; [reflexivity|]); (split; [exact Hs | constructor]).
  - rewrite main_loop_cons.
    destruct (exit c); [split; [reflexivity|]; split; [exact Hs | constructor]|].
    unfold no_toggle_run in Hnt. apply Forall_cons_iff in Hnt as [Hit Hrest].
    pose proof (@iteration_safe it c Hit Hs) as H.
    destruct (iteration tk it c) as [[[[]|h] c1] e1]; destruct H as [Hf H1].
    + destruct (@IH c1 Hrest H1) as (I1 & I2 & I3).
      unfold out_of, ctx_of in *.
      destruct (main_loop tk its c1) as [[r2 c2] e2]. cbn [fst snd] in *.
      split; [exact I1|]. split; [exact I2|]. constructor; assumption.
    + cbn [out_of ctx_of fst snd]. split; [exact Hf|]. split; [exact H1|].
      constructor; [exact H1 | constructor].
Qed.

Lemma calibrate_safe samples : forall i (c : Ctx),
  0 <= i -> length (baseline c) = Z.to_nat UP_NUM_CH ->
  let '(r, c', _) := calibrate i samples c in
  faulted r = false /\ length (baseline c') = Z.to_nat UP_NUM_CH
  /\ free_scan c' = free_scan c.
Proof.
  induction samples as [|s samples IH]; intros i c Hi Hlen; cbn [calibrate];
    destruct (i <? UP_NUM_CH) eqn:Ei;
    try (split; [reflexivity|]; split; [exact Hlen | reflexivity]).
  apply Z.ltb_lt in Ei.
  unfold read_rssi, furi_delay_ms, emit_delay. cbn [deliver].
  unfold bind, emit, ret, get, modify.
  assert (Hin : (i <? Z.of_nat (length (baseline c))) = true)
    by (apply Z.ltb_lt; rewrite Hlen; lia).
  rewrite Hin.
  specialize (IH (i + 1) (set_baseline (list_set (baseline c) (Z.to_nat i) s) c)
                ltac:(lia)).
  cbn [baseline set_baseline] in IH. rewrite list_set_length in IH.
  specialize (IH Hlen).
  destruct (calibrate (i + 1) samples
              (set_baseline (list_set (baseline c) (Z.to_nat i) s) c))
    as [[r c'] e].
  exact IH.
Qed.

Lemma safe_app_init : safe (app_init (F := F)).
Proof.
  split; [apply repeat_length | discriminate].
Qed.

(** X13: array bounds.  As long as Left is not pressed, no read of
    [STATIC_FREQS] or of the baseline table is out of range: the main loop
    started in a context with a 201-entry baseline table whose locked
    frequency, in sweep mode, lies on the sweep grid never stops on an index
    error and stays in such contexts, and neither does the application run
    from its initial context, calibration included. *)
Theorem in_bounds_without_toggle (b : Boot) its (c : Ctx) :
  no_toggle_run its -> safe c ->
  faulted (out_of (main_loop tk its c)) = false
  /\ safe (ctx_of (main_loop tk its c))
  /\ Forall safe (main_states tk its c)
  /\ faulted (out_of (python_detector_app tk b its app_init)) = false.
Proof.
  intros Hnt Hs. destruct (@main_loop_safe its c Hnt Hs) as (H1 & H2 & H3).
  split; [exact H1|]. split; [exact H2|]. split; [exact H3|].
  destruct b as [g n dv bg cal]. unfold python_detector_app.
  cbn [gui_ok notif_ok device_ok begin_ok cal_rssi].
  destruct g, n, dv, bg; cbn [negb orb andb];
    try (unfold bind, emit, ret; reflexivity).
  unfold bind, emit, ret. cbn [app].
  pose proof (@calibrate_safe cal 0 app_init (Z.le_refl 0) (proj1 safe_app_init))
    as Hc.
  destruct (calibrate 0 cal app_init) as [[[[]|h] c1] e1];
    destruct Hc as (Hf & Hl & Hfs); [|exact Hf].
  assert (Hs1 : safe c1) by (split; [exact Hl | rewrite Hfs; discriminate]).
  destruct (@main_loop_safe its c1 Hnt Hs1) as (J1 & _ & _).
  unfold out_of in *.
  destruct (main_loop tk its c1) as [[[[]|h] c2] e2]; cbn [fst] in *;
    [reflexivity | exact J1].
Qed.

(** ** The status word and the lock *)

Lemma status_sound_iff (c : Ctx) :
  status_sound c <-> (last_pk c = true -> locked c = true).
Proof.
  unfold status_sound, render_status, render_lock_flag.
  destruct (last_pk c), (locked c); split; intros H H'; try reflexivity;
    try discriminate H'; try (specialize (H eq_refl); discriminate H).
Qed.

Lemma scan_loop_last_pk ds : forall now cnt i (c : Ctx),
  last_pk c = false ->
  last_pk (ctx_of (scan_loop tk now cnt i ds c)) = false.
Proof.
  induction ds as [|d ds IH]; intros now cnt i c H.
  - rewrite scan_loop_nil. destruct ((i <? cnt) && negb (exit c)); exact H.
  - rewrite scan_loop_cons. destruct ((i <? cnt) && negb (exit c)); [|exact H].
    rewrite scan_dwell_eq.
    destruct (pass_freq (free_scan c) i) as [f|]; [|exact H]. cbv zeta.
    destruct (deliver_fields (d_keys_tune d) c) as (_ & _ & _ & _ & L5 & _).
    cbv zeta in L5. rewrite H in L5.
    set (c1 := ctx_of (deliver (d_keys_tune d) c)) in *.
    assert (Hnext : forall e1,
      last_pk (ctx_of
        (let c2 := set_last_pk false (set_last_freq f (set_last_rssi (d_rssi d) c1)) in
         let '(r, c4, e4) :=
           scan_loop tk now cnt (i + 1) ds (ctx_of (deliver (d_keys_frame d) c2)) in
         (r, c4, e1 ++ EvViewUpdate :: EvDelay FRAME_MS
                   :: log_of (deliver (d_keys_frame d) c2) ++ e4))) = false).
    { intros e1. cbv zeta.
      set (c2 := set_last_pk false (set_last_freq f (set_last_rssi (d_rssi d) c1))).
      destruct (deliver_fields (d_keys_frame d) c2) as (_ & _ & _ & _ & M5 & _).
      cbv zeta in M5. change (last_pk c2) with false in M5.
      specialize (IH now cnt (i + 1) _ M5). unfold ctx_of in IH |- *.
      destruct (scan_loop tk now cnt (i + 1) ds
                  (snd (fst (deliver (d_keys_frame d) c2)))) as [[r c4] e4].
      exact IH. }
    destruct (pass_base c1 i) as [base|]; [|exact L5].
    destruct (flt (scan_threshold base (sens c1)) (d_rssi d)); [|apply Hnext].
    destruct (persist tk (scan_threshold base (sens c1)) (d_tick0 d) (d_polls d) c1)
      as [[[[]|h] cp] ep]; [exact L5 | apply Hnext | exact L5].
Qed.

Lemma iteration_status it (c : Ctx) :
  (last_pk c = true -> locked c = true) ->
  last_pk (ctx_of (iteration tk it c)) = true ->
  locked (ctx_of (iteration tk it c)) = true.
Proof.
  intros Hc. destruct (locked c) eqn:L.
  - pose proof (@wp_iteration_locked it c L) as H. unfold wp, ctx_of in *.
    destruct (iteration tk it c) as [[r c'] e]. cbn [fst snd].
    destruct r as [[]|h]; [|intros _; exact (proj1 H)].
    intros Hp. rewrite Hp in H. exact (proj1 H).
  - assert (Hpk : last_pk c = false).
    { destruct (last_pk c); [specialize (Hc eq_refl); discriminate Hc | reflexivity]. }
    rewrite iteration_scanning by exact L.
    pose proof (@scan_loop_last_pk (it_dwells it) (U32.wrap (it_now it))
                  (if free_scan c then UP_NUM_CH else STATIC_CH) 0 c Hpk) as H.
    unfold ctx_of in *.
    destruct (scan_loop tk (U32.wrap (it_now it))
                (if free_scan c then UP_NUM_CH else STATIC_CH) 0 (it_dwells it) c)
      as [[r c'] e].
    cbn [fst snd] in *. rewrite H. discriminate.
Qed.

Lemma Forall_last A (P : A -> Prop) (l : list A) d :
  P d -> Forall P l -> P (last l d).
Proof.
  intros Hd H. induction H as [|x l Hx Hl IH]; [exact Hd|].
  destruct l; [exact Hx | exact IH].
Qed.

(** X14: the status word of the main view.  The main view prints
    [Locked] from [last_pk]; the lock itself is the flag [locked].  In a
    run of the main loop the word [Locked] is shown only while the machine
    is locked, after every turn and at the end; and the turn that takes a
    lock still leaves the word [Scanning], since scanning turns never set
    [last_pk]. *)
Theorem status_follows_lock its (c : Ctx) :
  status_sound c ->
  Forall status_sound (main_states tk its c)
  /\ status_sound (ctx_of (main_loop tk its c))
  /\ forall it, locked c = false ->
       render_status (ctx_of (iteration tk it c)) = "Scanning"%string.
Proof.
  intros Hc.
  assert (Hk : forall it, keeps (fun x : Ctx => status_sound x) (iteration tk it)).
  { intros it x Hx. apply (proj2 (status_sound_iff _)).
    apply iteration_status. exact (proj1 (status_sound_iff x) Hx). }
  pose proof (@main_states_keeps _ Hk its c Hc) as Hall.
  split; [exact Hall|]. split.
  - rewrite main_states_last. apply Forall_last; assumption.
  - intros it L. pose proof (proj1 (status_sound_iff c) Hc) as Hc'.
    assert (Hpk : last_pk c = false).
    { destruct (last_pk c); [specialize (Hc' eq_refl); congruence | reflexivity]. }
    rewrite iteration_scanning by exact L.
    pose proof (@scan_loop_last_pk (it_dwells it) (U32.wrap (it_now it))
                  (if free_scan c then UP_NUM_CH else STATIC_CH) 0 c Hpk) as H.
    unfold ctx_of in *.
    destruct (scan_loop tk (U32.wrap (it_now it))
                (if free_scan c then UP_NUM_CH else STATIC_CH) 0 (it_dwells it) c)
      as [[r c'] e].
    cbn [fst snd] in *. unfold render_status. rewrite H. reflexivity.
Qed.

(** ** The hold timer across the wrap of the tick counter *)

Lemma u32_elapsed t e :
  0 <= e < U32.modulus -> U32.sub (U32.wrap (t + e)) t = e.
Proof.
  intros H. unfold U32.sub, U32.wrap. rewrite Zminus_mod_idemp_l.
  replace (t + e - t) with e by lia. apply Z.mod_small. exact H.
Qed.

(** X15: the hold timer.  The locked step measures the time since the
    last confirmation as the 32-bit difference [now - lock_start], so the
    decision is right across the wrap of the tick counter: at [e] ticks
    after the stamp, with [e] below 2^32, a step without confirmation
    unlocks exactly when [e] exceeds the hold time, and a step with
    confirmation keeps the lock and moves the stamp to the tick read. *)
Theorem hold_timer_wraps e d (c : Ctx) :
  locked c = true -> 0 <= e < U32.modulus ->
  let now := U32.wrap (lock_start c + e) in
  let '(r, c', _) := locked_step tk now d c in
  match r with
  | Halt _ => locked c' = true
  | Ret _ =>
      if last_pk c' then locked c' = true /\ lock_start c' = now
      else locked c' = negb (ticks tk LOCK_HOLD_MS <? e)
           /\ lock_start c' = lock_start c
  end.
Proof.
  intros L He now.
  pose proof (@wp_locked_step now d c) as H. unfold wp in H.
  destruct (locked_step tk now d c) as [[r c'] evs].
  destruct H as (_ & _ & H). rewrite L in H.
  destruct r as [[]|h]; [|exact (proj1 H)].
  destruct (last_pk c'); [exact H|].
  unfold now in H. rewrite u32_elapsed in H by exact He.
  destruct H as [H1 H2]. split; [|exact H1]. rewrite H2.
  destruct (ticks tk LOCK_HOLD_MS <? e); reflexivity.
Qed.

(** ** The fields that only the renderer reads *)

Ltac view_fields H :=
  unfold detector_view in H;
  cbn [exit baseline locked lock_start free_scan sens last_freq last_rssi last_pk
       set_exit set_baseline set_locked set_lock_start set_mode set_free_scan
       set_debug set_tdma set_sens set_last_freq set_last_rssi set_last_pk] in H.

Ltac view_solve :=
  unfold detector_view in *;
  cbn [exit baseline locked lock_start free_scan sens last_freq last_rssi last_pk
       set_exit set_baseline set_locked set_lock_start set_mode set_free_scan
       set_debug set_tdma set_sens set_last_freq set_last_rssi set_last_pk] in *;
  congruence.

Lemma agree_refl_at A (r : res A) (c c' : Ctx) (e : list Ev) :
  detector_view c = detector_view c' -> agree (r, c, e) (r, c', e).
Proof. intros H. split; [reflexivity|]. split; [reflexivity | exact H]. Qed.

Lemma input_cb_blind e (c c' : Ctx) :
  detector_view c = detector_view c' -> agree (input_cb e c) (input_cb e c').
Proof.
  intros H. destruct e as [[] []]; cbn [input_cb ev_type ev_key];
    unfold bind, modify, emit, ret; apply agree_refl_at; try view_solve.
  assert (Hs : sens c' = sens c) by view_solve.
  view_fields H. unfold detector_view. cbn [exit baseline locked lock_start
    free_scan sens last_freq last_rssi last_pk set_sens].
  rewrite Hs. congruence.
Qed.

Lemma deliver_blind keys : forall c c' : Ctx,
  detector_view c = detector_view c' -> agree (deliver keys c) (deliver keys c').
Proof.
  induction keys as [|e keys IH]; intros c c' H.
  - apply agree_refl_at. exact H.
  - rewrite !deliver_cons. destruct (input_cb_blind e H) as (_ & Hl & Hv).
    specialize (IH _ _ Hv). destruct IH as (I1 & I2 & I3).
    unfold agree, out_of, ctx_of, log_of in *.
    destruct (deliver keys (snd (fst (input_cb e c)))) as [[r2 c2] e2].
    destruct (deliver keys (snd (fst (input_cb e c')))) as [[r2' c2'] e2'].
    cbn [fst snd] in *. split; [exact I1|]. split; [congruence | exact I3].
Qed.

Lemma persist_loop_blind end_ thr polls : forall c c' : Ctx,
  exists r e, persist_loop end_ thr polls c = (r, c, e)
              /\ persist_loop end_ thr polls c' = (r, c', e).
Proof.
  induction polls as [|p polls IH]; intros c c'; cbn [persist_loop].
  - do 2 eexists. split; reflexivity.
  - unfold furi_get_tick, bind, emit, ret. cbn [app].
    destruct (U32.wrap (poll_tick p) <? end_); [|do 2 eexists; split; reflexivity].
    destruct (flt (poll_rssi p) thr); [do 2 eexists; split; reflexivity|].
    destruct (IH c c') as (r & e & -> & ->). do 2 eexists. split; reflexivity.
Qed.

Lemma persist_blind thr t0 polls (c c' : Ctx) :
  exists r e, persist tk thr t0 polls c = (r, c, e)
              /\ persist tk thr t0 polls c' = (r, c', e).
Proof.
  unfold persist, furi_get_tick, bind, emit, ret. cbn [app].
  destruct (persist_loop_blind (U32.add (U32.wrap t0) (ticks tk SLOT_MS)) thr polls
              c c') as (r & e & -> & ->).
  do 2 eexists. split; reflexivity.
Qed.

Lemma scan_dwell_blind i d (c c' : Ctx) :
  detector_view c = detector_view c' ->
  agree (scan_dwell tk i d c) (scan_dwell tk i d c').
Proof.
  intros H. rewrite !scan_dwell_eq.
  assert (Hfs : free_scan c = free_scan c') by view_solve. rewrite <- Hfs.
  destruct (pass_freq (free_scan c) i) as [f|]; [|apply agree_refl_at; exact H].
  cbv zeta. destruct (deliver_blind (d_keys_tune d) H) as (_ & Hl & Hv).
  rewrite <- Hl.
  set (c1 := ctx_of (deliver (d_keys_tune d) c)) in *.
  set (c1' := ctx_of (deliver (d_keys_tune d) c')) in *.
  assert (Hb : pass_base c1' i = pass_base c1 i).
  { unfold pass_base. replace (free_scan c1') with (free_scan c1) by view_solve.
    replace (baseline c1') with (baseline c1) by view_solve. reflexivity. }
  rewrite Hb. destruct (pass_base c1 i) as [base|]; [|apply agree_refl_at; exact Hv].
  replace (sens c1') with (sens c1) by view_solve.
  destruct (flt (scan_threshold base (sens c1)) (d_rssi d));
    [|apply agree_refl_at; exact Hv].
  destruct (persist_blind (scan_threshold base (sens c1)) (d_tick0 d) (d_polls d)
              c1 c1') as (r & e & -> & ->).
  destruct r; apply agree_refl_at; exact Hv.
Qed.

Lemma scan_loop_blind ds : forall now cnt i (c c' : Ctx),
  detector_view c = detector_view c' ->
  agree (scan_loop tk now cnt i ds c) (scan_loop tk now cnt i ds c').
Proof.
  induction ds as [|d ds IH]; intros now cnt i c c' H.
  - rewrite !scan_loop_nil. replace (exit c') with (exit c) by view_solve.
    destruct ((i <? cnt) && negb (exit c)); apply agree_refl_at; exact H.
  - rewrite !scan_loop_cons. replace (exit c') with (exit c) by view_solve.
    destruct ((i <? cnt) && negb (exit c)); [|apply agree_refl_at; exact H].
    destruct (scan_dwell_blind i d H) as (Ho & Hl & Hv).
    unfold out_of, log_of, ctx_of in Ho, Hl, Hv.
    destruct (scan_dwell tk i d c) as [[r c1] e1].
    destruct (scan_dwell tk i d c') as [[r' c1'] e1']. cbn [fst snd] in *.
    subst r' e1'. destruct r as [[[f r0] []]|h].
    + apply agree_refl_at. view_solve.
    + cbv zeta.
      assert (H2 : detector_view (set_last_pk false (set_last_freq f (set_last_rssi r0 c1)))
                   = detector_view (set_last_pk false (set_last_freq f (set_last_rssi r0 c1'))))
        by view_solve.
      destruct (deliver_blind (d_keys_frame d) H2) as (_ & Kl & Kv).
      rewrite <- Kl. specialize (IH now cnt (i + 1) _ _ Kv).
      unfold agree, out_of, log_of, ctx_of in IH |- *.
      destruct (scan_loop tk now cnt (i + 1) ds (snd (fst (deliver (d_keys_frame d)
                  (set_last_pk false (set_last_freq f (set_last_rssi r0 c1)))))))
        as [[r4 c4] e4].
      destruct (scan_loop tk now cnt (i + 1) ds (snd (fst (deliver (d_keys_frame d)
                  (set_last_pk false (set_last_freq f (set_last_rssi r0 c1')))))))
        as [[r4' c4'] e4'].
      cbn [fst snd] in *. destruct IH as (I1 & I2 & I3).
      split; [exact I1|]. split; [congruence | exact I3].
    + apply agree_refl_at. exact Hv.
Qed.

Lemma locked_step_blind now d (c c' : Ctx) :
  detector_view c = detector_view c' ->
  agree (locked_step tk now d c) (locked_step tk now d c').
Proof.
  intros H. rewrite !locked_step_eq. cbv zeta.
  replace (last_freq c') with (last_freq c) by view_solve.
  destruct (deliver_blind (d_keys_tune d) H) as (_ & Hl & Hv). rewrite <- Hl.
  set (c1 := ctx_of (deliver (d_keys_tune d) c)) in *.
  set (c1' := ctx_of (deliver (d_keys_tune d) c')) in *.
  assert (Hb : lock_base c1' (last_freq c) = lock_base c1 (last_freq c)).
  { unfold lock_base. replace (free_scan c1') with (free_scan c1) by view_solve.
    replace (baseline c1') with (baseline c1) by view_solve. reflexivity. }
  rewrite Hb.
  destruct (lock_base c1 (last_freq c)) as [base|]; [|apply agree_refl_at; exact Hv].
  replace (sens c1') with (sens c1) by view_solve.
  replace (lock_start c1') with (lock_start c1) by view_solve.
  assert (Hp : exists r e,
    (if flt (lock_threshold base (sens c1)) (d_rssi d)
     then persist tk (lock_threshold base (sens c1)) (d_tick0 d) (d_polls d) c1
     else (Ret false, c1, [])) = (r, c1, e)
    /\ (if flt (lock_threshold base (sens c1)) (d_rssi d)
        then persist tk (lock_threshold base (sens c1)) (d_tick0 d) (d_polls d) c1'
        else (Ret false, c1', [])) = (r, c1', e)).
  { destruct (flt (lock_threshold base (sens c1)) (d_rssi d));
      [apply persist_blind | do 2 eexists; split; reflexivity]. }
  destruct Hp as (r & e & -> & ->).
  destruct r as [pk|h]; [|apply agree_refl_at; exact Hv].
  assert (H3 : detector_view
                 (set_last_pk pk (set_last_freq (last_freq c) (set_last_rssi (d_rssi d)
                    (if pk then set_lock_start now c1
                     else if ticks tk LOCK_HOLD_MS <? U32.sub now (lock_start c1)
                          then set_locked false c1 else c1))))
               = detector_view
                 (set_last_pk pk (set_last_freq (last_freq c) (set_last_rssi (d_rssi d)
                    (if pk then set_lock_start now c1'
                     else if ticks tk LOCK_HOLD_MS <? U32.sub now (lock_start c1)
                          then set_locked false c1' else c1'))))).
  { destruct pk; [view_solve|].
    destruct (ticks tk LOCK_HOLD_MS <? U32.sub now (lock_start c1)); view_solve. }
  destruct (deliver_blind (d_keys_frame d) H3) as (_ & Kl & Kv).
  rewrite <- Kl. apply agree_refl_at. exact Kv.
Qed.

Lemma iteration_blind it (c c' : Ctx) :
  detector_view c = detector_view c' ->
  agree (iteration tk it c) (iteration tk it c').
Proof.
  intros H. assert (HL : locked c' = locked c) by view_solve.
  destruct (locked c) eqn:L.
  - rewrite !iteration_locked by assumption.
    destruct (it_dwells it) as [|d ds]; [apply agree_refl_at; exact H|].
    pose proof (locked_step_blind (U32.wrap (it_now it)) d H) as Hs.
    unfold agree, out_of, log_of, ctx_of in *.
    destruct (locked_step tk (U32.wrap (it_now it)) d c) as [[r c1] e1].
    destruct (locked_step tk (U32.wrap (it_now it)) d c') as [[r' c1'] e1'].
    cbn [fst snd] in *. destruct Hs as (I1 & I2 & I3).
    split; [exact I1|]. split; [congruence | exact I3].
  - rewrite !iteration_scanning by assumption.
    replace (free_scan c') with (free_scan c) by view_solve.
    pose proof (@scan_loop_blind (it_dwells it) (U32.wrap (it_now it))
                  (if free_scan c then UP_NUM_CH else STATIC_CH) 0 c c' H) as Hs.
    unfold agree, out_of, log_of, ctx_of in *.
    destruct (scan_loop tk (U32.wrap (it_now it))
                (if free_scan c then UP_NUM_CH else STATIC_CH) 0 (it_dwells it) c)
      as [[r c1] e1].
    destruct (scan_loop tk (U32.wrap (it_now it))
                (if free_scan c then UP_NUM_CH else STATIC_CH) 0 (it_dwells it) c')
      as [[r' c1'] e1'].
    cbn [fst snd] in *. destruct Hs as (I1 & I2 & I3).
    split; [exact I1|]. split; [congruence | exact I3].
Qed.

(** X16: the alert mode, the debug flag and the TDMA flag are inert.  The
    Up, Down and Ok keys set them, but the detector never reads them: two
    runs of the main loop on the same inputs, from contexts that differ in
    these three fields only, return the same outcome, log the same events,
    alerts included, and end in contexts that again differ in these fields
    only.  In particular the alert mode [OFF] silences nothing. *)
Theorem alert_mode_inert its : forall c c' : Ctx,
  detector_view c = detector_view c' ->
  agree (main_loop tk its c) (main_loop tk its c').
Proof.
  induction its as [|it its IH]; intros c c' H.
  - rewrite !main_loop_nil. replace (exit c') with (exit c) by view_solve.
    destruct (exit c); apply agree_refl_at; exact H.
  - rewrite !main_loop_cons. replace (exit c') with (exit c) by view_solve.
    destruct (exit c); [apply agree_refl_at; exact H|].
    destruct (iteration_blind it H) as (Ho & Hl & Hv).
    unfold out_of, log_of, ctx_of in Ho, Hl, Hv.
    destruct (iteration tk it c) as [[r c1] e1].
    destruct (iteration tk it c') as [[r' c1'] e1']. cbn [fst snd] in *.
    subst r' e1'. destruct r as [[]|h]; [|apply agree_refl_at; exact Hv].
    specialize (IH _ _ Hv). unfold agree, out_of, log_of, ctx_of in IH |- *.
    destruct (main_loop tk its c1) as [[r2 c2] e2].
    destruct (main_loop tk its c1') as [[r2' c2'] e2'].
    cbn [fst snd] in *. destruct IH as (I1 & I2 & I3).
    split; [exact I1|]. split; [congruence | exact I3].
Qed.

(** ** The frequency line of the debug view *)

(** X17: the debug view prints the frequency in MHz with three decimals,
    cut, not rounded.  For every frequency of the sweep list the printed
    value is the frequency itself: the decimals are below 1000, no Hz are
    lost and the whole part lies between 380 and 385. *)
Theorem debug_frequency_readout f :
  In f sweep_channels ->
  let (whole, frac) := render_freq f in
  whole * 1000000 + frac * 1000 = f /\ 0 <= frac < 1000 /\ 380 <= whole <= 385.
Proof.
  intros Hin. apply In_nth_error in Hin as [k Hk].
  assert (Hlt : (k < Z.to_nat UP_NUM_CH)%nat).
  { rewrite <- sweep_length. apply nth_error_Some. congruence. }
  pose proof (@sweep_nth (Z.of_nat k) ltac:(lia)) as Hs.
  rewrite Nat2Z.id, Hk in Hs. injection Hs as ->.
  rewrite sweep_freq_plain by lia. change UP_NUM_CH with 201 in Hlt.
  unfold render_freq, U32.div.
  set (n := Z.of_nat k). assert (Hn : 0 <= n < 201) by lia. clearbody n.
  pose proof (Z.div_mod (380000000 + 25000 * n) 1000000 ltac:(lia)) as H1.
  pose proof (Z.mod_pos_bound (380000000 + 25000 * n) 1000000 ltac:(lia)) as H2.
  set (q := (380000000 + 25000 * n) / 1000000) in *.
  set (m := (380000000 + 25000 * n) mod 1000000) in *.
  assert (Hm : m = 1000 * (m / 1000)).
  { assert (Hd : (380000000 + 25000 * n - 1000000 * q) mod 1000 = 0).
    { replace (380000000 + 25000 * n - 1000000 * q)
        with ((380000 + 25 * n - 1000 * q) * 1000) by lia.
      apply Z.mod_mul. lia. }
    replace (380000000 + 25000 * n - 1000000 * q) with m in Hd by lia.
    pose proof (Z.div_mod m 1000 ltac:(lia)). lia. }
  split; [lia|]. split; [|lia].
  split; [apply Z.div_pos; lia | apply Z.div_lt_upper_bound; lia].
Qed.

(** ** C1 *)

Lemma scan_dwell_ret i d (c c' : Ctx) f r0 pk e :
  scan_dwell tk i d c = (Ret (f, r0, pk), c', e) ->
  pass_freq (free_scan c) i = Some f
  /\ c' = ctx_of (deliver (d_keys_tune d) c)
  /\ r0 = d_rssi d /\ tuned e = [f] /\ alerts e = 0%nat.
Proof.
  intros H. pose proof (scan_dwell_eq i d c) as E. rewrite H in E.
  destruct (pass_freq (free_scan c) i) as [f'|] eqn:Ef; [|discriminate E].
  cbv zeta in E.
  destruct (pass_base (ctx_of (deliver (d_keys_tune d) c)) i) as [base|] eqn:Eb;
    [|discriminate E].
  destruct (@scan_dwell_in_range i d c f' base Ef Eb)
    as (r & ev & E2 & Ht & Ha & _ & Hr).
  rewrite H in E2. injection E2 as <- <- <-. destruct Hr as [-> ->]. auto.
Qed.

Lemma pass_freq_list (fs : bool) i f :
  pass_freq fs i = Some f -> 0 <= i -> (fs = true -> i < UP_NUM_CH) ->
  nth_error (channel_list fs) (Z.to_nat i) = Some f.
Proof.
  unfold pass_freq. intros H Hi Hlt. destruct fs; cbn [channel_list].
  - injection H as <-. apply sweep_nth. split; [exact Hi | exact (Hlt eq_refl)].
  - destruct (i <? 0) eqn:E; [discriminate H | exact H].
Qed.

Lemma firstn_S_nth A (l : list A) : forall n x,
  nth_error l n = Some x -> firstn (S n) l = firstn n l ++ [x].
Proof.
  induction l as [|a l IH]; intros [|n] x H; try discriminate.
  - injection H as ->. reflexivity.
  - cbn [nth_error] in H. rewrite firstn_cons, (IH n x H). reflexivity.
Qed.

(** The steps of a pass that end without detection, when Left is not pressed:
    the scan mode stays and the channels of its list are tuned in order. *)
Lemma scan_loop_trace pre : forall (fs : bool) i (c ck : Ctx) e now,
  free_scan c = fs -> 0 <= i -> no_toggle pre ->
  scan_loop tk now (Z.of_nat (length (channel_list fs))) i pre c
  = (Halt NeedDwell, ck, e) ->
  free_scan ck = fs
  /\ tuned e = firstn (length pre) (skipn (Z.to_nat i) (channel_list fs)).
Proof.
  induction pre as [|d pre IH]; intros fs i c ck e now Hfs Hi Hnt.
  - rewrite scan_loop_nil.
    destruct ((i <? Z.of_nat (length (channel_list fs))) && negb (exit c));
      [|discriminate].
    intros H. injection H as <- <-. split; [exact Hfs | reflexivity].
  - unfold no_toggle in Hnt. apply Forall_cons_iff in Hnt as [Hd Hds].
    unfold dwell_keys in Hd. apply Forall_app in Hd as [Hkt Hkf].
    rewrite scan_loop_cons.
    destruct ((i <? Z.of_nat (length (channel_list fs))) && negb (exit c)) eqn:Ec;
      [|discriminate].
    apply andb_true_iff in Ec as [Ei _]. apply Z.ltb_lt in Ei.
    pose proof (scan_dwell_not_starved i d c) as Hns.
    destruct (scan_dwell tk i d c) as [[[[[f r0] pk]|h] c1] e1] eqn:Ed.
    2:{ intros H. injection H as -> _ _. now contradiction Hns. }
    destruct pk; [discriminate|].
    destruct (@scan_dwell_ret i d c c1 f r0 false e1 Ed) as (Hpf & -> & -> & Ht & _).
    rewrite Hfs in Hpf.
    destruct (@pass_freq_nth fs i ltac:(lia)) as (f' & Hpf' & Hnth).
    rewrite Hpf in Hpf'. injection Hpf' as <-.
    cbv zeta.
    set (c2 := set_last_pk false (set_last_freq f (set_last_rssi (d_rssi d)
                 (ctx_of (deliver (d_keys_tune d) c))))).
    assert (Hfs3 : free_scan (ctx_of (deliver (d_keys_frame d) c2)) = fs).
    { rewrite (@deliver_no_left _ c2 Hkf).
      change (free_scan c2) with (free_scan (ctx_of (deliver (d_keys_tune d) c))).
      rewrite (@deliver_no_left _ c Hkt). exact Hfs. }
    destruct (scan_loop tk now (Z.of_nat (length (channel_list fs))) (i + 1) pre
                (ctx_of (deliver (d_keys_frame d) c2))) as [[r4 c4] e4] eqn:E4.
    intros H. injection H as -> -> <-.
    destruct (@IH fs (i + 1) _ _ _ now Hfs3 ltac:(lia) Hds E4) as [I1 I2].
    split; [exact I1|].
    assert (Hmid : Forall (fun x : Ev => passive x = true)
                     (EvViewUpdate :: EvDelay FRAME_MS
                        :: log_of (deliver (d_keys_frame d) c2))).
    { constructor; [reflexivity|]. constructor; [reflexivity|].
      apply silent_deliver. }
    change (EvViewUpdate :: EvDelay FRAME_MS
              :: log_of (deliver (d_keys_frame d) c2) ++ e4)
      with ((EvViewUpdate :: EvDelay FRAME_MS
               :: log_of (deliver (d_keys_frame d) c2)) ++ e4).
    rewrite !tuned_app, Ht, (passive_tuned Hmid), I2.
    replace (Z.to_nat (i + 1)) with (S (Z.to_nat i)) by lia.
    rewrite (skipn_nth _ _ Hnth). reflexivity.
Qed.


(** ** C8 *)

Lemma lock_equiv_fields (c c' : Ctx) :
  lock_equiv c c' ->
  exit c = exit c' /\ baseline c = baseline c' /\ locked c = locked c'
  /\ lock_start c = lock_start c' /\ mode c = mode c'
  /\ free_scan c = free_scan c' /\ debug c = debug c' /\ tdma c = tdma c'
  /\ sens c = sens c' /\ last_rssi c = last_rssi c' /\ last_pk c = last_pk c'
  /\ (locked c = true -> last_freq c = last_freq c').
Proof.
  intros [H1 H2].
  split; [exact (f_equal exit H1)|]. split; [exact (f_equal baseline H1)|].
  split; [exact (f_equal locked H1)|]. split; [exact (f_equal lock_start H1)|].
  split; [exact (f_equal mode H1)|]. split; [exact (f_equal free_scan H1)|].
  split; [exact (f_equal debug H1)|]. split; [exact (f_equal tdma H1)|].
  split; [exact (f_equal sens H1)|]. split; [exact (f_equal last_rssi H1)|].
  split; [exact (f_equal last_pk H1)|].
  intros L. pose proof (f_equal locked H1) as HL. cbn [locked set_last_freq] in HL.
  unfold locked_frequency in H2. rewrite <- HL, L in H2. now injection H2.
Qed.

Lemma lock_equiv_make (c c' : Ctx) :
  exit c = exit c' -> baseline c = baseline c' -> locked c = locked c' ->
  lock_start c = lock_start c' -> mode c = mode c' ->
  free_scan c = free_scan c' -> debug c = debug c' -> tdma c = tdma c' ->
  sens c = sens c' -> last_rssi c = last_rssi c' -> last_pk c = last_pk c' ->
  (locked c = true -> last_freq c = last_freq c') ->
  lock_equiv c c'.
Proof.
  destruct c, c'.
  cbn [exit baseline locked lock_start mode free_scan debug tdma sens last_freq
       last_rssi last_pk].
  intros -> -> -> -> -> -> -> -> -> -> -> H. split; [reflexivity|].
  unfold locked_frequency. cbn [locked last_freq].
  destruct locked1; [rewrite (H eq_refl)|]; reflexivity.
Qed.

Lemma lock_equiv_refl (c : Ctx) : lock_equiv c c.
Proof. split; reflexivity. Qed.

Lemma lock_equiv_eq (c c' : Ctx) : lock_equiv c c' -> locked c = true -> c = c'.
Proof.
  intros H L.
  destruct (lock_equiv_fields H)
    as (Hex & Hbl & Hlk & Hls & Hmd & Hfs & Hdb & Htd & Hsn & Hlr & Hlp & Hlf).
  specialize (Hlf L). destruct c, c'.
  cbn [exit baseline locked lock_start mode free_scan debug tdma sens last_freq
       last_rssi last_pk] in *.
  congruence.
Qed.

Ltac leq H :=
  let Hex := fresh in let Hbl := fresh in let Hlk := fresh in
  let Hls := fresh in let Hmd := fresh in let Hfs := fresh in
  let Hdb := fresh in let Htd := fresh in let Hsn := fresh in
  let Hlr := fresh in let Hlp := fresh in let Hlf := fresh in
  destruct (lock_equiv_fields H)
    as (Hex & Hbl & Hlk & Hls & Hmd & Hfs & Hdb & Htd & Hsn & Hlr & Hlp & Hlf);
  apply lock_equiv_make;
  cbn [exit baseline locked lock_start mode free_scan debug tdma sens last_freq
       last_rssi last_pk
       set_exit set_baseline set_locked set_lock_start set_mode set_free_scan
       set_debug set_tdma set_sens set_last_freq set_last_rssi set_last_pk];
  first [ assumption | reflexivity | congruence | (rewrite <- Hsn; reflexivity)
        | (intros; reflexivity) ].

Lemma lock_agree_at A (r : res A) (c c' : Ctx) (e : list Ev) :
  lock_equiv c c' -> lock_agree (r, c, e) (r, c', e).
Proof. intros H. split; [reflexivity|]. split; [reflexivity | exact H]. Qed.

Lemma input_cb_lock e (c c' : Ctx) :
  lock_equiv c c' -> lock_agree (input_cb e c) (input_cb e c').
Proof.
  intros H. destruct e as [[] []]; cbn [input_cb ev_type ev_key];
    unfold bind, modify, emit, ret; apply lock_agree_at; first [exact H | leq H].
Qed.

Lemma deliver_lock keys : forall c c' : Ctx,
  lock_equiv c c' -> lock_agree (deliver keys c) (deliver keys c').
Proof.
  induction keys as [|e keys IH]; intros c c' H.
  - apply lock_agree_at. exact H.
  - rewrite !deliver_cons. destruct (input_cb_lock e H) as (_ & Hl & Hv).
    specialize (IH _ _ Hv). destruct IH as (I1 & I2 & I3).
    unfold lock_agree, out_of, ctx_of, log_of in *.
    destruct (deliver keys (snd (fst (input_cb e c)))) as [[r2 c2] e2].
    destruct (deliver keys (snd (fst (input_cb e c')))) as [[r2' c2'] e2'].
    cbn [fst snd] in *. split; [exact I1|]. split; [congruence | exact I3].
Qed.

Lemma scan_dwell_lock i d (c c' : Ctx) :
  lock_equiv c c' -> lock_agree (scan_dwell tk i d c) (scan_dwell tk i d c').
Proof.
  intros H. rewrite !scan_dwell_eq.
  destruct (lock_equiv_fields H) as (_ & _ & _ & _ & _ & Hfs & _).
  rewrite <- Hfs.
  destruct (pass_freq (free_scan c) i) as [f|]; [|apply lock_agree_at; exact H].
  cbv zeta. destruct (deliver_lock (d_keys_tune d) H) as (_ & Hl & Hv).
  rewrite <- Hl.
  set (c1 := ctx_of (deliver (d_keys_tune d) c)) in *.
  set (c1' := ctx_of (deliver (d_keys_tune d) c')) in *.
  destruct (lock_equiv_fields Hv) as (_ & Hbl1 & _ & _ & _ & Hfs1 & _ & _ & Hsn1 & _).
  assert (Hb : pass_base c1' i = pass_base c1 i).
  { unfold pass_base. rewrite <- Hfs1, <- Hbl1. reflexivity. }
  rewrite Hb. destruct (pass_base c1 i) as [base|];
    [|apply lock_agree_at; exact Hv].
  rewrite <- Hsn1.
  destruct (flt (scan_threshold base (sens c1)) (d_rssi d));
    [|apply lock_agree_at; exact Hv].
  destruct (persist_blind (scan_threshold base (sens c1)) (d_tick0 d) (d_polls d)
              c1 c1') as (r & e & -> & ->).
  destruct r; apply lock_agree_at; exact Hv.
Qed.

Lemma scan_loop_lock ds : forall now cnt i (c c' : Ctx),
  lock_equiv c c' ->
  lock_agree (scan_loop tk now cnt i ds c) (scan_loop tk now cnt i ds c').
Proof.
  induction ds as [|d ds IH]; intros now cnt i c c' H;
    destruct (lock_equiv_fields H) as (Hex & _).
  - rewrite !scan_loop_nil, <- Hex.
    destruct ((i <? cnt) && negb (exit c)); apply lock_agree_at; exact H.
  - rewrite !scan_loop_cons, <- Hex.
    destruct ((i <? cnt) && negb (exit c)); [|apply lock_agree_at; exact H].
    destruct (scan_dwell_lock i d H) as (Ho & Hl & Hv).
    unfold out_of, log_of, ctx_of in Ho, Hl, Hv.
    destruct (scan_dwell tk i d c) as [[r c1] e1].
    destruct (scan_dwell tk i d c') as [[r' c1'] e1']. cbn [fst snd] in *.
    subst r' e1'. destruct r as [[[f r0] []]|h].
    + apply lock_agree_at. leq Hv.
    + cbv zeta.
      assert (H2 : lock_equiv
                     (set_last_pk false (set_last_freq f (set_last_rssi r0 c1)))
                     (set_last_pk false (set_last_freq f (set_last_rssi r0 c1'))))
        by leq Hv.
      destruct (deliver_lock (d_keys_frame d) H2) as (_ & Kl & Kv).
      rewrite <- Kl. specialize (IH now cnt (i + 1) _ _ Kv).
      unfold lock_agree, out_of, log_of, ctx_of in IH |- *.
      destruct (scan_loop tk now cnt (i + 1) ds (snd (fst (deliver (d_keys_frame d)
                  (set_last_pk false (set_last_freq f (set_last_rssi r0 c1)))))))
        as [[r4 c4] e4].
      destruct (scan_loop tk now cnt (i + 1) ds (snd (fst (deliver (d_keys_frame d)
                  (set_last_pk false (set_last_freq f (set_last_rssi r0 c1')))))))
        as [[r4' c4'] e4'].
      cbn [fst snd] in *. destruct IH as (I1 & I2 & I3).
      split; [exact I1|]. split; [congruence | exact I3].
    + apply lock_agree_at. exact Hv.
Qed.

Lemma iteration_lock it (c c' : Ctx) :
  lock_equiv c c' -> lock_agree (iteration tk it c) (iteration tk it c').
Proof.
  intros H. destruct (locked c) eqn:L.
  - rewrite <- (lock_equiv_eq H L). split; [reflexivity|].
    split; [reflexivity | apply lock_equiv_refl].
  - destruct (lock_equiv_fields H) as (_ & _ & Hlk & _ & _ & Hfs & _).
    rewrite !iteration_scanning by congruence. rewrite <- Hfs.
    pose proof (@scan_loop_lock (it_dwells it) (U32.wrap (it_now it))
                  (if free_scan c then UP_NUM_CH else STATIC_CH) 0 c c' H) as Hs.
    unfold lock_agree, out_of, log_of, ctx_of in *.
    destruct (scan_loop tk (U32.wrap (it_now it))
                (if free_scan c then UP_NUM_CH else STATIC_CH) 0 (it_dwells it) c)
      as [[r c1] e1].
    destruct (scan_loop tk (U32.wrap (it_now it))
                (if free_scan c then UP_NUM_CH else STATIC_CH) 0 (it_dwells it) c')
      as [[r' c1'] e1'].
    cbn [fst snd] in *. destruct Hs as (I1 & I2 & I3).
    split; [exact I1|]. split; [congruence | exact I3].
Qed.

Lemma main_loop_lock its : forall c c' : Ctx,
  lock_equiv c c' -> lock_agree (main_loop tk its c) (main_loop tk its c').
Proof.
  induction its as [|it its IH]; intros c c' H;
    destruct (lock_equiv_fields H) as (Hex & _).
  - rewrite !main_loop_nil, <- Hex.
    destruct (exit c); apply lock_agree_at; exact H.
  - rewrite !main_loop_cons, <- Hex.
    destruct (exit c); [apply lock_agree_at; exact H|].
    destruct (iteration_lock it H) as (Ho & Hl & Hv).
    unfold out_of, log_of, ctx_of in Ho, Hl, Hv.
    destruct (iteration tk it c) as [[r c1] e1].
    destruct (iteration tk it c') as [[r' c1'] e1']. cbn [fst snd] in *.
    subst r' e1'. destruct r as [[]|h]; [|apply lock_agree_at; exact Hv].
    specialize (IH _ _ Hv). unfold lock_agree, out_of, log_of, ctx_of in IH |- *.
    destruct (main_loop tk its c1) as [[r2 c2] e2].
    destruct (main_loop tk its c1') as [[r2' c2'] e2'].
    cbn [fst snd] in *. destruct IH as (I1 & I2 & I3).
    split; [exact I1|]. split; [congruence | exact I3].
Qed.

(** C8: the lock state.  The locked frequency is [last_freq] read under
    [locked], which is how the main loop reads it; so it is defined exactly
    when [locked] is set.  That this is the lock state of the program, and
    not of the model only, is what the other parts say.  A dwell step in the
    locked state tunes to the locked frequency and to nothing else, and
    keeps it for as long as [locked] stays set; the step that unlocks
    leaves none.  A turn that takes a lock defines it as the last frequency
    the turn tuned.  And what is left in the field [last_freq] while
    [locked] is not set is never used: two runs of the main loop on the
    same inputs, from contexts with the same lock state, return the same
    outcome, log the same events and end in the same lock state; so after
    the transition back to scanning, overwriting the field with any value
    changes nothing of what follows. *)
Theorem locked_frequency_invariant :
  (forall c : Ctx, (exists f, locked_frequency c = Some f) <-> locked c = true)
  /\ (forall now d (c : Ctx) f,
        locked_frequency c = Some f ->
        let '(_, c', evs) := locked_step tk now d c in
        tuned evs = [f]
        /\ locked_frequency c' = if locked c' then Some f else None)
  /\ (forall it (c : Ctx),
        locked_frequency c = None ->
        let '(_, c', evs) := iteration tk it c in
        forall f, locked_frequency c' = Some f ->
                  exists pre, tuned evs = pre ++ [f])
  /\ (forall its (c c' : Ctx),
        lock_equiv c c' ->
        lock_agree (main_loop tk its c) (main_loop tk its c'))
  /\ (forall its (c : Ctx) v,
        locked c = false ->
        lock_agree (main_loop tk its (set_last_freq v c)) (main_loop tk its c)).
Proof.
  split.
  { intros c. unfold locked_frequency. destruct (locked c); split.
    - reflexivity.
    - intros _. eexists. reflexivity.
    - intros [f H]. discriminate H.
    - discriminate. }
  split.
  { intros now d c f Hf. unfold locked_frequency in Hf.
    destruct (locked c) eqn:L; [|discriminate Hf]. injection Hf as <-.
    pose proof (wp_locked_step now d c) as H. unfold wp in H.
    destruct (locked_step tk now d c) as [[r c'] evs].
    destruct H as ((post & -> & Hq) & Hlf & _).
    split; [exact (proj2 (alerts_tune_passive _ Hq))|].
    unfold locked_frequency. rewrite Hlf. reflexivity. }
  split.
  { intros it c Hn. unfold locked_frequency in Hn.
    destruct (locked c) eqn:L; [discriminate Hn|]. clear Hn.
    rewrite iteration_scanning by exact L.
    pose proof (wp_scan_loop (it_dwells it) (U32.wrap (it_now it))
                  (if free_scan c then UP_NUM_CH else STATIC_CH) 0 c) as H.
    unfold wp in H.
    destruct (scan_loop tk (U32.wrap (it_now it))
                (if free_scan c then UP_NUM_CH else STATIC_CH) 0 (it_dwells it) c)
      as [[r c'] e].
    intros f Hf. unfold locked_frequency in Hf.
    destruct (locked c') eqn:L'; [|discriminate Hf]. injection Hf as <-.
    destruct H as (body & Hb & [(_ & Hl & _) | (-> & _ & _ & _ & pre & Hpre)]);
      [congruence|].
    exists pre. cbn [tuned]. rewrite tuned_app, Hpre. cbn [tuned].
    now rewrite app_nil_r. }
  split; [intros its c c' H; exact (main_loop_lock its H)|].
  intros its c v L. apply main_loop_lock. split; [reflexivity|].
  unfold locked_frequency. cbn [locked set_last_freq]. rewrite L. reflexivity.
Qed.

End Properties.

(** * Concrete runs *)

#[local] Existing Instance ZdB.



(** C2, as stated, fails: exactly 20000 ticks after the last confirmation a
    step without confirmation leaves the machine locked. *)
Lemma no_unlock_at_hold : ~ unlocks_at_hold Ex.tk 20000 Ex.quiet Ex.c_locked.
Proof.
  unfold unlocks_at_hold. vm_compute. intros H.
  assert (H' := H eq_refl eq_refl). discriminate H'. discriminate.
Qed.

(** Hold and expiry on concrete runs: one tick past the hold time a step
    without confirmation unlocks; with confirmations at ticks 1000 and 15000
    the machine is locked after every turn. *)
Lemma lock_hold_witness :
  locked (ctx_of (locked_step Ex.tk 20001 Ex.quiet Ex.c_locked)) = false
  /\ Forall (fun s => locked s = true)
       (main_states Ex.tk
          [Ex.iter 1000 [Ex.carrier 1010]; Ex.iter 5000 [Ex.quiet];
           Ex.iter 15000 [Ex.carrier 15010]] Ex.c_locked).
Proof.
  split.
  - edestruct (proj1 (@lock_hold Z ZdB Ex.tk) 20001 Ex.quiet Ex.c_locked)
      as [_ H].
    + reflexivity.
    + vm_compute. reflexivity.
    + reflexivity.
    + apply H. vm_compute. reflexivity.
  - apply (proj2 (@lock_hold Z ZdB Ex.tk)).
    + reflexivity.
    + vm_compute. split; [|split].
      * repeat split; discriminate.
      * repeat split; reflexivity.
      * right. exists [(1000, true); (5000, false)], 15000. reflexivity.
Defined.

(** Start-up when no radio device is registered. *)
Lemma startup_fail_fast_witness :
  out_of (python_detector_app Ex.tk Ex.boot_no_radio [] Ex.c0) = Ret (-1)
  /\ tuned (log_of (python_detector_app Ex.tk Ex.boot_no_radio [] Ex.c0)) = [].
Proof.
  pose proof (@startup_fail_fast Z ZdB Ex.tk Ex.boot_no_radio [] Ex.c0 eq_refl) as H.
  destruct (python_detector_app Ex.tk Ex.boot_no_radio [] Ex.c0) as [[r c'] evs].
  destruct H as (H1 & _ & _ & _ & H2 & _). split; [exact H1 | exact H2].
Defined.

(** The Right key at the top of the range and at the initial value: 5 wraps
    to 1, 3 steps to 4. *)
Lemma sens_cycle_witness :
  sens (ctx_of (input_cb (Ex.press InputKeyRight) (set_sens 5 Ex.c0))) = 1
  /\ sens (ctx_of (input_cb (Ex.press InputKeyRight) Ex.c0)) = 4.
Proof.
  split.
  - apply (proj1 (@sens_cycle Z ZdB Ex.tk) (set_sens 5 Ex.c0)).
    + unfold sens_ok. cbn. lia.
    + reflexivity.
  - assert (H : sens_ok Ex.c0) by (unfold sens_ok; cbn; lia).
    destruct (proj1 (@sens_cycle Z ZdB Ex.tk) Ex.c0 H) as (E & _).
    rewrite E. reflexivity.
Defined.

(** ** Behaviour at the inputs the specification singles out *)

(** C5, the code at the failing input: a pass begun in fixed mode, Left
    pressed during the frame delay of its first dwell step.  The second step
    tunes to sweep channel 1 (380025000), not to the second fixed channel
    (388790000); the pass still makes the 17 steps of the fixed list. *)
Theorem toggle_mid_pass_switches_list :
  tuned (log_of (iteration Ex.tk (Ex.iter 1000 [Ex.quiet_left; Ex.quiet]) Ex.c0))
  = [389540000; 380025000]
  /\ nth_error STATIC_FREQS 1 = Some 388790000
  /\ length (tuned (log_of (iteration Ex.tk
                              (Ex.iter 1000 (Ex.quiet_left :: repeat Ex.quiet 30))
                              Ex.c0))) = 17%nat.
Proof. vm_compute. repeat split. Qed.

(** C6, the code at the failing inputs, from start-up.  First: Left is
    pressed at the end of a fixed pass, so the next pass is a sweep of 201
    steps, and pressed again during its step 16; step 17 reads
    [STATIC_FREQS[17]], past the 17 entries.  Second and third: a lock taken
    in fixed mode on 389540000, or on 379650000 below the band, then Left
    pressed; the locked step reads [baseline] at 381, or at 171784 after the
    unsigned subtraction wraps. *)
Theorem index_out_of_bounds :
  out_of (python_detector_app Ex.tk Ex.boot_ok
            [Ex.iter 0 (repeat Ex.quiet 16 ++ [Ex.quiet_left]);
             Ex.iter 2000 (repeat Ex.quiet 16 ++ [Ex.quiet_left; Ex.quiet])]
            Ex.c0)
  = Halt (OutOfBounds ArrStaticFreqs 17)
  /\ out_of (python_detector_app Ex.tk Ex.boot_ok
               [Ex.iter 0 [Ex.carrier 10]; Ex.iter 100 [Ex.left_quiet]] Ex.c0)
     = Halt (OutOfBounds ArrBaseline 381)
  /\ out_of (python_detector_app Ex.tk Ex.boot_ok
               [Ex.iter 0 (repeat Ex.quiet 6 ++ [Ex.carrier 500]);
                Ex.iter 1000 [Ex.left_quiet]] Ex.c0)
     = Halt (OutOfBounds ArrBaseline 171784)
  /\ STATIC_CH = 17 /\ UP_NUM_CH = 201.
Proof. vm_compute. repeat split. Qed.

(** A carrier that holds for the slot is confirmed after three polls; a
    spike is rejected at its second sample and the later polls are not
    made. *)
Example persist_carrier_and_spike :
  persist Ex.tk (-75) 100 (d_polls (Ex.carrier 100)) Ex.c0
  = (Ret true, Ex.c0,
     [EvGetTick 100; EvGetTick 101; EvGetRssi (-70); EvGetTick 108;
      EvGetRssi (-71); EvGetTick 114])
  /\ persist Ex.tk (-75) 100 (d_polls (Ex.spike 100)) Ex.c0
     = (Ret false, Ex.c0,
        [EvGetTick 100; EvGetTick 101; EvGetRssi (-70); EvGetTick 102;
         EvGetRssi (-99)]).
Proof. split; reflexivity. Qed.

(** The scenario of the specification: baselines of -90, sensitivity 3, a
    steady -80 on the first sweep channel. *)
Example end_to_end_scenario :
  let c := set_free_scan true (set_baseline (repeat (-90) 201) Ex.c0) in
  let d := {| d_keys_tune := []; d_rssi := -80; d_tick0 := 10;
              d_polls := [Ex.poll 11 (-80); Ex.poll 17 (-80); Ex.poll 24 (-80)];
              d_keys_frame := [] |} in
  let run := iteration Ex.tk (Ex.iter 0 [d]) c in
  scan_threshold (-90) 3 = -85
  /\ locked (ctx_of run) = true
  /\ last_freq (ctx_of run) = 380000000
  /\ alerts (log_of run) = 1%nat.
Proof. vm_compute. repeat split. Qed.

(** The thresholds at the initial sensitivity over the floor baseline: the
    carrier of -70 exceeds the scanning threshold of -75, and the locked
    threshold is -80. *)
Lemma threshold_formula_witness :
  flt (scan_threshold (-80) 3) (-70) = true /\ lock_threshold (-80) 3 = -80.
Proof.
  split.
  - edestruct (proj1 (proj2 (@threshold_formula Z ZdB Ex.tk)) 1 (Ex.carrier 1130) Ex.c0)
      as (base & Hb & Hp).
    + vm_compute. reflexivity.
    + cbn in Hb. subst base. exact (proj1 (proj1 Hp eq_refl)).
  - rewrite (proj2 (proj1 (@threshold_formula Z ZdB Ex.tk) (-80) 3)). reflexivity.
Defined.

(** * Witnesses of the further properties *)

(** Five presses of Right from sensitivity 3 come back to 3. *)
Lemma input_round_trips_witness :
  settings (ctx_of (deliver (repeat (Ex.press InputKeyRight) 5) Ex.c0))
  = settings Ex.c0.
Proof.
  apply (proj1 (proj2 (@input_round_trips Z Ex.c0))).
  unfold sens_ok. vm_compute. split; discriminate.
Defined.

(** The carrier that holds at threshold -72 holds at -75, with the same
    samples read. *)
Lemma persist_monotone_witness :
  persist Ex.tk (-75) 1010 (d_polls (Ex.carrier 1010)) Ex.c0
  = persist Ex.tk (-72) 1010 (d_polls (Ex.carrier 1010)) Ex.c0.
Proof.
  assert (Hm : forall s : Z, flt s (-75) = true -> flt s (-72) = true).
  { intros s H. cbn [flt ZdB] in *. apply Z.ltb_lt in H. apply Z.ltb_lt. lia. }
  apply (proj1 (@persist_monotone Z ZdB Ex.tk (-72) (-75) 1010
                  (d_polls (Ex.carrier 1010)) Ex.c0 Hm)).
  vm_compute. reflexivity.
Defined.

(** A slot entered five ticks before the wrap is confirmed without a
    sample. *)
Lemma persist_deadline_wraps_witness :
  persist Ex.tk 0 4294967291 [Ex.poll 4294967293 (-99)] Ex.c0
  = (Ret true, Ex.c0, [EvGetTick 4294967291; EvGetTick 4294967293]).
Proof.
  apply (@persist_deadline_wraps Z ZdB Ex.tk 0 4294967291
           (Ex.poll 4294967293 (-99)) [] Ex.c0);
    vm_compute; discriminate.
Defined.

Lemma calibrate_fills_baseline_witness :
  baseline (ctx_of (calibrate 0 (cal_rssi Ex.boot_ok) Ex.c0))
  = cal_rssi Ex.boot_ok.
Proof.
  assert (H2 : (Z.to_nat UP_NUM_CH <= length (cal_rssi Ex.boot_ok))%nat)
    by (vm_compute; apply le_n).
  pose proof (@calibrate_fills_baseline Z (cal_rssi Ex.boot_ok) Ex.c0 eq_refl H2)
    as H.
  vm_compute in H |- *. exact (proj1 (proj2 H)).
Defined.

(** The last sweep channel is 385 MHz. *)
Lemma sweep_channels_grid_witness :
  nth_error sweep_channels 200 = Some 385000000.
Proof.
  assert (H : (200 < 201)%nat) by lia.
  exact (proj1 (@sweep_channels_grid 200 H)).
Defined.

Lemma exit_request_witness :
  main_loop Ex.tk Ex.lock_run (set_exit true Ex.c0)
  = (Ret tt, set_exit true Ex.c0, []).
Proof.
  apply (proj1 (proj2 (proj2 (@exit_request Z ZdB Ex.tk Ex.lock_run
                                (set_exit true Ex.c0))))).
  reflexivity.
Defined.

(** A full run: start-up, calibration, one pass ended by Back, teardown. *)
Lemma app_returns_witness :
  boots Ex.boot_ok = true
  /\ exists body,
       log_of (python_detector_app Ex.tk Ex.boot_ok
                 [Ex.iter 0 [Ex.back_quiet]] Ex.c0)
       = bring_up ++ body ++ teardown.
Proof.
  assert (E : out_of (python_detector_app Ex.tk Ex.boot_ok
                        [Ex.iter 0 [Ex.back_quiet]] Ex.c0) = Ret 0)
    by (vm_compute; reflexivity).
  destruct (@app_returns Z ZdB Ex.tk Ex.boot_ok [Ex.iter 0 [Ex.back_quiet]]
              Ex.c0 0 E) as [[_ H]|(H1 & _ & _ & H4)].
  - discriminate H.
  - split; [exact H1 | exact H4].
Defined.

Lemma back_ends_pass_witness :
  scan_loop Ex.tk 0 17 0 [Ex.back_quiet; Ex.quiet] Ex.c0
  = scan_loop Ex.tk 0 17 0 [Ex.back_quiet] Ex.c0.
Proof.
  pose proof (@back_ends_pass Z ZdB Ex.tk 0 17 0 Ex.back_quiet [Ex.quiet] Ex.c0
                eq_refl eq_refl) as H.
  vm_compute in H |- *. exact (proj1 H).
Defined.

(** A silent pass in fixed mode tunes the seventeen fixed channels in
    order. *)
Lemma pass_follows_channel_list_witness :
  tuned (log_of (scan_pass Ex.tk 0 (repeat Ex.quiet 17) Ex.c0)) = STATIC_FREQS.
Proof.
  assert (Hnt : no_toggle (repeat Ex.quiet 17))
    by (unfold no_toggle; repeat constructor).
  assert (Hlen : length (baseline Ex.c0) = Z.to_nat UP_NUM_CH) by reflexivity.
  pose proof (@pass_follows_channel_list Z ZdB Ex.tk 0 (repeat Ex.quiet 17) Ex.c0
                Hnt Hlen) as H.
  cbv zeta in H.
  remember (scan_pass Ex.tk 0 (repeat Ex.quiet 17) Ex.c0) as x eqn:E.
  vm_compute in E. subst x. cbv beta iota in H.
  destruct H as (_ & _ & _ & H & _).
  exact (H eq_refl eq_refl eq_refl).
Defined.

Lemma in_bounds_without_toggle_witness :
  faulted (out_of (python_detector_app Ex.tk Ex.boot_ok Ex.lock_run app_init))
  = false.
Proof.
  assert (Hnt : no_toggle_run Ex.lock_run)
    by (unfold no_toggle_run, no_toggle; repeat constructor).
  assert (Hs : safe Ex.c0).
  { split; [reflexivity|]. intros H. vm_compute in H. discriminate H. }
  exact (proj2 (proj2 (proj2 (@in_bounds_without_toggle Z ZdB Ex.tk Ex.boot_ok
                                Ex.lock_run Ex.c0 Hnt Hs)))).
Defined.

(** The pass that takes the lock leaves [Scanning] on the main view. *)
Lemma status_follows_lock_witness :
  locked (ctx_of (iteration Ex.tk (Ex.iter 1000 [Ex.quiet; Ex.carrier 1130; Ex.quiet])
                    Ex.c0)) = true
  /\ render_status (ctx_of (iteration Ex.tk
                              (Ex.iter 1000 [Ex.quiet; Ex.carrier 1130; Ex.quiet])
                              Ex.c0)) = "Scanning"%string.
Proof.
  assert (Hs : status_sound Ex.c0).
  { intros H. vm_compute in H. discriminate H. }
  split; [vm_compute; reflexivity|].
  apply (proj2 (proj2 (@status_follows_lock Z ZdB Ex.tk [] Ex.c0 Hs))).
  reflexivity.
Defined.

(** 20001 ticks after a confirmation stamped 296 ticks before the wrap, the
    tick read is 19705 and the step unlocks. *)
Lemma hold_timer_wraps_witness :
  locked (ctx_of (locked_step Ex.tk 19705 Ex.quiet Ex.c_wrap)) = false.
Proof.
  assert (He : 0 <= 20001 < U32.modulus) by (unfold U32.modulus; lia).
  pose proof (@hold_timer_wraps Z ZdB Ex.tk 20001 Ex.quiet Ex.c_wrap eq_refl He)
    as H.
  vm_compute in H |- *. exact (proj1 H).
Defined.

(** With the alert mode [OFF] the pass logs what it logs otherwise, the
    alert included. *)
Lemma alert_mode_inert_witness :
  alerts (log_of (main_loop Ex.tk Ex.lock_run (set_mode OFF Ex.c0))) = 1%nat.
Proof.
  destruct (@alert_mode_inert Z ZdB Ex.tk Ex.lock_run (set_mode OFF Ex.c0) Ex.c0
              eq_refl) as (_ & H & _).
  rewrite H. vm_compute. reflexivity.
Defined.

(** 384.975 MHz, the last but one sweep channel, is printed in full. *)
Lemma debug_frequency_readout_witness :
  fst (render_freq 384975000) * 1000000 + snd (render_freq 384975000) * 1000
  = 384975000.
Proof.
  assert (Hin : In 384975000 sweep_channels)
    by (apply (nth_error_In _ 199); vm_compute; reflexivity).
  pose proof (@debug_frequency_readout 384975000 Hin) as H.
  vm_compute in H |- *. exact (proj1 H).
Defined.

(** * Witnesses of the lock state and of the slot *)

(** The spike: the slot holds -70, -99 and -70; at threshold -75 [persist]
    reads the first two samples and answers [false]. *)
Lemma persist_every_sample_witness :
  out_of (persist Ex.tk (-75) 1000 (d_polls (Ex.spike 1000)) Ex.c0) = Ret false
  /\ sampled (log_of (persist Ex.tk (-75) 1000 (d_polls (Ex.spike 1000)) Ex.c0))
     = [-70; -99].
Proof.
  pose proof (@persist_every_sample Z ZdB Ex.tk (-75) 1000
                (d_polls (Ex.spike 1000)) Ex.c0) as H.
  cbv zeta in H. unfold out_of, log_of.
  destruct (persist Ex.tk (-75) 1000 (d_polls (Ex.spike 1000)) Ex.c0)
    as [[r c'] evs].
  destruct H as (_ & H2 & H3 & _). cbn [fst snd]. split.
  - apply H3. vm_compute. apply Exists_cons_tl, Exists_cons_hd. reflexivity.
  - rewrite H2. vm_compute. reflexivity.
Defined.

(** Locked on 389540000: a step without confirmation within the hold time
    keeps the locked frequency, the step that unlocks leaves none. *)
Lemma locked_frequency_invariant_witness :
  locked_frequency (ctx_of (locked_step Ex.tk 5000 Ex.quiet Ex.c_locked))
  = Some 389540000
  /\ locked_frequency (ctx_of (locked_step Ex.tk 20001 Ex.quiet Ex.c_locked))
     = None.
Proof.
  pose proof (proj1 (proj2 (@locked_frequency_invariant Z ZdB Ex.tk))
                5000 Ex.quiet Ex.c_locked 389540000 eq_refl) as H1.
  pose proof (proj1 (proj2 (@locked_frequency_invariant Z ZdB Ex.tk))
                20001 Ex.quiet Ex.c_locked 389540000 eq_refl) as H2.
  vm_compute in H1, H2 |- *. exact (conj (proj2 H1) (proj2 H2)).
Defined.
